(** * Order placement, stock reservation and cache invalidation

    A shallow embedding of the order controller ([createOrder] and
    [invalidateProductCache]), of the cache service ([CacheService]) and
    of the cached product listing route of the e-commerce backend,
    together with the tables of [database/init.sql] they work on.

    Conventions of the model.

    - Money.  [price], [unit_price] and [total_amount] are DECIMAL(10,2)
      columns; the model keeps them as integers counted in cents, and the
      JavaScript arithmetic [parseFloat(price) * quantity] and [+=] is
      taken on those integers.  The rounding of doubles, which for the
      carts a request can carry stays far below the half cent that the
      DECIMAL column rounds away, is not modelled.
    - Numbers.  Product ids, quantities and the numeric query parameters
      are integers.
    - Effects.  A handler is a function of the [world]: the PostgreSQL
      connection it holds, the Redis store, and the trace of statements
      and cache commands issued so far.  A JavaScript [throw] (a rejected
      promise) is the [Throw] outcome; [try]/[catch]/[finally] are
      combinators.
    - Faults.  Any statement sent to PostgreSQL and any command sent to
      Redis can be rejected for reasons outside the program (connection
      loss, a constraint on a table that is not modelled).  The world
      carries one flag per future call saying whether that call is
      rejected.
    - Logging.  The trace keeps the console.error lines; console.log
      lines are left out. *)

From Stdlib Require Import ZArith List Bool Lia Ascii String.
From stdpp Require Import base option list gmap strings pretty.

Local Open Scope Z_scope.

(** ** Outcomes and the handler monad *)

Inductive statement :=
  | BEGIN
  | COMMIT
  | ROLLBACK
  | SelectProduct (id : Z)
  | InsertOrder (user_id total_amount : Z) (shipping_address : string)
  | InsertOrderItem (order_id product_id unit_price quantity : Z)
  | UpdateStock (quantity product_id : Z)
  | SelectCompleteOrder (order_id : Z)
  | SelectOrderHeader (order_id : Z)
  | SelectOrderItems (order_id : Z)
  | CountListing (category : option Z) (search : option string)
  | SelectListing (category : option Z) (search : option string) (limit offset : Z).

Inductive redis_cmd :=
  | GET (key : string)
  | SETEX (key : string) (ttl : Z)
  | DEL (keys : list string)
  | KEYS (pattern : string)
  | EXISTS (key : string)
  | TTL (key : string)
  | EXPIRE (key : string) (ttl : Z)
  | FLUSHALL
  | INFO
  | DBSIZE
  | PING
  | QUIT.

Inductive error :=
  | PgError (s : statement)          (* the statement was rejected *)
  | CheckViolation (s : statement)   (* a CHECK constraint refused the row *)
  | RedisError (c : redis_cmd)
  | SyntaxError.                     (* JSON.parse on a text that is not JSON *)

Inductive result (A : Type) :=
  | Ok (a : A)
  | Throw (e : error).
Arguments Ok {A} a.
Arguments Throw {A} e.

Inductive event :=
  | Sql (s : statement) (ok : bool)
  | Redis (c : redis_cmd) (ok : bool)
  | ConsoleError (label : string)
  | Release.

(** ** Tables of database/init.sql *)

Record product := {
  name : string;
  price : Z;                  (* DECIMAL(10,2), in cents *)
  stock_quantity : Z;         (* INTEGER NOT NULL CHECK (stock_quantity >= 0) *)
  category_id : option Z
}.

Inductive order_status := pending | confirmed | shipped | delivered | cancelled.

Record order := {
  user_id : Z;
  total_amount : Z;           (* DECIMAL(10,2), in cents *)
  status : order_status;
  shipping_address : string
}.

Record order_item := {
  oi_id : Z;
  oi_order_id : Z;
  oi_product_id : Z;
  oi_unit_price : Z;
  oi_quantity : Z
}.

Record database := {
  products : gmap Z product;
  orders : gmap Z order;
  order_items : list order_item   (* in insertion order *)
}.

(** The connection checked out of the pool.  [db] is what the connection
    sees; while a transaction is open [tx] holds the tables as they were
    at BEGIN, which is what is durable and what ROLLBACK restores.  The
    two SERIAL sequences are not transactional.  [pg_faults] has one flag
    per statement that the server is going to receive. *)
Record pg_conn := {
  db : database;
  tx : option database;
  orders_id_seq : Z;
  order_items_id_seq : Z;
  pg_faults : list bool
}.

Definition durable (c : pg_conn) : database :=
  match tx c with
  | Some snapshot => snapshot
  | None => db c
  end.

(** ** Values kept in Redis

    A listing response, as the product route builds and caches it.  Redis
    keeps texts: the JSON text of a listing, which the model keeps as the
    listing it denotes, or a text that JSON.parse rejects. *)
Record listing := {
  l_items : list (Z * product);
  l_page : Z;
  l_limit : Z;
  l_total : Z
}.

Inductive cached :=
  | Json (v : listing)
  | Garbage (text : string).

Record redis_conn := {
  store : gmap string cached;
  redis_faults : list bool
}.

Record world := {
  pg : pg_conn;
  redis : redis_conn;
  trace : list event            (* oldest first *)
}.

Definition M (A : Type) : Type := world -> result A * world.

Definition ret {A} (a : A) : M A := fun w => (Ok a, w).

Definition bind {A B} (m : M A) (k : A -> M B) : M B := fun w =>
  match m w with
  | (Ok a, w') => k a w'
  | (Throw e, w') => (Throw e, w')
  end.

Definition throw {A} (e : error) : M A := fun w => (Throw e, w).

(** [try { m } catch (error) { h error }] *)
Definition try_catch {A} (m : M A) (h : error -> M A) : M A := fun w =>
  match m w with
  | (Ok a, w') => (Ok a, w')
  | (Throw e, w') => h e w'
  end.

(** [... finally { f }]: [f] runs on every exit path and the outcome of the
    protected block is kept, unless [f] itself throws. *)
Definition finally {A} (m : M A) (f : M unit) : M A := fun w =>
  match m w with
  | (r, w') =>
      match f w' with
      | (Ok _, w'') => (r, w'')
      | (Throw e, w'') => (Throw e, w'')
      end
  end.

Declare Scope handler_scope.
Delimit Scope handler_scope with handler.
Notation "'let!' x ':=' m 'in' k" := (bind m (fun x => k))
  (at level 10, x name, m at level 100, k at level 200) : handler_scope.
Notation "'do!' m 'in' k" := (bind m (fun _ => k))
  (at level 10, m at level 100, k at level 200) : handler_scope.
Local Open Scope handler_scope.

Definition log (e : event) : M unit := fun w =>
  (Ok tt, {| pg := pg w; redis := redis w; trace := trace w ++ [e] |}).

Definition sum_Z (l : list Z) : Z := foldr Z.add 0 l.

(** ** The PostgreSQL client

    [client_query s exec] is [await client.query(s)]: the statement is
    recorded in the trace; when the connection's next fault flag is set
    the call rejects and the tables are untouched, otherwise the server
    runs [exec], which may itself reject the statement on a constraint. *)

Definition with_pg_faults (fs : list bool) (c : pg_conn) : pg_conn :=
  {| db := db c; tx := tx c; orders_id_seq := orders_id_seq c;
     order_items_id_seq := order_items_id_seq c; pg_faults := fs |}.

Definition with_db (d : database) (c : pg_conn) : pg_conn :=
  {| db := d; tx := tx c; orders_id_seq := orders_id_seq c;
     order_items_id_seq := order_items_id_seq c; pg_faults := pg_faults c |}.

Definition client_query {A} (s : statement)
    (exec : pg_conn -> result A * pg_conn) : M A := fun w =>
  match pg_faults (pg w) with
  | true :: fs =>
      (Throw (PgError s),
       {| pg := with_pg_faults fs (pg w); redis := redis w;
          trace := trace w ++ [Sql s false] |})
  | fs =>
      match exec (with_pg_faults (tail fs) (pg w)) with
      | (Ok a, c) =>
          (Ok a, {| pg := c; redis := redis w; trace := trace w ++ [Sql s true] |})
      | (Throw e, c) =>
          (Throw e, {| pg := c; redis := redis w; trace := trace w ++ [Sql s false] |})
      end
  end.

(** BEGIN opens a transaction unless one is open already. *)
Definition exec_begin (c : pg_conn) : result unit * pg_conn :=
  match tx c with
  | Some _ => (Ok tt, c)
  | None =>
      (Ok tt, {| db := db c; tx := Some (db c); orders_id_seq := orders_id_seq c;
                 order_items_id_seq := order_items_id_seq c; pg_faults := pg_faults c |})
  end.

(** COMMIT makes the connection's view durable. *)
Definition exec_commit (c : pg_conn) : result unit * pg_conn :=
  (Ok tt, {| db := db c; tx := None; orders_id_seq := orders_id_seq c;
             order_items_id_seq := order_items_id_seq c; pg_faults := pg_faults c |}).

(** ROLLBACK restores the tables as they were at BEGIN. *)
Definition exec_rollback (c : pg_conn) : result unit * pg_conn :=
  match tx c with
  | Some snapshot =>
      (Ok tt, {| db := snapshot; tx := None; orders_id_seq := orders_id_seq c;
                 order_items_id_seq := order_items_id_seq c; pg_faults := pg_faults c |})
  | None => (Ok tt, c)
  end.

(** SELECT id, name, price, stock_quantity FROM products WHERE id = $1 *)
Definition exec_select_product (id : Z) (c : pg_conn) : result (option product) * pg_conn :=
  (Ok (products (db c) !! id), c).

(** INSERT INTO orders (user_id, total_amount, status, shipping_address)
    VALUES ($1, $2, $3, $4) RETURNING id, ... *)
Definition exec_insert_order (s : statement) (uid total : Z) (st : order_status)
    (addr : string) (c : pg_conn) : result Z * pg_conn :=
  let id := orders_id_seq c in
  let c' := {| db := db c; tx := tx c; orders_id_seq := id + 1;
               order_items_id_seq := order_items_id_seq c; pg_faults := pg_faults c |} in
  match orders (db c) !! id with
  | Some _ => (Throw (PgError s), c')          (* PRIMARY KEY *)
  | None =>
      let o := {| user_id := uid; total_amount := total; status := st;
                  shipping_address := addr |} in
      (Ok id,
       with_db {| products := products (db c); orders := <[id := o]> (orders (db c));
                  order_items := order_items (db c) |} c')
  end.

(** INSERT INTO order_items (order_id, product_id, unit_price, quantity)
    VALUES ($1, $2, $3, $4) *)
Definition exec_insert_order_item (s : statement) (oid pid unit_price qty : Z)
    (c : pg_conn) : result unit * pg_conn :=
  let id := order_items_id_seq c in
  let c' := {| db := db c; tx := tx c; orders_id_seq := orders_id_seq c;
               order_items_id_seq := id + 1; pg_faults := pg_faults c |} in
  if existsb (fun oi => oi_id oi =? id) (order_items (db c)) then
    (Throw (PgError s), c')                    (* PRIMARY KEY *)
  else if qty <=? 0 then
    (Throw (CheckViolation s), c')             (* CHECK (quantity > 0) *)
  else
    let oi := {| oi_id := id; oi_order_id := oid; oi_product_id := pid;
                 oi_unit_price := unit_price; oi_quantity := qty |} in
    (Ok tt,
     with_db {| products := products (db c); orders := orders (db c);
                order_items := order_items (db c) ++ [oi] |} c').

(** UPDATE products SET stock_quantity = stock_quantity - $1 WHERE id = $2,
    under CHECK (stock_quantity >= 0). *)
Definition exec_update_stock (s : statement) (qty pid : Z) (c : pg_conn)
    : result unit * pg_conn :=
  match products (db c) !! pid with
  | None => (Ok tt, c)
  | Some p =>
      if stock_quantity p - qty <? 0 then (Throw (CheckViolation s), c)
      else
        let p' := {| name := name p; price := price p;
                     stock_quantity := stock_quantity p - qty;
                     category_id := category_id p |} in
        (Ok tt,
         with_db {| products := <[pid := p']> (products (db c)); orders := orders (db c);
                    order_items := order_items (db c) |} c)
  end.

(** One element of the [items] array of the order read back: the
    json object built from an order_items row joined with its product. *)
Record order_line := {
  li_id : Z;
  li_product_id : Z;
  li_product_name : string;
  li_unit_price : Z;
  li_quantity : Z;
  li_subtotal : Z              (* oi.unit_price * oi.quantity *)
}.

Record complete_order := {
  co_id : Z;
  co_total_amount : Z;
  co_status : order_status;
  co_shipping_address : string;
  co_items : list order_line
}.

(** FROM order_items oi JOIN products p ON oi.product_id = p.id
    WHERE oi.order_id = $1 *)
Definition joined_lines (d : database) (oid : Z) : list order_line :=
  omap (fun oi =>
          if oi_order_id oi =? oid then
            match products d !! oi_product_id oi with
            | Some p =>
                Some {| li_id := oi_id oi; li_product_id := oi_product_id oi;
                        li_product_name := name p; li_unit_price := oi_unit_price oi;
                        li_quantity := oi_quantity oi;
                        li_subtotal := oi_unit_price oi * oi_quantity oi |}
            | None => None
            end
          else None)
       (order_items d).

(** The read-back of the compiled controller: orders joined with
    order_items and products, grouped by order, the lines aggregated with
    json_agg, [json_build] being read as the constructor of a JSON object.
    An order without a joined line yields no row. *)
Definition exec_select_complete_order (oid : Z) (c : pg_conn)
    : result (option complete_order) * pg_conn :=
  match orders (db c) !! oid, joined_lines (db c) oid with
  | Some o, (_ :: _) as lines =>
      (Ok (Some {| co_id := oid; co_total_amount := total_amount o;
                   co_status := status o;
                   co_shipping_address := shipping_address o;
                   co_items := lines |}), c)
  | _, _ => (Ok None, c)
  end.

Definition begin_ : M unit := client_query BEGIN exec_begin.
Definition commit : M unit := client_query COMMIT exec_commit.
Definition rollback : M unit := client_query ROLLBACK exec_rollback.
Definition select_product (id : Z) : M (option product) :=
  client_query (SelectProduct id) (exec_select_product id).
Definition insert_order (uid total : Z) (st : order_status) (addr : string) : M Z :=
  client_query (InsertOrder uid total addr)
    (exec_insert_order (InsertOrder uid total addr) uid total st addr).
Definition insert_order_item (oid pid unit_price qty : Z) : M unit :=
  client_query (InsertOrderItem oid pid unit_price qty)
    (exec_insert_order_item (InsertOrderItem oid pid unit_price qty) oid pid unit_price qty).
Definition update_stock (qty pid : Z) : M unit :=
  client_query (UpdateStock qty pid) (exec_update_stock (UpdateStock qty pid) qty pid).
Definition select_complete_order (oid : Z) : M (option complete_order) :=
  client_query (SelectCompleteOrder oid) (exec_select_complete_order oid).

(** ** The Redis client

    [redis_call c exec] is [await this.redis.<c>(...)]: recorded in the
    trace, rejected when the next Redis fault flag is set, and otherwise
    run on the store.  Expiry is not modelled: no time passes inside a
    handler. *)

Definition redis_call {A} (c : redis_cmd)
    (exec : gmap string cached -> A * gmap string cached) : M A := fun w =>
  match redis_faults (redis w) with
  | true :: fs =>
      (Throw (RedisError c),
       {| pg := pg w; redis := {| store := store (redis w); redis_faults := fs |};
          trace := trace w ++ [Redis c false] |})
  | fs =>
      let '(a, st) := exec (store (redis w)) in
      (Ok a,
       {| pg := pg w; redis := {| store := st; redis_faults := tail fs |};
          trace := trace w ++ [Redis c true] |})
  end.

(** Glob matching of the KEYS command: [*] matches any run of characters,
    [?] any one character, any other character itself.  Character classes
    and escapes, which no pattern of this program uses, are left out. *)
Fixpoint glob (pattern : string) : string -> bool :=
  match pattern with
  | EmptyString => fun s => match s with EmptyString => true | _ => false end
  | String c pattern' =>
      if Ascii.eqb c "*"%char then
        fix star (s : string) : bool :=
          glob pattern' s ||
          match s with
          | EmptyString => false
          | String _ s' => star s'
          end
      else if Ascii.eqb c "?"%char then
        fun s => match s with
                 | EmptyString => false
                 | String _ s' => glob pattern' s'
                 end
      else
        fun s => match s with
                 | EmptyString => false
                 | String d s' => Ascii.eqb c d && glob pattern' s'
                 end
  end.

Definition redis_keys (pattern : string) (st : gmap string cached) : list string :=
  filter (fun k => glob pattern k = true) (elements (dom st)).

Definition redis_del (keys : list string) (st : gmap string cached)
    : gmap string cached :=
  foldr delete st keys.

(** ** services/cache: the CacheService singleton *)

Inductive cache_stats :=
  | Stats (keys : Z)
  | StatsError.

Module CacheService.

Definition get (key : string) : M (option listing) :=
  try_catch
    (let! value := redis_call (GET key) (fun st => (st !! key, st)) in
     match value with
     | None | Some (Garbage EmptyString) => ret None       (* if (value) *)
     | Some (Json v) => ret (Some v)                       (* JSON.parse(value) *)
     | Some (Garbage (String _ _)) => throw SyntaxError
     end)
    (fun _ => do! log (ConsoleError "Cache get error:") in ret None).

Definition set (key : string) (value : listing) (ttl : Z) : M unit :=
  try_catch
    (redis_call (SETEX key ttl) (fun st => (tt, <[key := Json value]> st)))
    (fun _ => log (ConsoleError "Cache set error:")).

Definition del (key : string) : M unit :=
  try_catch
    (redis_call (DEL [key]) (fun st => (tt, redis_del [key] st)))
    (fun _ => log (ConsoleError "Cache delete error:")).

Definition delMultiple (keys : list string) : M unit :=
  try_catch
    (match keys with
     | [] => ret tt
     | _ :: _ => redis_call (DEL keys) (fun st => (tt, redis_del keys st))
     end)
    (fun _ => log (ConsoleError "Cache delete multiple error:")).

Definition delByPattern (pattern : string) : M unit :=
  try_catch
    (let! keys := redis_call (KEYS pattern) (fun st => (redis_keys pattern st, st)) in
     match keys with
     | [] => ret tt
     | _ :: _ => redis_call (DEL keys) (fun st => (tt, redis_del keys st))
     end)
    (fun _ => log (ConsoleError "Cache delete by pattern error:")).

Definition exists_ (key : string) : M bool :=
  try_catch
    (redis_call (EXISTS key) (fun st => (bool_decide (is_Some (st !! key)), st)))
    (fun _ => do! log (ConsoleError "Cache exists error:") in ret false).

(** The remaining time to live is not tracked; a present key reports -1. *)
Definition getTTL (key : string) : M Z :=
  try_catch
    (redis_call (TTL key)
       (fun st => (match st !! key with Some _ => -1 | None => -2 end, st)))
    (fun _ => do! log (ConsoleError "Cache TTL error:") in ret (-2)).

Definition setTTL (key : string) (ttl : Z) : M unit :=
  try_catch
    (redis_call (EXPIRE key ttl) (fun st => (tt, st)))
    (fun _ => log (ConsoleError "Cache set TTL error:")).

Definition clearAll : M unit :=
  try_catch
    (redis_call FLUSHALL (fun _ => (tt, ∅)))
    (fun _ => log (ConsoleError "Cache clear all error:")).

Definition getStats : M cache_stats :=
  try_catch
    (do! redis_call INFO (fun st => (tt, st)) in
     let! keys := redis_call DBSIZE (fun st => (Z.of_nat (size st), st)) in
     ret (Stats keys))
    (fun _ => do! log (ConsoleError "Cache stats error:") in ret StatsError).

Definition healthCheck : M bool :=
  try_catch
    (do! redis_call PING (fun st => (tt, st)) in ret true)
    (fun _ => do! log (ConsoleError "Redis health check failed:") in ret false).

Definition close : M unit :=
  try_catch
    (redis_call QUIT (fun st => (tt, st)))
    (fun _ => log (ConsoleError "Redis close error:")).

End CacheService.

(** ** controllers/ordersController *)

Record cart_line := {
  productId : Z;
  quantity : Z
}.

Record request_body := {
  items : list cart_line;
  shippingAddress : string
}.

(** [user] is [req.user?.id], set by the authentication middleware. *)
Record request := {
  body : request_body;
  user : option Z
}.

(** What zod reports; the position of a cart line is its index. *)
Inductive issue :=
  | items_too_small               (* "Order must contain at least one item" *)
  | productId_not_positive (index : nat)
  | quantity_not_positive (index : nat)
  | shippingAddress_too_small.    (* "Shipping address must be at least 10 characters" *)

Definition line_issues (index : nat) (l : cart_line) : list issue :=
  (if 0 <? productId l then [] else [productId_not_positive index]) ++
  (if 0 <? quantity l then [] else [quantity_not_positive index]).

(** [createOrderSchema.safeParse(req.body)]: the issues found; the parse
    succeeds when there is none. *)
Definition createOrderSchema (b : request_body) : list issue :=
  concat (imap line_issues (items b)) ++
  (match items b with [] => [items_too_small] | _ :: _ => [] end) ++
  (if (10 <=? String.length (shippingAddress b))%nat then []
   else [shippingAddress_too_small]).

Inductive json_body :=
  | InvalidInput (errors : list issue)      (* { message: "Invalid input", errors } *)
  | Message (message : string)              (* { message } *)
  | OrderCreated (order : option complete_order)
      (* { message: "Order created successfully", order } *)
  | CreateFailed.                           (* { message: "Failed to create order" } *)

Record response := {
  res_status : Z;
  res_json : json_body
}.

Definition res (st : Z) (b : json_body) : response :=
  {| res_status := st; res_json := b |}.

(** An element of the local array [orderItems]. *)
Record reserved_line := {
  r_productId : Z;
  r_quantity : Z;
  r_unitPrice : Z;
  r_availableStock : Z
}.

Definition invalidateProductCache : M unit :=
  try_catch
    (CacheService.delByPattern "products:*")
    (fun _ => log (ConsoleError "Cache invalidation error:")).

Definition not_found_message (item : cart_line) : string :=
  "Product with ID " +:+ pretty (productId item) +:+ " not found".

Definition insufficient_stock_message (p : product) (item : cart_line) : string :=
  "Insufficient stock for " +:+ name p +:+ ". Available: " +:+
  pretty (stock_quantity p) +:+ ", Requested: " +:+ pretty (quantity item).

(** The first loop of [createOrder]: an early [return] of the handler is
    [inl], otherwise the loop hands over [totalAmount] and [orderItems]. *)
Fixpoint check_items (items : list cart_line) (totalAmount : Z)
    (orderItems : list reserved_line) : M (response + Z * list reserved_line) :=
  match items with
  | [] => ret (inr (totalAmount, orderItems))
  | item :: rest =>
      let! productResult := select_product (productId item) in
      match productResult with
      | None =>
          do! rollback in
          ret (inl (res 404 (Message (not_found_message item))))
      | Some product =>
          if stock_quantity product <? quantity item then
            do! rollback in
            ret (inl (res 400 (Message (insufficient_stock_message product item))))
          else
            check_items rest
              (totalAmount + price product * quantity item)
              (orderItems ++
               [{| r_productId := productId item; r_quantity := quantity item;
                   r_unitPrice := price product;
                   r_availableStock := stock_quantity product |}])
      end
  end.

(** The second loop: one order_items row and one stock update per line. *)
Fixpoint write_items (order_id : Z) (orderItems : list reserved_line) : M unit :=
  match orderItems with
  | [] => ret tt
  | item :: rest =>
      do! insert_order_item order_id (r_productId item) (r_unitPrice item)
            (r_quantity item) in
      do! update_stock (r_quantity item) (r_productId item) in
      write_items order_id rest
  end.

(** The controller exists twice in the repository: the TypeScript source
    and the compiled JavaScript.  They differ in how the committed order
    is read back and in what the [catch] block does after the rollback. *)
Inductive build :=
  | compiled    (* the JavaScript controller *)
  | source.     (* the TypeScript controller *)

(** The read-back of the TypeScript source: the header by id, then the
    lines by order id, assembled as [{ ...completeOrder, items }]; an
    order without a header row is [None]. *)
Definition exec_select_order_header (oid : Z) (c : pg_conn)
    : result (option order) * pg_conn :=
  (Ok (orders (db c) !! oid), c).

Definition exec_select_order_items (oid : Z) (c : pg_conn)
    : result (list order_line) * pg_conn :=
  (Ok (joined_lines (db c) oid), c).

Definition read_back (b : build) (order_id : Z) : M (option complete_order) :=
  match b with
  | compiled => select_complete_order order_id
  | source =>
      let! completeOrder :=
        client_query (SelectOrderHeader order_id) (exec_select_order_header order_id) in
      let! orderItemsResult :=
        client_query (SelectOrderItems order_id) (exec_select_order_items order_id) in
      ret (match completeOrder with
           | Some o =>
               Some {| co_id := order_id; co_total_amount := total_amount o;
                       co_status := status o;
                       co_shipping_address := shipping_address o;
                       co_items := orderItemsResult |}
           | None => None
           end)
  end.

(** The body of the [try] block. *)
Definition createOrder_try (b : build) (req : request) : M response :=
  do! begin_ in
  match createOrderSchema (body req) with
  | (_ :: _) as issues => ret (res 400 (InvalidInput issues))
  | [] =>
      match user req with
      | None | Some 0 => ret (res 401 (Message "Authentication required"))
      | Some userId =>
          let! checked := check_items (items (body req)) 0 [] in
          match checked with
          | inl early => ret early
          | inr (totalAmount, orderItems) =>
              let! order_id :=
                insert_order userId totalAmount pending (shippingAddress (body req)) in
              do! write_items order_id orderItems in
              do! commit in
              do! invalidateProductCache in
              let! completeOrder := read_back b order_id in
              ret (res 201 (OrderCreated completeOrder))
          end
      end
  end.

(** The [catch] block: rollback, then the compiled controller answers 500
    and the source rethrows to the global error handler. *)
Definition createOrder_catch (b : build) (e : error) : M response :=
  do! rollback in
  do! log (ConsoleError "createOrder failed:") in
  match b with
  | compiled => ret (res 500 CreateFailed)
  | source => throw e
  end.

(** [createOrder(req, res)] on the client that [pool.connect()] returned;
    [finally] releases the client. *)
Definition createOrder (b : build) (req : request) : M response :=
  finally (try_catch (createOrder_try b req) (createOrder_catch b)) (log Release).

(** ** routes/products: the cached listing *)

Record listing_query := {
  q_page : option Z;        (* Number(req.query.page), None when absent or NaN *)
  q_limit : option Z;
  q_category : option Z;    (* None when absent or not a number *)
  q_search : option string
}.

(** [Number(x ?? d) || d] *)
Definition number_or (x : option Z) (d : Z) : Z :=
  match x with
  | None | Some 0 => d
  | Some n => n
  end.

Definition page_of (q : listing_query) : Z := Z.max 1 (number_or (q_page q) 1).
Definition limit_of (q : listing_query) : Z :=
  Z.min 50 (Z.max 1 (number_or (q_limit q) 12)).
Definition offset_of (q : listing_query) : Z := (page_of q - 1) * limit_of q.

(** [`products:${page}:${limit}:${category || 'all'}:${search || 'none'}`] *)
Definition cacheKey (q : listing_query) : string :=
  "products:" +:+ pretty (page_of q) +:+ ":" +:+ pretty (limit_of q) +:+ ":" +:+
  match q_category q with
  | None | Some 0 => "all"
  | Some c => pretty c
  end +:+ ":" +:+
  match q_search q with
  | None | Some EmptyString => "none"
  | Some s => s
  end.

Definition is_space (c : ascii) : bool :=
  existsb (Ascii.eqb c) [" "; "009"; "010"; "011"; "012"; "013"]%char.

Fixpoint blank (s : string) : bool :=
  match s with
  | EmptyString => true
  | String c s' => is_space c && blank s'
  end.

(** [search && search.trim() !== ""]: the search term sent to the server. *)
Definition search_param (q : listing_query) : option string :=
  match q_search q with
  | Some s => if blank s then None else Some s
  | None => None
  end.

Inductive listing_response :=
  | ListingOk (l : listing)       (* 200 *)
  | ListingFailed.                (* 500 { message: "Failed to fetch products" } *)

(** [pool.query(s)]: a statement outside any transaction of the order
    connection; it reads what is durable. *)
Definition pool_query {A} (s : statement) (read : database -> A) : M A := fun w =>
  match pg_faults (pg w) with
  | true :: fs =>
      (Throw (PgError s),
       {| pg := with_pg_faults fs (pg w); redis := redis w;
          trace := trace w ++ [Sql s false] |})
  | fs =>
      (Ok (read (durable (pg w))),
       {| pg := with_pg_faults (tail fs) (pg w); redis := redis w;
          trace := trace w ++ [Sql s true] |})
  end.

Section Listing.

(** How PostgreSQL evaluates the two listing statements over the
    products table (WHERE on category and ILIKE, ORDER BY created_at,
    LIMIT and OFFSET) is left open. *)
Variable select_rows :
  gmap Z product -> option Z -> option string -> Z -> Z -> list (Z * product).
Variable count_rows : gmap Z product -> option Z -> option string -> Z.

Definition fetch_listing (q : listing_query) : M listing :=
  let! total :=
    pool_query (CountListing (q_category q) (search_param q))
      (fun d => count_rows (products d) (q_category q) (search_param q)) in
  let! rows :=
    pool_query (SelectListing (q_category q) (search_param q) (limit_of q) (offset_of q))
      (fun d => select_rows (products d) (q_category q) (search_param q)
                  (limit_of q) (offset_of q)) in
  ret {| l_items := rows; l_page := page_of q; l_limit := limit_of q;
         l_total := total |}.

(** [router.get("/")] *)
Definition products_get (q : listing_query) : M listing_response :=
  try_catch
    (let! cachedResult := CacheService.get (cacheKey q) in
     match cachedResult with
     | Some cached => ret (ListingOk cached)
     | None =>
         let! response := fetch_listing q in
         do! CacheService.set (cacheKey q) response 60 in
         ret (ListingOk response)
     end)
    (fun _ => do! log (ConsoleError "GET /api/products failed:") in ret ListingFailed).

End Listing.

(** ** Concurrent orders

    Several [createOrder] calls run at once, each on its own connection,
    against the same products table.  A call is followed statement by
    statement: the SELECTs of the stock check, the INSERT of the order,
    one UPDATE of stock per line, COMMIT.  Only the stock counters are
    kept; the INSERTs write rows that belong to the one transaction.

    The server is PostgreSQL at its default isolation level: a SELECT
    reads what is committed; an UPDATE locks its row until the transaction
    ends, waits while another open transaction holds the row, then works
    on the latest value, and is refused when the new value breaks
    CHECK (stock_quantity >= 0); COMMIT publishes the transaction's
    writes, ROLLBACK drops them.  Any statement of an open transaction
    can be rejected (connection loss, a deadlock that the server breaks),
    which ends the call in the [catch] block. *)
Module Concurrent.













(** The quantity of product [P] that a cart asks for. *)
Definition requested (P : Z) (c : list cart_line) : Z :=
  sum_Z (map quantity (filter (fun l => productId l = P) c)).






End Concurrent.

(** ** Vocabulary of the statements *)

Definition is_redis (e : event) : bool :=
  match e with
  | Redis _ _ => true
  | _ => false
  end.

(** Every run only appends to the trace. *)
Definition appends {A} (m : M A) : Prop :=
  forall w r w', m w = (r, w') -> exists evs, trace w' = trace w ++ evs.

(** A run that leaves Redis alone: the store and its fault flags are
    untouched and no cache command is traced. *)
Definition db_only {A} (m : M A) : Prop :=
  forall w r w', m w = (r, w') ->
    redis w' = redis w /\
    exists evs, trace w' = trace w ++ evs /\ Forall (fun e => is_redis e = false) evs.

(** A run that leaves PostgreSQL alone and does not throw. *)
Definition cache_only {A} (m : M A) : Prop :=
  forall w, exists a w', m w = (Ok a, w') /\ pg w' = pg w /\
    exists evs, trace w' = trace w ++ evs.

(** Every run of [m] adds to the trace a list of events satisfying [P]. *)
Definition adds {A} (P : list event -> Prop) (m : M A) : Prop :=
  forall w r w', m w = (r, w') -> exists evs, trace w' = trace w ++ evs /\ P evs.

(** The outcome of [m] and what it does to the database connection do not
    depend on Redis nor on the trace. *)
Definition redis_blind {A} (m : M A) : Prop :=
  forall w1 w2, pg w1 = pg w2 ->
    fst (m w1) = fst (m w2) /\ pg (snd (m w1)) = pg (snd (m w2)).

(** Scanning a trace, the first cache command is met only after a COMMIT
    that succeeded. *)
Fixpoint commit_first (evs : list event) : bool :=
  match evs with
  | [] => true
  | Sql COMMIT true :: _ => true
  | Redis _ _ :: _ => false
  | _ :: rest => commit_first rest
  end.

(** A rejected cache command is followed up by the cache service's
    console.error. *)
Definition failure_logged (evs : list event) : Prop :=
  (exists c, Redis c false ∈ evs) ->
  ConsoleError "Cache delete by pattern error:" ∈ evs.

(** What a run added to the trace. *)
Definition new_events (w w' : world) : list event :=
  drop (length (trace w)) (trace w').

(** The world once [client.release()] has been traced. *)
Definition released (w : world) : world :=
  {| pg := pg w; redis := redis w; trace := trace w ++ [Release] |}.

(** The world after a statement that changed nothing was accepted. *)
Definition accepted (s : statement) (w : world) : world :=
  {| pg := with_pg_faults (tail (pg_faults (pg w))) (pg w); redis := redis w;
     trace := trace w ++ [Sql s true] |}.

(** [no_fault n fs]: none of the next [n] calls is rejected. *)
Definition no_fault (n : nat) (fs : list bool) : bool :=
  forallb negb (take n fs).

(** The connection sees the same tables and is in the same transaction;
    only fault flags may have been consumed. *)
Definition same_tables (c c' : pg_conn) : Prop :=
  db c' = db c /\ tx c' = tx c /\
  orders_id_seq c' = orders_id_seq c /\
  order_items_id_seq c' = order_items_id_seq c.

(** Two states of the products table that differ in stock only. *)
Definition same_catalog (t t' : gmap Z product) : Prop :=
  forall id,
    (fun p => (name p, price p, category_id p)) <$> t' !! id =
    (fun p => (name p, price p, category_id p)) <$> t !! id.

(** order_items.order_id REFERENCES orders(id) *)
Definition references_intact (d : database) : Prop :=
  forall oi, oi ∈ order_items d -> is_Some (orders d !! oi_order_id oi).

(** A request body that the schema must refuse. *)
Definition malformed (b : request_body) : Prop :=
  items b = [] \/
  (exists l, l ∈ items b /\ (quantity l <= 0 \/ productId l <= 0)) \/
  (String.length (shippingAddress b) < 10)%nat.

Definition unauthenticated (req : request) : Prop :=
  user req = None \/ user req = Some 0.

(** The answer of the early returns that precede the stock check. *)
Definition early_response (req : request) : response :=
  match createOrderSchema (body req) with
  | (_ :: _) as issues => res 400 (InvalidInput issues)
  | [] => res 401 (Message "Authentication required")
  end.

(** The stock check lets [item] through. *)
Definition in_stock (tbl : gmap Z product) (item : cart_line) : Prop :=
  exists p, tbl !! productId item = Some p /\ quantity item <= stock_quantity p.

(** [r] is the element of [orderItems] that the stock check builds for
    [item] from the products table [tbl]. *)
Definition reserves (tbl : gmap Z product) (item : cart_line) (r : reserved_line) : Prop :=
  exists p, tbl !! productId item = Some p /\
    quantity item <= stock_quantity p /\
    r = {| r_productId := productId item; r_quantity := quantity item;
           r_unitPrice := price p; r_availableStock := stock_quantity p |}.

(** ProductNotFound and InsufficientStock as the handler answers them. *)
Definition ProductNotFound (item : cart_line) : response :=
  res 404 (Message (not_found_message item)).

Definition InsufficientStock (p : product) (item : cart_line) : response :=
  res 400 (Message (insufficient_stock_message p item)).

(** The stock check of [item] against [tbl] fails and [early] is the answer. *)
Definition stock_failure (tbl : gmap Z product) (item : cart_line) (early : response) : Prop :=
  (tbl !! productId item = None /\ early = ProductNotFound item) \/
  (exists p, tbl !! productId item = Some p /\
     stock_quantity p < quantity item /\ early = InsufficientStock p item).

(** The order_items row written for an element of [orderItems]. *)
Definition row_of (order_id : Z) (l : reserved_line) (oi : order_item) : Prop :=
  oi_order_id oi = order_id /\ oi_product_id oi = r_productId l /\
  oi_unit_price oi = r_unitPrice l /\ oi_quantity oi = r_quantity l.


(** The rows of order_items that belong to an order. *)
Definition rows_of_order (d : database) (order_id : Z) : list order_item :=
  filter (fun oi => oi_order_id oi = order_id) (order_items d).



(** The listing as a fresh read of the durable products table gives it. *)
Definition listing_of
    (select_rows : gmap Z product -> option Z -> option string -> Z -> Z -> list (Z * product))
    (count_rows : gmap Z product -> option Z -> option string -> Z)
    (tbl : gmap Z product) (q : listing_query) : listing :=
  {| l_items := select_rows tbl (q_category q) (search_param q) (limit_of q) (offset_of q);
     l_page := page_of q; l_limit := limit_of q;
     l_total := count_rows tbl (q_category q) (search_param q) |}.

(** ** Sample data *)

Definition mug : product :=
  {| name := "Dev Mug"; price := 1299; stock_quantity := 5; category_id := Some 1 |}.

Definition book : product :=
  {| name := "Clean Code"; price := 2999; stock_quantity := 0; category_id := Some 3 |}.

Definition shop : database :=
  {| products := <[1 := mug]> (<[2 := book]> ∅); orders := ∅; order_items := [] |}.

Definition fresh_world (d : database) : world :=
  {| pg := {| db := d; tx := None; orders_id_seq := 1; order_items_id_seq := 1;
              pg_faults := [] |};
     redis := {| store := ∅; redis_faults := [] |};
     trace := [] |}.

Definition order_request (lines : list (Z * Z)) : request :=
  {| body := {| items := map (fun l => {| productId := l.1; quantity := l.2 |}) lines;
                shippingAddress := "123 Test Street, Test City" |};
     user := Some 7 |}.

(** The order that a cart of two mugs yields in the sample shop. *)
Definition mug_order : option complete_order :=
  Some {| co_id := 1; co_total_amount := 2598; co_status := pending;
          co_shipping_address := "123 Test Street, Test City";
          co_items := [{| li_id := 1; li_product_id := 1; li_product_name := "Dev Mug";
                          li_unit_price := 1299; li_quantity := 2;
                          li_subtotal := 2598 |}] |}.

(** Two products that share name and stock. *)
Definition twins : database :=
  {| products :=
       <[1 := {| name := "Mug"; price := 500; stock_quantity := 0; category_id := None |}]>
       (<[2 := {| name := "Mug"; price := 900; stock_quantity := 0; category_id := None |}]> ∅);
     orders := ∅; order_items := [] |}.

(** A stand-in for the listing statements: every row, whatever the filter. *)
Definition all_rows (tbl : gmap Z product) (category : option Z)
    (search : option string) (limit offset : Z) : list (Z * product) :=
  map_to_list tbl.

Definition count_all (tbl : gmap Z product) (category : option Z)
    (search : option string) : Z :=
  Z.of_nat (size tbl).

Definition default_query : listing_query :=
  {| q_page := None; q_limit := None; q_category := None; q_search := None |}.

(** The first page as the listing route caches it before any sale, and the
    world after that request with a Redis that rejects its next command. *)
Definition stale_listing : listing :=
  listing_of all_rows count_all (products shop) default_query.

Definition warm_world : world :=
  snd (products_get all_rows count_all default_query (fresh_world shop)).


(** The sample shop with Redis down for the next two commands. *)
Definition outage_world : world :=
  {| pg := pg (fresh_world shop);
     redis := {| store := ∅; redis_faults := [true; true] |};
     trace := [] |}.



(** ** Vocabulary of the further properties *)

(** What [CacheService.get] makes of an entry of the store: the listing
    that a JSON text denotes, nothing for a missing entry and for a text
    that JSON.parse rejects. *)
Definition parsed (entry : option cached) : option listing :=
  match entry with
  | Some (Json v) => Some v
  | _ => None
  end.

(** A run that leaves alone every cache entry whose key [keep] holds of. *)
Definition spares {A} (keep : string -> Prop) (m : M A) : Prop :=
  forall w r w' k, m w = (r, w') -> keep k ->
    store (redis w') !! k = store (redis w) !! k.

(** The listing request [q] with [?search=s]. *)
Definition searching (s : string) (q : listing_query) : listing_query :=
  {| q_page := q_page q; q_limit := q_limit q; q_category := q_category q;
     q_search := Some s |}.

(** The listing request [q] with [?category=c]. *)
Definition in_category (c : Z) (q : listing_query) : listing_query :=
  {| q_page := q_page q; q_limit := q_limit q; q_category := Some c;
     q_search := q_search q |}.

(** The world with the given fault flags for PostgreSQL and for Redis. *)
Definition with_faults (pgf redisf : list bool) (w : world) : world :=
  {| pg := with_pg_faults pgf (pg w);
     redis := {| store := store (redis w); redis_faults := redisf |};
     trace := trace w |}.

(** A stand-in for the listing statements that honours the search term:
    the rows whose name is the term. *)
Definition rows_named (tbl : gmap Z product) (category : option Z)
    (search : option string) (limit offset : Z) : list (Z * product) :=
  match search with
  | Some s => filter (fun r => name r.2 = s) (map_to_list tbl)
  | None => map_to_list tbl
  end.

Definition count_named (tbl : gmap Z product) (category : option Z)
    (search : option string) : Z :=
  Z.of_nat (length (rows_named tbl category search 0 0)).

(** The sample shop with a text that is not JSON under the key of the
    first page. *)
Definition garbled_world : world :=
  {| pg := pg (fresh_world shop);
     redis := {| store := {[ cacheKey default_query := Garbage "<html>" ]};
                 redis_faults := [] |};
     trace := [] |}.

(** What the listing route may send to PostgreSQL for the request [q]. *)
Definition listing_statement (q : listing_query) (e : event) : Prop :=
  match e with
  | Sql s _ =>
      s = CountListing (q_category q) (search_param q) \/
      exists limit offset,
        s = SelectListing (q_category q) (search_param q) limit offset /\
        1 <= limit <= 50 /\ 0 <= offset /\ offset = (page_of q - 1) * limit
  | _ => True
  end.

(** The sample shop on a connection that accepts the six statements up to
    the COMMIT of a one-line order and rejects the next one. *)
Definition lost_answer_world : world :=
  with_faults [false; false; false; false; false; false; true] [] (fresh_world shop).

(** order_items.product_id REFERENCES products(id) *)
Definition product_references_intact (d : database) : Prop :=
  forall oi, oi ∈ order_items d -> is_Some (products d !! oi_product_id oi).



(** ** app: the two cache endpoints *)

Inductive cache_health :=
  | Connected        (* { ok: true, service: "Redis Cache", status: "Connected" } *)
  | Disconnected     (* { ok: false, ..., status: "Disconnected" } *)
  | HealthError.     (* { ok: false, ..., status: "Error", error } *)

(** [app.get("/cache/healthz")]: the status and the body. *)
Definition cache_healthz : M (Z * cache_health) :=
  try_catch
    (let! isHealthy := CacheService.healthCheck in
     if isHealthy then ret (200, Connected) else ret (503, Disconnected))
    (fun _ =>
       do! log (ConsoleError "cache healthz failed:") in ret (503, HealthError)).

(** [app.get("/cache/stats")]: the status and, with [ok: true], the stats. *)
Definition cache_stats_endpoint : M (Z * option cache_stats) :=
  try_catch
    (let! stats := CacheService.getStats in ret (200, Some stats))
    (fun _ => do! log (ConsoleError "cache stats failed:") in ret (500, None)).

(** ** The pool, the users table and the handlers that go through them

    The other handlers send their statements through the pool
    ([pool.query]): each statement runs on a connection of its own and
    commits at once.  They work on the durable tables; what they write
    reaches the durable tables and, the server reading committed rows,
    the view of a transaction that the order connection may have open
    (row locks are left to the section on concurrent orders).  The users
    table, which the order controller never reads, is kept beside the
    [world]; so is a journal of the statements these handlers send, of
    their console.error lines and of what the cache service traces for
    them.

    As for the order connection, a fault flag stands for whatever makes
    the server reject a statement and the tables of the model do not
    show: a lost connection, a parameter that does not fit its column
    (a number beyond INTEGER, a text longer than its VARCHAR), a
    function that the server does not know. *)

(** A row of users. *)
Record account := {
  email : string;             (* VARCHAR(255) UNIQUE NOT NULL *)
  password_hash : string;
  first_name : string;
  last_name : string;
  role : string               (* VARCHAR(20) NOT NULL DEFAULT 'customer' *)
}.

(** [req.user]: what a verified token carries. *)
Record auth_user := {
  u_id : Z;
  u_email : string;
  u_role : string
}.

Inductive pool_statement :=
  | SelectUserOrders (user_id : Z)
  | SelectOrderDetails (order_id user_id : Z)
  | UpdateOrderStatus (status : order_status) (order_id : Z)
  | SelectAllOrders
  | SelectProductName (id : Z)
  | CountOrderItems (product_id : Z)
  | DeleteProduct (id : Z)
  | InsertUser (email password_hash first_name last_name : string)
  | SelectUserByEmail (email : string).

Inductive failure :=
  | Rejected (s : pool_statement)              (* the statement was rejected *)
  | UniqueViolation (s : pool_statement)       (* error.code 23505 *)
  | ForeignKeyViolation (s : pool_statement)   (* error.code 23503 *)
  | JwtSecretNotSet                            (* Error("JWT_SECRET not set") *)
  | Inner_error (e : error).

Inductive outcome (A : Type) :=
  | Done (a : A)
  | Failed (e : failure).
Arguments Done {A} a.
Arguments Failed {A} e.

Inductive site_event :=
  | Query (s : pool_statement) (ok : bool)
  | Console (label : string)
  | Inner (e : event).

Record site := {
  world_of : world;
  users : gmap Z account;
  users_id_seq : Z;
  journal : list site_event     (* oldest first *)
}.

Definition Handler (A : Type) : Type := site -> outcome A * site.

Definition site_ret {A} (a : A) : Handler A := fun s => (Done a, s).

Definition site_bind {A B} (m : Handler A) (k : A -> Handler B) : Handler B := fun s =>
  match m s with
  | (Done a, s') => k a s'
  | (Failed e, s') => (Failed e, s')
  end.

Definition site_throw {A} (e : failure) : Handler A := fun s => (Failed e, s).

(** [try { m } catch (error) { h error }] *)
Definition site_try {A} (m : Handler A) (h : failure -> Handler A) : Handler A := fun s =>
  match m s with
  | (Done a, s') => (Done a, s')
  | (Failed e, s') => h e s'
  end.

Declare Scope site_scope.
Delimit Scope site_scope with site.
Notation "'let*' x ':=' m 'in' k" := (site_bind m (fun x => k))
  (at level 10, x name, m at level 100, k at level 200) : site_scope.
Notation "'do*' m 'in' k" := (site_bind m (fun _ => k))
  (at level 10, m at level 100, k at level 200) : site_scope.
Local Open Scope site_scope.

Definition with_world (w : world) (s : site) : site :=
  {| world_of := w; users := users s; users_id_seq := users_id_seq s;
     journal := journal s |}.

Definition journaled (evs : list site_event) (s : site) : site :=
  {| world_of := world_of s; users := users s; users_id_seq := users_id_seq s;
     journal := journal s ++ evs |}.

(** [console.error(label, error)] *)
Definition console (label : string) : Handler unit := fun s =>
  (Done tt, journaled [Console label] s).

(** A call into the order controller or the cache service. *)
Definition lift {A} (m : M A) : Handler A := fun s =>
  let '(r, w') := m (world_of s) in
  (match r with
   | Ok a => Done a
   | Throw e => Failed (Inner_error e)
   end,
   journaled (Inner <$> new_events (world_of s) w') (with_world w' s)).

(** The durable tables, which a statement through the pool works on. *)
Definition tables (s : site) : database := durable (pg (world_of s)).

(** A committed write [f] to the tables of the order controller. *)
Definition write_tables (f : database -> database) (s : site) : site :=
  with_world
    {| pg := {| db := f (db (pg (world_of s))); tx := f <$> tx (pg (world_of s));
                orders_id_seq := orders_id_seq (pg (world_of s));
                order_items_id_seq := order_items_id_seq (pg (world_of s));
                pg_faults := pg_faults (pg (world_of s)) |};
       redis := redis (world_of s); trace := trace (world_of s) |} s.

Definition next_statement (fs : list bool) (s : site) : site :=
  with_world
    {| pg := with_pg_faults fs (pg (world_of s)); redis := redis (world_of s);
       trace := trace (world_of s) |} s.

(** [await pool.query(q)]: journaled, rejected when the next fault flag of
    PostgreSQL is set, and otherwise run by [exec], which may itself
    reject the statement on a constraint. *)
Definition query {A} (q : pool_statement) (exec : site -> outcome A * site)
    : Handler A := fun s =>
  match pg_faults (pg (world_of s)) with
  | true :: fs => (Failed (Rejected q), journaled [Query q false] (next_statement fs s))
  | fs =>
      match exec (next_statement (tail fs) s) with
      | (Done a, s') => (Done a, journaled [Query q true] s')
      | (Failed e, s') => (Failed e, journaled [Query q false] s')
      end
  end.

(** A statement that only reads. *)
Definition reading {A} (read : site -> A) (s : site) : outcome A * site :=
  (Done (read s), s).

(** *** What the handlers answer *)

(** A row of the order lists: the order and COUNT(oi.id). *)
Record order_summary := {
  os_id : Z;
  os_total_amount : Z;
  os_status : order_status;
  os_shipping_address : string;
  os_item_count : Z
}.

(** A row of the list of all orders: joined with the user who placed it. *)
Record admin_order_summary := {
  ao_order : order_summary;
  ao_user_email : string;
  ao_first_name : string;
  ao_last_name : string
}.

Inductive reply_body :=
  | Msg (message : string)                     (* { message } *)
  | InvalidBody                                (* { message: "Invalid input" } *)
  | InvalidStatus                              (* { message: "Invalid input", errors } *)
  | OrderList (orders : list order_summary)    (* { orders } *)
  | AllOrders (orders : list admin_order_summary)
  | OrderDetails (order : complete_order)      (* { order } *)
  | StatusUpdated (id : Z) (status : order_status)
      (* { message: "Order status updated successfully", order: { id, status } } *)
  | ProductDeleted (id : Z) (name : string)
      (* { message: "Product deleted successfully", deletedProduct } *)
  | Session (user : auth_user) (token : string).   (* { user, token } *)

Record reply := {
  reply_status : Z;
  reply_json : reply_body
}.

Definition answer (st : Z) (b : reply_body) : reply :=
  {| reply_status := st; reply_json := b |}.

(** *** controllers/ordersController: the other handlers *)

(** [!userId], for [userId = req.user?.id]. *)
Definition no_user_id (user : option auth_user) : bool :=
  match user with
  | None => true
  | Some u => u_id u =? 0
  end.

(** [req.user?.role !== 'admin'] *)
Definition not_admin (user : option auth_user) : bool :=
  match user with
  | None => true
  | Some u => negb (String.eqb (u_role u) "admin")
  end.

Definition summary_of (d : database) (row : Z * order) : order_summary :=
  {| os_id := row.1; os_total_amount := total_amount row.2; os_status := status row.2;
     os_shipping_address := shipping_address row.2;
     os_item_count := Z.of_nat (length (rows_of_order d row.1)) |}.

(** [updateOrderStatusSchema.safeParse(req.body)]: the status named by
    the body, when it is one of the five. *)
Definition updateOrderStatusSchema (status : option string) : option order_status :=
  match status with
  | Some "pending" => Some pending
  | Some "confirmed" => Some confirmed
  | Some "shipped" => Some shipped
  | Some "delivered" => Some delivered
  | Some "cancelled" => Some cancelled
  | _ => None
  end.

Definition with_status (st : order_status) (o : order) : order :=
  {| user_id := user_id o; total_amount := total_amount o; status := st;
     shipping_address := shipping_address o |}.

(** ... FROM orders o JOIN order_items oi ... JOIN products p ...
    WHERE o.id = $1 AND o.user_id = $2 GROUP BY o.id, ...: the order with
    its lines when it is the user's and has a line.  As in the read-back
    of [createOrder], the lines are gathered by json_agg, [json_build]
    being read as the constructor of a JSON object; the two columns of
    products that the tables of the model leave out (description,
    image_url) are left out of the lines. *)
Definition exec_select_order_details (oid uid : Z) (s : site)
    : outcome (option complete_order) * site :=
  match orders (tables s) !! oid, joined_lines (tables s) oid with
  | Some o, (_ :: _) as lines =>
      if user_id o =? uid then
        (Done (Some {| co_id := oid; co_total_amount := total_amount o;
                       co_status := status o;
                       co_shipping_address := shipping_address o;
                       co_items := lines |}), s)
      else (Done None, s)
  | _, _ => (Done None, s)
  end.

(** UPDATE orders SET status = $1 WHERE id = $2 RETURNING id, status, updated_at *)
Definition exec_update_order_status (st : order_status) (oid : Z) (s : site)
    : outcome (option (Z * order_status)) * site :=
  match orders (tables s) !! oid with
  | Some _ =>
      (Done (Some (oid, st)),
       write_tables
         (fun d => {| products := products d;
                      orders := alter (with_status st) oid (orders d);
                      order_items := order_items d |}) s)
  | None => (Done None, s)
  end.

Section Orders.

(** ORDER BY o.created_at DESC: the tables of the model keep no
    created_at; the order in which the server returns the rows is left
    open. *)
Variable newest_first : list (Z * order) -> list (Z * order).

(** ... FROM orders o LEFT JOIN order_items oi ON o.id = oi.order_id
    WHERE o.user_id = $1 GROUP BY o.id, ... ORDER BY o.created_at DESC *)
Definition select_user_orders (uid : Z) (s : site) : list order_summary :=
  summary_of (tables s) <$>
    newest_first (filter (fun row => user_id row.2 = uid) (map_to_list (orders (tables s)))).

(** ... FROM orders o JOIN users u ON o.user_id = u.id LEFT JOIN order_items oi ...
    ORDER BY o.created_at DESC *)
Definition select_all_orders (s : site) : list admin_order_summary :=
  omap (fun row =>
          match users s !! user_id row.2 with
          | Some u =>
              Some {| ao_order := summary_of (tables s) row; ao_user_email := email u;
                      ao_first_name := first_name u; ao_last_name := last_name u |}
          | None => None
          end)
       (newest_first (map_to_list (orders (tables s)))).

Definition getUserOrders (user : option auth_user) : Handler reply :=
  site_try
    (match user with
     | Some u =>
         if u_id u =? 0 then site_ret (answer 401 (Msg "Authentication required"))
         else
           let* rows :=
             query (SelectUserOrders (u_id u)) (reading (select_user_orders (u_id u))) in
           site_ret (answer 200 (OrderList rows))
     | None => site_ret (answer 401 (Msg "Authentication required"))
     end)
    (fun _ =>
       do* console "getUserOrders failed:" in
       site_ret (answer 500 (Msg "Failed to fetch orders"))).

(** [orderId] is [parseInt(req.params.orderId)], [None] when it is NaN. *)
Definition getOrderDetails (user : option auth_user) (orderId : option Z)
    : Handler reply :=
  site_try
    (if no_user_id user then site_ret (answer 401 (Msg "Authentication required"))
     else
       match user, orderId with
       | Some u, Some oid =>
           let* row :=
             query (SelectOrderDetails oid (u_id u))
               (exec_select_order_details oid (u_id u)) in
           match row with
           | None => site_ret (answer 404 (Msg "Order not found"))
           | Some order => site_ret (answer 200 (OrderDetails order))
           end
       | _, _ => site_ret (answer 400 (Msg "Invalid order ID"))
       end)
    (fun _ =>
       do* console "getOrderDetails failed:" in
       site_ret (answer 500 (Msg "Failed to fetch order details"))).

(** [status] is the field of that name of the body, when it is a string. *)
Definition updateOrderStatus (user : option auth_user) (orderId : option Z)
    (status : option string) : Handler reply :=
  site_try
    (if no_user_id user then site_ret (answer 401 (Msg "Authentication required"))
     else if not_admin user then site_ret (answer 403 (Msg "Admin access required"))
     else
       match orderId with
       | None => site_ret (answer 400 (Msg "Invalid order ID"))
       | Some oid =>
           match updateOrderStatusSchema status with
           | None => site_ret (answer 400 InvalidStatus)
           | Some st =>
               let* row :=
                 query (UpdateOrderStatus st oid) (exec_update_order_status st oid) in
               match row with
               | None => site_ret (answer 404 (Msg "Order not found"))
               | Some (id, st') => site_ret (answer 200 (StatusUpdated id st'))
               end
           end
       end)
    (fun _ =>
       do* console "updateOrderStatus failed:" in
       site_ret (answer 500 (Msg "Failed to update order status"))).

Definition getAllOrders (user : option auth_user) : Handler reply :=
  site_try
    (if not_admin user then site_ret (answer 403 (Msg "Admin access required"))
     else
       let* rows := query SelectAllOrders (reading select_all_orders) in
       site_ret (answer 200 (AllOrders rows)))
    (fun _ =>
       do* console "getAllOrders failed:" in
       site_ret (answer 500 (Msg "Failed to fetch orders"))).

End Orders.

(** *** controllers/adminController: deleteProduct *)

Definition cannot_delete_message (name : string) (orderCount : Z) : string :=
  "Cannot delete product '" +:+ name +:+ "' - it has " +:+ pretty orderCount +:+
  " associated order(s). Consider setting stock to 0 instead.".

(** SELECT COUNT( * ) FROM order_items WHERE product_id = $1 *)
Definition count_order_items (pid : Z) (s : site) : Z :=
  Z.of_nat (length (filter (fun oi => oi_product_id oi = pid) (order_items (tables s)))).

(** DELETE FROM products WHERE id = $1, under
    order_items.product_id REFERENCES products(id) ON DELETE RESTRICT. *)
Definition exec_delete_product (pid : Z) (s : site) : outcome unit * site :=
  if existsb (fun oi => oi_product_id oi =? pid) (order_items (tables s)) then
    (Failed (ForeignKeyViolation (DeleteProduct pid)), s)
  else
    (Done tt,
     write_tables
       (fun d => {| products := delete pid (products d); orders := orders d;
                    order_items := order_items d |}) s).

(** [productId] is [parseInt(req.params.productId)], [None] when it is
    NaN.  The controller has its own [invalidateProductCache], which is
    the one of the order controller but for the line it prints with
    console.log, which the trace does not keep. *)
Definition deleteProduct (productId : option Z) : Handler reply :=
  site_try
    (match productId with
     | None => site_ret (answer 400 (Msg "Invalid product ID"))
     | Some pid =>
         let* existingProduct :=
           query (SelectProductName pid)
             (reading (fun s => name <$> products (tables s) !! pid)) in
         match existingProduct with
         | None => site_ret (answer 404 (Msg "Product not found"))
         | Some product_name =>
             let* orderCount :=
               query (CountOrderItems pid) (reading (count_order_items pid)) in
             if 0 <? orderCount then
               site_ret (answer 400 (Msg (cannot_delete_message product_name orderCount)))
             else
               do* query (DeleteProduct pid) (exec_delete_product pid) in
               do* lift invalidateProductCache in
               site_ret (answer 200 (ProductDeleted pid product_name))
         end
     end)
    (fun _ =>
       do* console "deleteProduct failed:" in
       site_ret (answer 500 (Msg "Failed to delete product"))).

(** *** middleware/auth and controllers/authController *)

(** [s.split(' ')] *)
Fixpoint split_on_space (s : string) : list string :=
  match s with
  | EmptyString => [EmptyString]
  | String c s' =>
      if Ascii.eqb c " "%char then EmptyString :: split_on_space s'
      else
        match split_on_space s' with
        | piece :: rest => String c piece :: rest
        | [] => [String c EmptyString]
        end
  end.

(** [authHeader?.split(' ')[1]] *)
Definition bearer_token (authorization : option string) : option string :=
  match authorization with
  | Some authHeader => split_on_space authHeader !! 1%nat
  | None => None
  end.

Record register_body := {
  rg_email : option string;       (* None: absent, or not a string *)
  rg_password : option string;
  rg_firstName : option string;
  rg_lastName : option string
}.

Record login_body := {
  lg_email : option string;
  lg_password : option string
}.

(** SELECT id, email, password_hash, role FROM users WHERE email = $1,
    and [rows[0]] of it. *)
Definition user_by_email (e : string) (s : site) : option (Z * account) :=
  head (filter (fun row => email row.2 = e) (map_to_list (users s))).

(** INSERT INTO users (email, password_hash, first_name, last_name)
    VALUES ($1, $2, $3, $4) RETURNING id, email, role: the id comes from
    the SERIAL sequence, the role is the column's default; the primary
    key and UNIQUE (email) refuse the row with error code 23505. *)
Definition exec_insert_user (e hash first last : string) (s : site)
    : outcome auth_user * site :=
  let id := users_id_seq s in
  let taken :=
    bool_decide (is_Some (users s !! id)) ||
    bool_decide (is_Some (user_by_email e s)) in
  let row := {| email := e; password_hash := hash; first_name := first;
                last_name := last; role := "customer" |} in
  (if taken then Failed (UniqueViolation (InsertUser e hash first last))
   else Done {| u_id := id; u_email := e; u_role := "customer" |},
   {| world_of := world_of s;
      users := if taken then users s else <[id := row]> (users s);
      users_id_seq := id + 1; journal := journal s |}).

Section Accounts.

(** The environment and the libraries: [process.env.JWT_SECRET],
    jsonwebtoken's [verify] and [sign] under a secret, bcrypt's [hash]
    (at cost 10) and [compare], and zod's test of an e-mail address. *)
Variable JWT_SECRET : option string.
Variable jwt_verify : string -> string -> option auth_user.
Variable jwt_sign : string -> auth_user -> string.
Variable bcrypt_hash : string -> string.
Variable bcrypt_compare : string -> string -> bool.
Variable is_email : string -> bool.

(** [jwt.verify(token, process.env.JWT_SECRET, callback)]: without a
    secret the callback gets an error. *)
Definition verified (token : string) : option auth_user :=
  match JWT_SECRET with
  | Some secret => jwt_verify secret token
  | None => None
  end.

(** The middleware either answers or calls [next()] with [req.user] set. *)
Definition authenticateToken (authorization : option string) : reply + auth_user :=
  match bearer_token authorization with
  | None | Some EmptyString => inl (answer 401 (Msg "Access token required"))
  | Some token =>
      match verified token with
      | None => inl (answer 403 (Msg "Invalid token"))
      | Some user => inr user
      end
  end.

Definition requireAdmin (user : auth_user) : option reply :=
  if String.eqb (u_role user) "admin" then None
  else Some (answer 403 (Msg "Admin access required")).

(** [router.use(authenticateToken)] in front of a handler. *)
Definition behind_token {A} (authorization : option string)
    (handler : auth_user -> Handler A) : Handler (reply + A) :=
  match authenticateToken authorization with
  | inl refused => site_ret (inl refused)
  | inr user => let* a := handler user in site_ret (inr a)
  end.

(** [router.use(authenticateToken); router.use(requireAdmin)] in front of
    a handler. *)
Definition behind_admin {A} (authorization : option string)
    (handler : auth_user -> Handler A) : Handler (reply + A) :=
  match authenticateToken authorization with
  | inl refused => site_ret (inl refused)
  | inr user =>
      match requireAdmin user with
      | Some refused => site_ret (inl refused)
      | None => let* a := handler user in site_ret (inr a)
      end
  end.

Definition requireJwtSecret : Handler string :=
  match JWT_SECRET with
  | None | Some EmptyString => site_throw JwtSecretNotSet
  | Some secret => site_ret secret
  end.

Definition registerSchema (b : register_body)
    : option (string * string * string * string) :=
  match rg_email b, rg_password b, rg_firstName b, rg_lastName b with
  | Some e, Some password, Some firstName, Some lastName =>
      if is_email e && (8 <=? String.length password)%nat &&
         (1 <=? String.length firstName)%nat && (1 <=? String.length lastName)%nat
      then Some (e, password, firstName, lastName)
      else None
  | _, _, _, _ => None
  end.

Definition loginSchema (b : login_body) : option (string * string) :=
  match lg_email b, lg_password b with
  | Some e, Some password => if is_email e then Some (e, password) else None
  | _, _ => None
  end.

Definition register (b : register_body) : Handler reply :=
  site_try
    (match registerSchema b with
     | None => site_ret (answer 400 InvalidBody)
     | Some (e, password, firstName, lastName) =>
         let hash := bcrypt_hash password in
         let* user :=
           query (InsertUser e hash firstName lastName)
             (exec_insert_user e hash firstName lastName) in
         let* secret := requireJwtSecret in
         site_ret (answer 201 (Session user (jwt_sign secret user)))
     end)
    (fun e =>
       match e with
       | UniqueViolation _ => site_ret (answer 409 (Msg "Email exists"))
       | _ =>
           do* console "register failed:" in
           site_ret (answer 500 (Msg "Registration failed"))
       end).

Definition login (b : login_body) : Handler reply :=
  site_try
    (match loginSchema b with
     | None => site_ret (answer 400 InvalidBody)
     | Some (e, password) =>
         let* row := query (SelectUserByEmail e) (reading (user_by_email e)) in
         match row with
         | None => site_ret (answer 401 (Msg "Invalid credentials"))
         | Some (id, user) =>
             if bcrypt_compare password (password_hash user) then
               let payload := {| u_id := id; u_email := email user;
                                 u_role := role user |} in
               let* secret := requireJwtSecret in
               site_ret (answer 200 (Session payload (jwt_sign secret payload)))
             else site_ret (answer 401 (Msg "Invalid credentials"))
         end
     end)
    (fun _ =>
       do* console "login failed:" in
       site_ret (answer 500 (Msg "Login failed"))).

(** *** routes/orders and routes/admin *)

Inductive orders_route :=
  | POST_orders (body : request_body)                     (* POST / *)
  | GET_my_orders                                         (* GET /my-orders *)
  | GET_order (orderId : option Z)                        (* GET /:orderId *)
  | GET_admin_all                                         (* GET /admin/all *)
  | PATCH_admin_status (orderId : option Z) (status : option string).
      (* PATCH /admin/:orderId/status *)

(** What a route of the orders router is answered with: the [response]
    of [createOrder] or the [reply] of another handler. *)
Inductive served :=
  | Created (r : response)
  | Replied (r : reply).

Variable newest_first : list (Z * order) -> list (Z * order).

Definition orders_router (b : build) (authorization : option string)
    (route : orders_route) : Handler (reply + served) :=
  behind_token authorization (fun user =>
    match route with
    | POST_orders body =>
        let* r := lift (createOrder b {| body := body; user := Some (u_id user) |}) in
        site_ret (Created r)
    | GET_my_orders =>
        let* r := getUserOrders newest_first (Some user) in site_ret (Replied r)
    | GET_order orderId =>
        let* r := getOrderDetails (Some user) orderId in site_ret (Replied r)
    | GET_admin_all =>
        let* r := getAllOrders newest_first (Some user) in site_ret (Replied r)
    | PATCH_admin_status orderId status =>
        let* r := updateOrderStatus (Some user) orderId status in site_ret (Replied r)
    end).

(** DELETE /products/:productId of the admin router. *)
Definition admin_delete_product (authorization : option string)
    (productId : option Z) : Handler (reply + reply) :=
  behind_admin authorization (fun _ => deleteProduct productId).

End Accounts.

(** ** Vocabulary and sample data of the site *)

Definition spaceless (s : string) : bool :=
  forallb (fun c => negb (Ascii.eqb c " "%char)) (list_ascii_of_string s).

(** What a handler leaves alone when it only reads. *)
Definition same_site (s s' : site) : Prop :=
  tables s' = tables s /\ users s' = users s /\ users_id_seq s' = users_id_seq s /\
  redis (world_of s') = redis (world_of s) /\ trace (world_of s') = trace (world_of s).

Definition fresh_site (d : database) : site :=
  {| world_of := fresh_world d; users := ∅; users_id_seq := 1; journal := [] |}.

Definition alice : auth_user := {| u_id := 7; u_email := "alice@example.com"; u_role := "customer" |}.
Definition root : auth_user := {| u_id := 1; u_email := "root@example.com"; u_role := "admin" |}.

Definition alice_account : account :=
  {| email := "alice@example.com"; password_hash := "$2b$10$wonderland";
     first_name := "Alice"; last_name := "Liddell"; role := "customer" |}.

Definition root_account : account :=
  {| email := "root@example.com"; password_hash := "$2b$10$toor";
     first_name := "Ada"; last_name := "Root"; role := "admin" |}.

(** The sample shop after alice has ordered two mugs. *)
Definition after_order : site :=
  {| world_of := snd (createOrder compiled (order_request [(1, 2)]) (fresh_world shop));
     users := {[ 1 := root_account; 7 := alice_account ]};
     users_id_seq := 8; journal := [] |}.

(** UNIQUE (email) of users. *)
Definition emails_unique (m : gmap Z account) : Prop :=
  forall i j a b, m !! i = Some a -> m !! j = Some b -> email a = email b -> i = j.

(** Stand-ins for the libraries in the examples: a token is the secret,
    a dot and the user's id; one such token is known to [toy_verify]. *)
Definition toy_sign (secret : string) (u : auth_user) : string :=
  secret +:+ "." +:+ pretty (u_id u).

Definition toy_verify (secret token : string) : option auth_user :=
  if String.eqb token (secret +:+ ".1") then
    Some {| u_id := 1; u_email := "carol@example.com"; u_role := "customer" |}
  else None.

Definition toy_hash (password : string) : string := "$2b$10$" +:+ password.

Definition toy_compare (password hash : string) : bool :=
  String.eqb hash ("$2b$10$" +:+ password).

Definition toy_is_email (s : string) : bool :=
  existsb (Ascii.eqb "@"%char) (list_ascii_of_string s).

Definition carol_registers : register_body :=
  {| rg_email := Some "carol@example.com"; rg_password := Some "correct horse";
     rg_firstName := Some "Carol"; rg_lastName := Some "Danvers" |}.

Definition carol_logs_in : login_body :=
  {| lg_email := Some "carol@example.com"; lg_password := Some "correct horse" |}.

(** * Properties *)

(** ** The model at work *)

Example place_two_mugs :
  let run := createOrder compiled (order_request [(1, 2)]) (fresh_world shop) in
  fst run = Ok (res 201 (OrderCreated mug_order)) /\
  stock_quantity <$> products (db (pg (snd run))) !! 1 = Some 3 /\
  trace (snd run) =
    [Sql BEGIN true; Sql (SelectProduct 1) true;
     Sql (InsertOrder 7 2598 "123 Test Street, Test City") true;
     Sql (InsertOrderItem 1 1 1299 2) true; Sql (UpdateStock 2 1) true;
     Sql COMMIT true; Redis (KEYS "products:*") true;
     Sql (SelectCompleteOrder 1) true; Release].
Proof. vm_compute. repeat split; reflexivity. Qed.

(** The same product on two lines: each line passes the stock check
    against the 5 in stock, the second UPDATE breaks the CHECK and the
    whole order is rolled back. *)
Example same_product_twice :
  let run := createOrder compiled (order_request [(1, 3); (1, 3)]) (fresh_world shop) in
  fst run = Ok (res 500 CreateFailed) /\
  db (pg (snd run)) = shop /\
  trace (snd run) =
    [Sql BEGIN true; Sql (SelectProduct 1) true; Sql (SelectProduct 1) true;
     Sql (InsertOrder 7 7794 "123 Test Street, Test City") true;
     Sql (InsertOrderItem 1 1 1299 3) true; Sql (UpdateStock 3 1) true;
     Sql (InsertOrderItem 1 1 1299 3) true; Sql (UpdateStock 3 1) false;
     Sql ROLLBACK true; ConsoleError "createOrder failed:"; Release].
Proof. vm_compute. repeat split; reflexivity. Qed.

Example unknown_product :
  fst (createOrder compiled (order_request [(9, 1)]) (fresh_world shop)) =
    Ok (res 404 (Message "Product with ID 9 not found")).
Proof. vm_compute. reflexivity. Qed.

(** The TypeScript controller rethrows what the compiled one answers
    with 500. *)
Example source_rethrows :
  fst (createOrder source (order_request [(1, 3); (1, 3)]) (fresh_world shop)) =
    Throw (CheckViolation (UpdateStock 3 1)).
Proof. vm_compute. reflexivity. Qed.

Example first_page_key : cacheKey default_query = "products:1:12:all:none".
Proof. vm_compute. reflexivity. Qed.

Example glob_examples :
  glob "products:*" "products:2:12:all:mug" = true /\
  glob "products:*" "categories:all" = false /\
  glob "p?oducts:*:all:*" "products:1:12:all:none" = true.
Proof. repeat split; reflexivity. Qed.

Lemma db_only_appends {A} (m : M A) : db_only m -> appends m.
Proof.
  intros H w r w' E. destruct (H w r w' E) as (_ & evs & Ht & _). eauto.
Qed.

Lemma appends_ret {A} (a : A) : appends (ret a).
Proof. intros w r w' [= <- <-]. exists []. by rewrite app_nil_r. Qed.



Lemma appends_bind {A B} (m : M A) (k : A -> M B) :
  appends m -> (forall a, appends (k a)) -> appends (bind m k).
Proof.
  intros Hm Hk w r w' E. unfold bind in E.
  destruct (m w) as [[a|e] w1] eqn:E1.
  - destruct (Hm _ _ _ E1) as [e1 H1]. destruct (Hk a _ _ _ E) as [e2 H2].
    exists (e1 ++ e2). by rewrite H2, H1, app_assoc.
  - injection E as <- <-. eauto.
Qed.



Lemma db_only_ret {A} (a : A) : db_only (ret a).
Proof.
  intros w r w' [= <- <-]. split; [done|]. exists []. by rewrite app_nil_r.
Qed.

Lemma db_only_throw {A} e : db_only (@throw A e).
Proof.
  intros w r w' [= <- <-]. split; [done|]. exists []. by rewrite app_nil_r.
Qed.

Lemma db_only_bind {A B} (m : M A) (k : A -> M B) :
  db_only m -> (forall a, db_only (k a)) -> db_only (bind m k).
Proof.
  intros Hm Hk w r w' E. unfold bind in E.
  destruct (m w) as [[a|e] w1] eqn:E1.
  - destruct (Hm _ _ _ E1) as (R1 & e1 & H1 & F1).
    destruct (Hk a _ _ _ E) as (R2 & e2 & H2 & F2).
    split; [congruence|]. exists (e1 ++ e2).
    split; [by rewrite H2, H1, app_assoc | by apply Forall_app].
  - injection E as <- <-. eauto.
Qed.


Lemma db_only_client_query {A} s (exec : pg_conn -> result A * pg_conn) :
  db_only (client_query s exec).
Proof.
  intros w r w' E. unfold client_query in E.
  destruct (pg_faults (pg w)) as [|[] fs].
  - destruct (exec _) as [[a|e] c]; injection E as <- <-;
      (split; [done|]); eexists; (split; [done|]); by repeat constructor.
  - injection E as <- <-.
    split; [done|]. eexists. split; [done|]. by repeat constructor.
  - destruct (exec _) as [[a|e] c]; injection E as <- <-;
      (split; [done|]); eexists; (split; [done|]); by repeat constructor.
Qed.

Lemma db_only_log e : is_redis e = false -> db_only (log e).
Proof.
  intros He w r w' [= <- <-]. split; [done|]. eexists. split; [done|].
  by repeat constructor.
Qed.

Lemma db_only_check_items its total acc : db_only (check_items its total acc).
Proof.
  revert total acc. induction its as [|item rest IH]; intros total acc; simpl.
  - apply db_only_ret.
  - apply db_only_bind; [apply db_only_client_query|].
    intros [p|].
    + destruct (stock_quantity p <? quantity item); [|apply IH].
      apply db_only_bind; [apply db_only_client_query|]. intros _. apply db_only_ret.
    + apply db_only_bind; [apply db_only_client_query|]. intros _. apply db_only_ret.
Qed.

Lemma db_only_write_items oid lines : db_only (write_items oid lines).
Proof.
  induction lines as [|l rest IH]; simpl.
  - apply db_only_ret.
  - apply db_only_bind; [apply db_only_client_query|]. intros _.
    apply db_only_bind; [apply db_only_client_query|]. by intros _.
Qed.

Lemma db_only_read_back b oid : db_only (read_back b oid).
Proof.
  destruct b; simpl.
  - apply db_only_client_query.
  - apply db_only_bind; [apply db_only_client_query|]. intros o.
    apply db_only_bind; [apply db_only_client_query|]. intros l. apply db_only_ret.
Qed.

Lemma db_only_createOrder_catch b e : db_only (createOrder_catch b e).
Proof.
  unfold createOrder_catch.
  apply db_only_bind; [apply db_only_client_query|]. intros _.
  apply db_only_bind; [by apply db_only_log|]. intros _.
  destruct b; [apply db_only_ret | apply db_only_throw].
Qed.

(** ** The cache service *)

Ltac cache_op :=
  let w := fresh "w" in
  intros w;
  unfold CacheService.get, CacheService.set, CacheService.del,
    CacheService.delMultiple, CacheService.delByPattern, CacheService.exists_,
    CacheService.getTTL, CacheService.setTTL, CacheService.clearAll,
    CacheService.getStats, CacheService.healthCheck, CacheService.close,
    try_catch, bind, redis_call, log, ret;
  repeat (simpl;
          match goal with
          | |- context [match redis_faults ?r with _ => _ end] =>
              destruct (redis_faults r) as [|[] ?]
          | |- context [match redis_keys ?p ?s with _ => _ end] =>
              destruct (redis_keys p s)
          | |- context [match ?s !! ?k with _ => _ end] =>
              destruct (s !! k)
          | |- context [match ?x with _ => _ end] => is_var x; destruct x
          end);
  simpl; do 2 eexists; (split; [reflexivity|]); (split; [reflexivity|]);
  simpl; rewrite <- ?app_assoc; first [by eauto | by exists []; rewrite app_nil_r].

Lemma cache_only_get key : cache_only (CacheService.get key).
Proof. cache_op. Qed.

Lemma cache_only_set key value ttl : cache_only (CacheService.set key value ttl).
Proof. cache_op. Qed.

Lemma cache_only_del key : cache_only (CacheService.del key).
Proof. cache_op. Qed.

Lemma cache_only_delMultiple keys : cache_only (CacheService.delMultiple keys).
Proof. destruct keys; cache_op. Qed.

Lemma cache_only_delByPattern pattern : cache_only (CacheService.delByPattern pattern).
Proof. cache_op. Qed.

Lemma cache_only_exists key : cache_only (CacheService.exists_ key).
Proof. cache_op. Qed.

Lemma cache_only_getTTL key : cache_only (CacheService.getTTL key).
Proof. cache_op. Qed.

Lemma cache_only_setTTL key ttl : cache_only (CacheService.setTTL key ttl).
Proof. cache_op. Qed.

Lemma cache_only_clearAll : cache_only CacheService.clearAll.
Proof. cache_op. Qed.

Lemma cache_only_getStats : cache_only CacheService.getStats.
Proof. cache_op. Qed.

Lemma cache_only_healthCheck : cache_only CacheService.healthCheck.
Proof. cache_op. Qed.

Lemma cache_only_close : cache_only CacheService.close.
Proof. cache_op. Qed.

Lemma cache_only_invalidateProductCache : cache_only invalidateProductCache.
Proof.
  intros w. unfold invalidateProductCache, try_catch.
  destruct (cache_only_delByPattern "products:*" w) as (a & w' & E & Hpg & Ht).
  rewrite E. eauto.
Qed.

Lemma get_rejected key w fs :
  redis_faults (redis w) = true :: fs ->
  exists w', CacheService.get key w = (Ok None, w') /\ pg w' = pg w /\
    store (redis w') = store (redis w).
Proof.
  intros H. unfold CacheService.get, try_catch, bind, redis_call, log, ret.
  rewrite H. simpl. eauto.
Qed.

Lemma get_garbage key w text :
  store (redis w) !! key = Some (Garbage text) ->
  exists w', CacheService.get key w = (Ok None, w').
Proof.
  intros H. unfold CacheService.get, try_catch, bind, redis_call, log, ret, throw.
  destruct (redis_faults (redis w)) as [|[] fs]; simpl; rewrite ?H;
    destruct text; simpl; eauto.
Qed.



Lemma redis_del_lookup_in keys (st : gmap string cached) k :
  k ∈ keys -> redis_del keys st !! k = None.
Proof.
  induction keys as [|k' keys IH]; simpl; [by intros ?%elem_of_nil|].
  intros [->|Hin]%elem_of_cons.
  - apply lookup_delete_eq.
  - destruct (decide (k' = k)) as [->|Hne]; [apply lookup_delete_eq|].
    rewrite lookup_delete_ne by done. by apply IH.
Qed.

Lemma redis_keys_elem pattern (st : gmap string cached) k :
  k ∈ redis_keys pattern st <-> glob pattern k = true /\ is_Some (st !! k).
Proof.
  unfold redis_keys. rewrite list_elem_of_filter, elem_of_elements, elem_of_dom.
  done.
Qed.

Lemma delByPattern_clears pattern w k :
  no_fault 2 (redis_faults (redis w)) = true ->
  glob pattern k = true ->
  store (redis (snd (CacheService.delByPattern pattern w))) !! k = None.
Proof.
  intros Hf Hk.
  unfold CacheService.delByPattern, try_catch, bind, redis_call, log, ret.
  assert (Hnone : redis_keys pattern (store (redis w)) = [] ->
                  store (redis w) !! k = None).
  { intros Hnil. destruct (store (redis w) !! k) eqn:E; [|done].
    assert (k ∈ redis_keys pattern (store (redis w))) as Hin
      by (apply redis_keys_elem; eauto).
    rewrite Hnil in Hin. by apply elem_of_nil in Hin. }
  assert (Hdel : forall keys, keys = redis_keys pattern (store (redis w)) ->
                 redis_del keys (store (redis w)) !! k = None).
  { intros keys ->. destruct (store (redis w) !! k) eqn:E.
    - apply redis_del_lookup_in, redis_keys_elem. eauto.
    - clear -E. induction (redis_keys pattern (store (redis w))) as [|k' l IH];
        simpl; [done|].
      destruct (decide (k' = k)) as [->|]; [apply lookup_delete_eq|].
      by rewrite lookup_delete_ne. }
  destruct (redis_faults (redis w)) as [|[] [|[] fs]]; try discriminate; simpl;
    destruct (redis_keys pattern (store (redis w))) as [|k0 ks] eqn:Eks; simpl;
    solve [ by apply Hnone | by apply (Hdel (k0 :: ks)) ].
Qed.

(** ** Statements on the order connection *)

Lemma same_tables_refl c : same_tables c c.
Proof. by repeat split. Qed.

Lemma same_tables_trans c1 c2 c3 :
  same_tables c1 c2 -> same_tables c2 c3 -> same_tables c1 c3.
Proof. intros (?&?&?&?) (?&?&?&?). repeat split; congruence. Qed.

Ltac run_client_query H :=
  unfold begin_, commit, rollback, select_product, insert_order,
    insert_order_item, update_stock, select_complete_order, client_query in H;
  match type of H with
  | context [match pg_faults (pg ?w) with _ => _ end] =>
      let fs := fresh "fs" in
      let Efs := fresh "Efs" in
      destruct (pg_faults (pg w)) as [|[] fs] eqn:Efs
  end.

Lemma select_product_inv id w r w' :
  select_product id w = (r, w') ->
  same_tables (pg w) (pg w') /\
  forall v, r = Ok v -> v = products (db (pg w)) !! id.
Proof.
  intros H. run_client_query H; simpl in H; injection H as <- <-; simpl;
    (split; [by repeat split | by intros v [= <-]]).
Qed.

Lemma rollback_inv w r w' :
  rollback w = (r, w') ->
  orders_id_seq (pg w') = orders_id_seq (pg w) /\
  order_items_id_seq (pg w') = order_items_id_seq (pg w) /\
  match r with
  | Ok _ => db (pg w') = durable (pg w) /\ tx (pg w') = None
  | Throw _ => db (pg w') = db (pg w) /\ tx (pg w') = tx (pg w)
  end.
Proof.
  intros H. unfold durable.
  run_client_query H; simpl in H; unfold exec_rollback in H; simpl in H;
    try (injection H as <- <-; by simpl);
    destruct (tx (pg w)) eqn:Etx; simpl in H; injection H as <- <-; simpl;
    by rewrite ?Etx.
Qed.

Lemma begin_inv w r w' :
  begin_ w = (r, w') ->
  durable (pg w') = durable (pg w) /\ db (pg w') = db (pg w) /\
  orders_id_seq (pg w') = orders_id_seq (pg w) /\
  order_items_id_seq (pg w') = order_items_id_seq (pg w) /\
  match r with
  | Ok _ => is_Some (tx (pg w'))
  | Throw _ => tx (pg w') = tx (pg w)
  end.
Proof.
  intros H. unfold durable.
  run_client_query H; simpl in H; unfold exec_begin in H; simpl in H;
    try (injection H as <- <-; by simpl);
    destruct (tx (pg w)) eqn:Etx; simpl in H; injection H as <- <-; simpl;
    rewrite ?Etx; eauto 10.
Qed.

Lemma commit_inv w r w' :
  commit w = (r, w') ->
  db (pg w') = db (pg w) /\
  orders_id_seq (pg w') = orders_id_seq (pg w) /\
  order_items_id_seq (pg w') = order_items_id_seq (pg w) /\
  match r with
  | Ok _ => tx (pg w') = None
  | Throw _ => tx (pg w') = tx (pg w)
  end.
Proof.
  intros H. run_client_query H; simpl in H; injection H as <- <-; by simpl.
Qed.

Lemma check_items_ok its total acc w total' acc' w' :
  check_items its total acc w = (Ok (inr (total', acc')), w') ->
  same_tables (pg w) (pg w') /\
  exists new, acc' = acc ++ new /\
    Forall2 (reserves (products (db (pg w)))) its new /\
    total' = total + sum_Z (map (fun r => r_unitPrice r * r_quantity r) new).
Proof.
  revert total acc w. induction its as [|item rest IH]; intros total acc w H; simpl in H.
  - injection H as <- <- <-. split; [apply same_tables_refl|].
    exists []. rewrite app_nil_r. simpl. split; [done|]. split; [constructor|lia].
  - unfold bind in H. destruct (select_product _ w) as [[v|e] w1] eqn:E1; [|done].
    destruct (select_product_inv _ _ _ _ E1) as [Hs Hv].
    specialize (Hv v eq_refl). subst v.
    destruct (products (db (pg w)) !! productId item) as [p|] eqn:Ep.
    + destruct (stock_quantity p <? quantity item) eqn:Elt.
      * destruct (rollback w1) as [[[]|e] w2]; simpl in H; discriminate.
      * apply IH in H as (Hs' & new & -> & Hall & ->).
        split; [by eapply same_tables_trans|].
        exists ({| r_productId := productId item; r_quantity := quantity item;
                   r_unitPrice := price p;
                   r_availableStock := stock_quantity p |} :: new).
        rewrite <- app_assoc. simpl. split; [done|].
        destruct Hs as (Hdb & _). rewrite Hdb in Hall.
        split; [|lia]. constructor; [|done].
        exists p. split; [done|]. split; [lia|done].
    + destruct (rollback w1) as [[[]|e] w2]; simpl in H; discriminate.
Qed.

Lemma check_items_early its total acc w early w' :
  check_items its total acc w = (Ok (inl early), w') ->
  db (pg w') = durable (pg w) /\ tx (pg w') = None /\
  exists item, item ∈ its /\ stock_failure (products (db (pg w))) item early.
Proof.
  revert total acc w. induction its as [|item rest IH]; intros total acc w H; simpl in H.
  - discriminate.
  - unfold bind in H. destruct (select_product _ w) as [[v|e] w1] eqn:E1; [|done].
    destruct (select_product_inv _ _ _ _ E1) as [(Hdb & Htx & _) Hv].
    specialize (Hv v eq_refl). subst v.
    assert (Hd : durable (pg w1) = durable (pg w)) by (unfold durable; by rewrite Hdb, Htx).
    destruct (products (db (pg w)) !! productId item) as [p|] eqn:Ep.
    + destruct (stock_quantity p <? quantity item) eqn:Elt.
      * destruct (rollback w1) as [[[]|e] w2] eqn:E2; simpl in H; [|discriminate].
        injection H as <- <-.
        destruct (rollback_inv _ _ _ E2) as (_ & _ & Hr1 & Hr2).
        split; [congruence|]. split; [done|].
        exists item. split; [apply elem_of_cons; by left|].
        right. exists p. split; [done|]. split; [lia|done].
      * apply IH in H as (H1 & H2 & it & Hin & Hf).
        split; [congruence|]. split; [done|].
        exists it. split; [apply elem_of_cons; by right|]. by rewrite <- Hdb.
    + destruct (rollback w1) as [[[]|e] w2] eqn:E2; simpl in H; [|discriminate].
      injection H as <- <-.
      destruct (rollback_inv _ _ _ E2) as (_ & _ & Hr1 & Hr2).
      split; [congruence|]. split; [done|].
      exists item. split; [apply elem_of_cons; by left|]. by left.
Qed.

(** ** Inversion of the handler combinators *)

Lemma bind_inv {A B} (m : M A) (k : A -> M B) w r w' :
  bind m k w = (r, w') ->
  (exists a w1, m w = (Ok a, w1) /\ k a w1 = (r, w')) \/
  (exists e, m w = (Throw e, w') /\ r = Throw e).
Proof.
  unfold bind. destruct (m w) as [[a|e] w1]; intros H.
  - left. eauto.
  - right. injection H as <- <-. eauto.
Qed.

Lemma bind_ok_inv {A B} (m : M A) (k : A -> M B) w b w' :
  bind m k w = (Ok b, w') ->
  exists a w1, m w = (Ok a, w1) /\ k a w1 = (Ok b, w').
Proof.
  intros [H|(e & _ & ?)]%bind_inv; [done|discriminate].
Qed.

Lemma createOrder_inv b req w r w' :
  createOrder b req w = (r, w') ->
  (exists resp wt, createOrder_try b req w = (Ok resp, wt) /\
     r = Ok resp /\ w' = released wt) \/
  (exists e wt wc, createOrder_try b req w = (Throw e, wt) /\
     createOrder_catch b e wt = (r, wc) /\ w' = released wc).
Proof.
  unfold createOrder, finally, try_catch, log. intros H.
  destruct (createOrder_try b req w) as [[resp|e] wt].
  - injection H as <- <-. left. eauto.
  - destruct (createOrder_catch b e wt) as [rc wc] eqn:Ec.
    injection H as <- <-. right. eauto 10.
Qed.

Lemma createOrder_catch_inv b e w r w' :
  createOrder_catch b e w = (r, w') ->
  redis w' = redis w /\
  match r with
  | Ok resp =>
      b = compiled /\ resp = res 500 CreateFailed /\
      db (pg w') = durable (pg w) /\ tx (pg w') = None
  | Throw _ => True
  end.
Proof.
  intros H. split.
  { by destruct (db_only_createOrder_catch b e _ _ _ H). }
  unfold createOrder_catch in H.
  apply bind_inv in H as [(a & w1 & E & H)|(e' & E & ->)]; [|done].
  apply rollback_inv in E as (_ & _ & Hdb & Htx).
  unfold bind, log in H. simpl in H.
  destruct b; injection H as <- <-; simpl; done.
Qed.

(** The paths of the [try] block that end in a response. *)
Lemma createOrder_try_ok b req w resp w' :
  createOrder_try b req w = (Ok resp, w') ->
  exists w1, begin_ w = (Ok tt, w1) /\
  ((createOrderSchema (body req) <> [] /\
    resp = res 400 (InvalidInput (createOrderSchema (body req))) /\ w' = w1) \/
   (createOrderSchema (body req) = [] /\
    (user req = None \/ user req = Some 0) /\
    resp = res 401 (Message "Authentication required") /\ w' = w1) \/
   (createOrderSchema (body req) = [] /\
    exists userId, user req = Some userId /\ userId <> 0 /\
      (check_items (items (body req)) 0 [] w1 = (Ok (inl resp), w') \/
       exists totalAmount orderItems w2 order_id w3 w4 w5 w6 completeOrder,
         check_items (items (body req)) 0 [] w1 =
           (Ok (inr (totalAmount, orderItems)), w2) /\
         insert_order userId totalAmount pending (shippingAddress (body req)) w2 =
           (Ok order_id, w3) /\
         write_items order_id orderItems w3 = (Ok tt, w4) /\
         commit w4 = (Ok tt, w5) /\
         invalidateProductCache w5 = (Ok tt, w6) /\
         read_back b order_id w6 = (Ok completeOrder, w') /\
         resp = res 201 (OrderCreated completeOrder)))).
Proof.
  unfold createOrder_try. intros H.
  apply bind_ok_inv in H as ([] & w1 & Eb & H). exists w1. split; [done|].
  destruct (createOrderSchema (body req)) as [|i issues] eqn:Es.
  - right.
    destruct (user req) as [[|uid|uid]|] eqn:Eu.
    + left. injection H as <- <-. eauto.
    + right. split; [done|]. exists (Z.pos uid). split; [done|]. split; [done|].
      apply bind_ok_inv in H as ([early|[total lines]] & w2 & Ec & H).
      * injection H as <- <-. by left.
      * right.
        apply bind_ok_inv in H as (oid & w3 & Ei & H).
        apply bind_ok_inv in H as ([] & w4 & Ew & H).
        apply bind_ok_inv in H as ([] & w5 & Ecm & H).
        apply bind_ok_inv in H as ([] & w6 & Einv & H).
        apply bind_ok_inv in H as (co & w7 & Er & H).
        injection H as <- <-. eauto 20.
    + right. split; [done|]. exists (Z.neg uid). split; [done|]. split; [done|].
      apply bind_ok_inv in H as ([early|[total lines]] & w2 & Ec & H).
      * injection H as <- <-. by left.
      * right.
        apply bind_ok_inv in H as (oid & w3 & Ei & H).
        apply bind_ok_inv in H as ([] & w4 & Ew & H).
        apply bind_ok_inv in H as ([] & w5 & Ecm & H).
        apply bind_ok_inv in H as ([] & w6 & Einv & H).
        apply bind_ok_inv in H as (co & w7 & Er & H).
        injection H as <- <-. eauto 20.
    + left. injection H as <- <-. eauto.
  - left. injection H as <- <-. eauto.
Qed.

(** ** Runs in which PostgreSQL accepts the statements *)

Lemma no_fault_S n fs :
  no_fault (S n) fs = true ->
  hd false fs = false /\ no_fault n (tail fs) = true.
Proof.
  unfold no_fault. destruct fs as [|[] fs]; simpl; try done.
  by rewrite take_nil.
Qed.

Lemma no_fault_le n m fs :
  (n <= m)%nat -> no_fault m fs = true -> no_fault n fs = true.
Proof.
  revert m fs. induction n as [|n IH]; intros m fs Hle H; [done|].
  destruct m as [|m]; [lia|].
  apply no_fault_S in H as [H1 H2].
  destruct fs as [|[] fs]; simpl in *; try done.
  unfold no_fault in *. simpl. apply (IH m); [lia|done].
Qed.

Lemma select_product_accept id w :
  no_fault 1 (pg_faults (pg w)) = true ->
  select_product id w = (Ok (products (db (pg w)) !! id), accepted (SelectProduct id) w).
Proof.
  intros [H _]%no_fault_S. unfold select_product, client_query, accepted.
  by destruct (pg_faults (pg w)) as [|[] fs].
Qed.

Lemma rollback_accept w :
  no_fault 1 (pg_faults (pg w)) = true ->
  exists w', rollback w = (Ok tt, w') /\
    db (pg w') = durable (pg w) /\ tx (pg w') = None /\
    pg_faults (pg w') = tail (pg_faults (pg w)) /\
    redis w' = redis w /\ trace w' = trace w ++ [Sql ROLLBACK true].
Proof.
  intros [H _]%no_fault_S. unfold rollback, client_query, exec_rollback, durable.
  destruct (pg_faults (pg w)) as [|[] fs] eqn:Efs; try done; simpl;
    destruct (tx (pg w)) eqn:Etx; simpl;
    eexists; (split; [reflexivity|]); simpl; rewrite ?Etx, ?Efs; done.
Qed.

Lemma begin_accept w :
  no_fault 1 (pg_faults (pg w)) = true ->
  exists w', begin_ w = (Ok tt, w') /\
    db (pg w') = db (pg w) /\ durable (pg w') = durable (pg w) /\
    is_Some (tx (pg w')) /\
    pg_faults (pg w') = tail (pg_faults (pg w)) /\
    redis w' = redis w /\ trace w' = trace w ++ [Sql BEGIN true].
Proof.
  intros [H _]%no_fault_S. unfold begin_, client_query, exec_begin, durable.
  destruct (pg_faults (pg w)) as [|[] fs] eqn:Efs; try done; simpl;
    destruct (tx (pg w)) eqn:Etx; simpl;
    eexists; (split; [reflexivity|]); simpl; rewrite ?Etx, ?Efs; eauto 10.
Qed.

(** The stock check stops at the first line that fails, after one SELECT
    per line up to it, and rolls back. *)
Lemma check_items_first_failure pre item post early total acc w :
  no_fault (length pre + 2) (pg_faults (pg w)) = true ->
  Forall (in_stock (products (db (pg w)))) pre ->
  stock_failure (products (db (pg w))) item early ->
  exists w', check_items (pre ++ item :: post) total acc w = (Ok (inl early), w') /\
    db (pg w') = durable (pg w) /\ tx (pg w') = None /\
    redis w' = redis w /\
    trace w' = trace w ++
      map (fun it => Sql (SelectProduct (productId it)) true) (pre ++ [item]) ++
      [Sql ROLLBACK true].
Proof.
  revert total acc w. induction pre as [|it pre IH]; intros total acc w Hf Hpre Hfail.
  - simpl in *. unfold bind.
    rewrite select_product_accept by (by apply (no_fault_le 1 2); [lia|]).
    apply no_fault_S in Hf as [_ Hf].
    destruct (rollback_accept (accepted (SelectProduct (productId item)) w))
      as (w' & Er & Hdb & Htx & _ & Hrd & Htr); [done|].
    assert (Hdur : durable (pg (accepted (SelectProduct (productId item)) w)) =
                   durable (pg w)) by done.
    destruct Hfail as [[Hn ->]|(p & Hp & Hlt & ->)].
    + rewrite Hn. rewrite Er. simpl. exists w'.
      split; [done|]. split; [congruence|]. split; [done|]. split; [done|].
      rewrite Htr. simpl. by rewrite <- app_assoc.
    + rewrite Hp. apply Z.ltb_lt in Hlt. rewrite Hlt. rewrite Er. simpl. exists w'.
      split; [done|]. split; [congruence|]. split; [done|]. split; [done|].
      rewrite Htr. simpl. by rewrite <- app_assoc.
  - simpl in *. unfold bind at 1.
    rewrite select_product_accept
      by (apply (no_fault_le 1 (S (length pre + 2))); [lia|done]).
    apply no_fault_S in Hf as [_ Hf].
    apply Forall_cons in Hpre as [(p & Hp & Hge) Hpre].
    rewrite Hp. apply Z.ltb_ge in Hge. rewrite Hge.
    edestruct (IH (total + price p * quantity it)
                 (acc ++ [{| r_productId := productId it; r_quantity := quantity it;
                             r_unitPrice := price p;
                             r_availableStock := stock_quantity p |}])
                 (accepted (SelectProduct (productId it)) w))
      as (w' & E & Hdb & Htx & Hrd & Htr); [done|done|done|].
    exists w'. split; [done|]. split; [done|]. split; [done|]. split; [done|].
    rewrite Htr. simpl. by rewrite <- app_assoc.
Qed.

(** ** The schema *)

Lemma concat_imap_nil {A B} (P : A -> Prop) (l : list A) :
  forall f : nat -> A -> list B,
  (forall i x, f i x = [] <-> P x) ->
  concat (imap f l) = [] <-> Forall P l.
Proof.
  induction l as [|x l IH]; intros f Hf; simpl.
  - split; [constructor|done].
  - rewrite Forall_cons. rewrite <- (IH (f ∘ S)) by (intros i y; apply Hf).
    rewrite <- (Hf 0%nat x). split.
    + intros H. by apply app_eq_nil in H.
    + intros [-> ->]. done.
Qed.

Lemma line_issues_nil i l :
  line_issues i l = [] <-> 0 < productId l /\ 0 < quantity l.
Proof.
  unfold line_issues.
  destruct (Z.ltb_spec 0 (productId l)), (Z.ltb_spec 0 (quantity l)); simpl;
    split; try done; intros [? ?]; lia.
Qed.

Lemma createOrderSchema_nil b :
  createOrderSchema b = [] <->
  items b <> [] /\ Forall (fun l => 0 < productId l /\ 0 < quantity l) (items b) /\
  (10 <= String.length (shippingAddress b))%nat.
Proof.
  unfold createOrderSchema.
  rewrite <- (concat_imap_nil _ (items b) line_issues line_issues_nil).
  destruct (Nat.leb_spec 10 (String.length (shippingAddress b)));
    destruct (items b) as [|l ls]; simpl; split.
  all: try done.
  all: try (intros (Hne & _); done).
  all: try (rewrite app_nil_r; intros; intuition congruence).
  all: try (intros [_ [=]]%app_eq_nil).
  all: try (intros (_ & _ & Hlen); lia).
Qed.

Lemma malformed_schema b : malformed b <-> createOrderSchema b <> [].
Proof.
  rewrite createOrderSchema_nil. unfold malformed. split.
  - intros [H|[(l & Hin & Hl)|H]] (Hne & Hall & Hlen); [done| |lia].
    rewrite Forall_forall in Hall. specialize (Hall l Hin). lia.
  - intros H. destruct (items b) as [|l0 ls] eqn:Ei; [by left|]. right.
    destruct (Nat.leb_spec 10 (String.length (shippingAddress b))) as [Hlen|Hlen];
      [|by right].
    left. destruct (decide (Forall (fun l => 0 < productId l /\ 0 < quantity l) (l0 :: ls)))
      as [Hall|Hnall].
    + exfalso. apply H. done.
    + apply not_Forall_Exists in Hnall; [|intros l; apply _].
      apply Exists_exists in Hnall as (l & Hin & Hl). simpl in Hl.
      exists l. split; [done|]. lia.
Qed.

Lemma createOrder_stock_failure_run b req w userId pre item post early :
  createOrderSchema (body req) = [] ->
  user req = Some userId -> userId <> 0 ->
  items (body req) = pre ++ item :: post ->
  no_fault (length pre + 3) (pg_faults (pg w)) = true ->
  Forall (in_stock (products (db (pg w)))) pre ->
  stock_failure (products (db (pg w))) item early ->
  exists w', createOrder b req w = (Ok early, w') /\
    db (pg w') = durable (pg w) /\ tx (pg w') = None /\ redis w' = redis w /\
    trace w' = trace w ++ [Sql BEGIN true] ++
      map (fun it => Sql (SelectProduct (productId it)) true) (pre ++ [item]) ++
      [Sql ROLLBACK true; Release].
Proof.
  intros Hs Hu Hne Hit Hf Hpre Hfail.
  destruct (begin_accept w) as (w1 & Eb & Hdb1 & Hdur1 & _ & Hfs1 & Hrd1 & Htr1).
  { apply (no_fault_le 1 (length pre + 3)); [lia|done]. }
  destruct (check_items_first_failure pre item post early 0 [] w1)
    as (w2 & Ec & Hdb2 & Htx2 & Hrd2 & Htr2).
  { rewrite Hfs1. replace (length pre + 3)%nat with (S (length pre + 2)) in Hf by lia.
    by apply no_fault_S in Hf as [_ Hf]. }
  { by rewrite Hdb1. }
  { by rewrite Hdb1. }
  exists (released w2).
  split.
  - unfold createOrder, finally, try_catch, createOrder_try. unfold bind at 1.
    rewrite Eb, Hs, Hu. destruct userId as [|u|u]; [done| |];
      unfold bind; rewrite Hit, Ec; reflexivity.
  - simpl. split; [congruence|]. split; [done|]. split; [congruence|].
    rewrite Htr2, Htr1. rewrite <- !app_assoc. simpl. by rewrite <- ?app_assoc.
Qed.

Lemma createOrder_stock_failure_inv b req w r w' :
  createOrder b req w = (Ok r, w') ->
  (exists item, r = ProductNotFound item) \/
    (exists p item, r = InsufficientStock p item) ->
  exists w1, begin_ w = (Ok tt, w1) /\
    db (pg w') = durable (pg w) /\ tx (pg w') = None /\
    exists item, item ∈ items (body req) /\
      stock_failure (products (db (pg w))) item r.
Proof.
  intros H Hr.
  assert (Hshape : exists st m, r = res st (Message m) /\ (st = 404 \/ st = 400)).
  { destruct Hr as [[item ->]|(p & item & ->)]; unfold ProductNotFound, InsufficientStock;
      eauto 10. }
  destruct Hshape as (st & m & -> & Hst).
  apply createOrder_inv in H as [(resp & wt & Et & [= <-] & ->)|(e & wt & wc & Et & Ec & ->)].
  - apply createOrder_try_ok in Et as (w1 & Eb & Hcases). exists w1. split; [done|].
    destruct (begin_inv _ _ _ Eb) as (Hdur & Hdb & _).
    destruct Hcases as [(_ & [=] & _)|[(_ & _ & [= -> _] & _)|(_ & uid & _ & _ & Hc)]].
    { lia. }
    destruct Hc as [Hc|(total & lines & w2 & oid & w3 & w4 & w5 & w6 & co & _ & _ & _ & _ & _ & _ & [=])].
    apply check_items_early in Hc as (H1 & H2 & item & Hin & Hf). simpl.
    split; [congruence|]. split; [done|]. exists item. split; [done|]. by rewrite <- Hdb.
  - apply createOrder_catch_inv in Ec as (_ & _ & [=] & _).
Qed.

(** C2. If createOrder answers ProductNotFound or InsufficientStock for a
    line of the cart, the transaction has been rolled back: products (no
    stock decrement), orders and order_items are what they were before the
    call.  For the cart [(A, 2); (B, 1)] with enough stock of A and none of
    B, the answer is InsufficientStock for B with available 0 and requested
    1, A keeps its stock and no order row exists that did not before. *)
Theorem createOrder_stock_failure_atomic :
  (forall b req w r w',
     createOrder b req w = (Ok r, w') ->
     (exists item, r = ProductNotFound item) \/
       (exists p item, r = InsufficientStock p item) ->
     durable (pg w') = durable (pg w) /\ db (pg w') = durable (pg w) /\
     tx (pg w') = None) /\
  (forall b w A B pa pb addr uid,
     tx (pg w) = None ->
     no_fault 4 (pg_faults (pg w)) = true ->
     products (db (pg w)) !! A = Some pa -> 2 <= stock_quantity pa ->
     products (db (pg w)) !! B = Some pb -> stock_quantity pb = 0 ->
     0 < A -> 0 < B -> (10 <= String.length addr)%nat -> uid <> 0 ->
     let cart := [{| productId := A; quantity := 2 |};
                  {| productId := B; quantity := 1 |}] in
     exists w',
       createOrder b {| body := {| items := cart; shippingAddress := addr |};
                        user := Some uid |} w =
         (Ok (InsufficientStock pb {| productId := B; quantity := 1 |}), w') /\
       db (pg w') = db (pg w) /\ tx (pg w') = None /\
       products (db (pg w')) !! A = Some pa /\
       orders (db (pg w')) = orders (db (pg w)) /\
       order_items (db (pg w')) = order_items (db (pg w))).
Proof.
  split.
  - intros b req w r w' H Hr.
    destruct (createOrder_stock_failure_inv _ _ _ _ _ H Hr) as (w1 & _ & Hdb & Htx & _).
    split; [|done]. unfold durable at 1. by rewrite Htx.
  - intros b w A B pa pb addr uid Htx Hf HA HsA HB HsB HposA HposB Haddr Huid cart.
    destruct (createOrder_stock_failure_run b
                {| body := {| items := cart; shippingAddress := addr |};
                   user := Some uid |} w uid
                [{| productId := A; quantity := 2 |}]
                {| productId := B; quantity := 1 |} []
                (InsufficientStock pb {| productId := B; quantity := 1 |}))
      as (w' & E & Hdb & Htx' & _ & _); try done.
    + apply createOrderSchema_nil. simpl. split; [done|]. split; [|done].
      repeat constructor; simpl; lia.
    + constructor; [|constructor]. exists pa. eauto.
    + right. exists pb. split; [done|]. split; [simpl; lia|done].
    + exists w'. split; [done|].
      assert (Hd : db (pg w') = db (pg w)) by (rewrite Hdb; unfold durable; by rewrite Htx).
      rewrite Hd. done.
Qed.

Lemma createOrder_stock_failure_atomic_witness :
  exists w',
    createOrder compiled (order_request [(1, 2); (2, 1)]) (fresh_world shop) =
      (Ok (InsufficientStock book {| productId := 2; quantity := 1 |}), w') /\
    db (pg w') = db (pg (fresh_world shop)) /\ tx (pg w') = None /\
    products (db (pg w')) !! 1 = Some mug /\
    orders (db (pg w')) = orders (db (pg (fresh_world shop))) /\
    order_items (db (pg w')) = order_items (db (pg (fresh_world shop))).
Proof.
  apply (proj2 createOrder_stock_failure_atomic compiled (fresh_world shop)
           1 2 mug book "123 Test Street, Test City" 7);
    try reflexivity; simpl; lia.
Defined.

(** ** Early returns of the [try] block *)

Lemma createOrder_early_return_run b req w :
  createOrderSchema (body req) <> [] \/ unauthenticated req ->
  no_fault 1 (pg_faults (pg w)) = true ->
  exists w1, begin_ w = (Ok tt, w1) /\
    createOrder b req w = (Ok (early_response req), released w1) /\
    trace (released w1) = trace w ++ [Sql BEGIN true; Release] /\
    db (pg w1) = db (pg w) /\ durable (pg w1) = durable (pg w) /\
    is_Some (tx (pg w1)) /\ redis w1 = redis w.
Proof.
  intros Hearly Hf.
  destruct (begin_accept w Hf) as (w1 & Eb & Hdb & Hdur & Htx & _ & Hrd & Htr).
  exists w1. split; [done|]. split.
  - unfold createOrder, finally, try_catch, createOrder_try, early_response.
    unfold bind at 1. rewrite Eb.
    destruct (createOrderSchema (body req)) as [|i is_]; [|done].
    destruct Hearly as [?|[Hu|Hu]]; [done| |]; by rewrite Hu.
  - simpl. rewrite Htr, <- app_assoc. done.
Qed.




(** C3.  The early returns of the [try] block skip the rollback: when the
    request is malformed or unauthenticated, createOrder answers 400 or 401
    after BEGIN without sending ROLLBACK, and the client goes back to the
    pool with the transaction still open. *)
Theorem createOrder_early_return_skips_rollback b req w :
  malformed (body req) \/ unauthenticated req ->
  no_fault 1 (pg_faults (pg w)) = true ->
  tx (pg w) = None ->
  exists resp w',
    createOrder b req w = (Ok resp, w') /\
    (res_status resp = 400 \/ res_status resp = 401) /\
    new_events w w' = [Sql BEGIN true; Release] /\
    tx (pg w') = Some (db (pg w)).
Proof.
  intros Hearly Hf Htx.
  assert (Hearly' : createOrderSchema (body req) <> [] \/ unauthenticated req).
  { destruct Hearly as [?%malformed_schema|?]; eauto. }
  destruct (createOrder_early_return_run b req w Hearly' Hf)
    as (w1 & Eb & E & Htr & Hdb & Hdur & [snap Hsnap] & Hrd).
  exists (early_response req), (released w1). split; [done|]. split.
  { unfold early_response. destruct (createOrderSchema (body req)); simpl; eauto. }
  split.
  { unfold new_events. rewrite Htr. by rewrite drop_app_length. }
  simpl. rewrite Hsnap. f_equal.
  unfold durable in Hdur. rewrite Hsnap, Htx in Hdur. done.
Qed.

Lemma createOrder_early_return_skips_rollback_witness :
  exists resp w',
    createOrder compiled (order_request []) (fresh_world shop) = (Ok resp, w') /\
    (res_status resp = 400 \/ res_status resp = 401) /\
    new_events (fresh_world shop) w' = [Sql BEGIN true; Release] /\
    tx (pg w') = Some (db (pg (fresh_world shop))).
Proof.
  apply (createOrder_early_return_skips_rollback compiled (order_request [])
           (fresh_world shop)).
  - left. left. reflexivity.
  - reflexivity.
  - reflexivity.
Defined.

(** C9 (as amended).  When the stock check reaches a cart line whose
    requested quantity exceeds the stock_quantity just read, createOrder
    sends ROLLBACK and answers 400 with a message made of the product's
    name, the available quantity and the requested quantity; the product
    id is not part of the answer. *)
Theorem createOrder_insufficient_stock_reports_name b req w userId pre item post p :
  createOrderSchema (body req) = [] ->
  user req = Some userId -> userId <> 0 ->
  items (body req) = pre ++ item :: post ->
  no_fault (length pre + 3) (pg_faults (pg w)) = true ->
  Forall (in_stock (products (db (pg w)))) pre ->
  products (db (pg w)) !! productId item = Some p ->
  stock_quantity p < quantity item ->
  exists w',
    createOrder b req w =
      (Ok (res 400 (Message
         ("Insufficient stock for " +:+ name p +:+ ". Available: " +:+
          pretty (stock_quantity p) +:+ ", Requested: " +:+
          pretty (quantity item)))), w') /\
    trace w' = trace w ++ [Sql BEGIN true] ++
      map (fun it => Sql (SelectProduct (productId it)) true) (pre ++ [item]) ++
      [Sql ROLLBACK true; Release] /\
    durable (pg w') = durable (pg w) /\ tx (pg w') = None.
Proof.
  intros Hs Hu Hne Hit Hf Hpre Hp Hlt.
  destruct (createOrder_stock_failure_run b req w userId pre item post
              (InsufficientStock p item) Hs Hu Hne Hit Hf Hpre)
    as (w' & E & Hdb & Htx & _ & Htr).
  { right. eauto. }
  exists w'. split; [exact E|]. split; [done|]. split; [|done].
  unfold durable at 1. by rewrite Htx.
Qed.

Lemma createOrder_insufficient_stock_reports_name_witness :
  exists w',
    createOrder compiled (order_request [(1, 2); (2, 1)]) (fresh_world shop) =
      (Ok (res 400 (Message
         ("Insufficient stock for " +:+ name book +:+ ". Available: " +:+
          pretty (stock_quantity book) +:+ ", Requested: " +:+ pretty 1))), w') /\
    trace w' = trace (fresh_world shop) ++ [Sql BEGIN true] ++
      map (fun it => Sql (SelectProduct (productId it)) true)
        ([{| productId := 1; quantity := 2 |}] ++ [{| productId := 2; quantity := 1 |}]) ++
      [Sql ROLLBACK true; Release] /\
    durable (pg w') = durable (pg (fresh_world shop)) /\ tx (pg w') = None.
Proof.
  apply (createOrder_insufficient_stock_reports_name compiled
           (order_request [(1, 2); (2, 1)]) (fresh_world shop) 7
           [{| productId := 1; quantity := 2 |}]
           {| productId := 2; quantity := 1 |} [] book).
  - reflexivity.
  - reflexivity.
  - discriminate.
  - reflexivity.
  - reflexivity.
  - constructor; [|constructor]. exists mug. split; [reflexivity|]. simpl. lia.
  - reflexivity.
  - simpl. lia.
Defined.

(** C9, the claim as stated fails: two carts that name different products
    get the very same InsufficientStock answer, so the answer does not
    surface the offending product's id. *)
Lemma insufficient_stock_answer_hides_product_id :
  fst (createOrder compiled (order_request [(1, 1)]) (fresh_world twins)) =
    Ok (res 400 (Message "Insufficient stock for Mug. Available: 0, Requested: 1")) /\
  fst (createOrder compiled (order_request [(2, 1)]) (fresh_world twins)) =
    Ok (res 400 (Message "Insufficient stock for Mug. Available: 0, Requested: 1")).
Proof. split; vm_compute; reflexivity. Qed.

(** ** The listing route *)

Lemma pool_query_accept {A} s (read : database -> A) w :
  no_fault 1 (pg_faults (pg w)) = true ->
  pool_query s read w = (Ok (read (durable (pg w))), accepted s w).
Proof.
  intros [H _]%no_fault_S. unfold pool_query, accepted.
  by destruct (pg_faults (pg w)) as [|[] fs].
Qed.


Lemma fetch_listing_accept select_rows count_rows q w :
  no_fault 2 (pg_faults (pg w)) = true ->
  exists w', fetch_listing select_rows count_rows q w =
      (Ok (listing_of select_rows count_rows (products (durable (pg w))) q), w') /\
    same_tables (pg w) (pg w') /\ redis w' = redis w.
Proof.
  intros Hf. unfold fetch_listing. unfold bind at 1.
  rewrite pool_query_accept by (by apply (no_fault_le 1 2); [lia|]).
  apply no_fault_S in Hf as [_ Hf]. unfold bind.
  rewrite pool_query_accept by done.
  eexists. split; [reflexivity|]. simpl. by repeat split.
Qed.


Lemma get_miss key w :
  hd false (redis_faults (redis w)) = true \/ store (redis w) !! key = None ->
  exists w1, CacheService.get key w = (Ok None, w1) /\ pg w1 = pg w.
Proof.
  intros [Hrej|Hnone].
  - destruct (redis_faults (redis w)) as [|[] fs] eqn:Efs; try done.
    destruct (get_rejected key w fs Efs) as (w1 & E & Hpg & _). eauto.
  - unfold CacheService.get, try_catch, bind, redis_call, log, ret.
    destruct (redis_faults (redis w)) as [|[] fs]; simpl; rewrite ?Hnone; eauto.
Qed.

(** A listing request that misses the cache, or cannot reach it, answers
    from the durable tables when PostgreSQL accepts both statements. *)
Lemma products_get_from_tables select_rows count_rows q w :
  hd false (redis_faults (redis w)) = true \/ store (redis w) !! cacheKey q = None ->
  no_fault 2 (pg_faults (pg w)) = true ->
  exists w', products_get select_rows count_rows q w =
    (Ok (ListingOk (listing_of select_rows count_rows (products (durable (pg w))) q)), w').
Proof.
  intros Hmiss Hf. unfold products_get, try_catch. unfold bind at 1.
  destruct (get_miss _ _ Hmiss) as (w1 & -> & Hpg).
  destruct (fetch_listing_accept select_rows count_rows q w1) as (w2 & E2 & _ & _);
    [by rewrite Hpg|].
  unfold bind at 1. rewrite E2, Hpg.
  destruct (cache_only_set (cacheKey q)
              (listing_of select_rows count_rows (products (durable (pg w))) q) 60 w2)
    as ([] & w3 & E3 & _).
  unfold bind. rewrite E3. eauto.
Qed.


(** C10.  No operation of the cache service propagates a Redis error:
    whatever Redis does, each of them returns normally and leaves the
    database connection alone; [get] answers null when its command is
    rejected and when the value it reads cannot be parsed; and with Redis
    rejecting its commands a listing request is answered from the tables
    instead of failing. *)
Theorem cache_service_swallows_redis_errors :
  (forall key, cache_only (CacheService.get key)) /\
  (forall key value ttl, cache_only (CacheService.set key value ttl)) /\
  (forall key, cache_only (CacheService.del key)) /\
  (forall keys, cache_only (CacheService.delMultiple keys)) /\
  (forall pattern, cache_only (CacheService.delByPattern pattern)) /\
  (forall key, cache_only (CacheService.exists_ key)) /\
  (forall key, cache_only (CacheService.getTTL key)) /\
  (forall key ttl, cache_only (CacheService.setTTL key ttl)) /\
  cache_only CacheService.clearAll /\
  cache_only CacheService.getStats /\
  cache_only CacheService.healthCheck /\
  cache_only CacheService.close /\
  (forall key w fs,
     redis_faults (redis w) = true :: fs ->
     exists w', CacheService.get key w = (Ok None, w')) /\
  (forall key w text,
     store (redis w) !! key = Some (Garbage text) ->
     exists w', CacheService.get key w = (Ok None, w')) /\
  (forall select_rows count_rows q w fs,
     redis_faults (redis w) = true :: fs ->
     no_fault 2 (pg_faults (pg w)) = true ->
     exists w', products_get select_rows count_rows q w =
       (Ok (ListingOk (listing_of select_rows count_rows (products (durable (pg w))) q)),
        w')).
Proof.
  repeat split.
  - apply cache_only_get.
  - apply cache_only_set.
  - apply cache_only_del.
  - apply cache_only_delMultiple.
  - apply cache_only_delByPattern.
  - apply cache_only_exists.
  - apply cache_only_getTTL.
  - apply cache_only_setTTL.
  - apply cache_only_clearAll.
  - apply cache_only_getStats.
  - apply cache_only_healthCheck.
  - apply cache_only_close.
  - intros key w fs H. destruct (get_rejected key w fs H) as (w' & E & _). eauto.
  - apply get_garbage.
  - intros select_rows count_rows q w fs H Hf.
    apply products_get_from_tables; [|done]. left. by rewrite H.
Qed.

Lemma cache_service_swallows_redis_errors_witness :
  exists w', products_get all_rows count_all default_query outage_world =
    (Ok (ListingOk
       (listing_of all_rows count_all (products (durable (pg outage_world)))
          default_query)), w').
Proof.
  apply (proj2 (proj2 (proj2 (proj2 (proj2 (proj2 (proj2 (proj2 (proj2 (proj2
           (proj2 (proj2 (proj2 (proj2 cache_service_swallows_redis_errors)))))))))))))
           all_rows count_all default_query outage_world [true]);
    reflexivity.
Defined.

(** ** Traces: cache commands come after the commit *)

Lemma commit_first_sound evs :
  commit_first evs = true ->
  forall pre c ok post, evs = pre ++ Redis c ok :: post -> Sql COMMIT true ∈ pre.
Proof.
  induction evs as [|e evs IH]; intros H pre c ok post Heq.
  - by destruct pre.
  - destruct pre as [|e' pre]; simpl in Heq; injection Heq as -> ->.
    + discriminate.
    + destruct e' as [[] []| | |]; simpl in H;
        solve [ apply elem_of_cons; by left
              | discriminate
              | apply elem_of_cons; right; by eapply IH ].
Qed.

Lemma commit_first_quiet evs :
  Forall (fun e => is_redis e = false) evs -> commit_first evs = true.
Proof.
  induction 1 as [|e evs He _ IH]; [done|].
  destruct e as [[] []| | |]; simpl in *; done.
Qed.

Lemma commit_first_app_l e1 e2 :
  Forall (fun e => is_redis e = false) e1 ->
  commit_first e2 = true -> commit_first (e1 ++ e2) = true.
Proof.
  induction 1 as [|e evs He _ IH]; intros H2; [done|].
  destruct e as [[] []| | |]; simpl in *; auto; done.
Qed.

Lemma commit_first_app_r e1 e2 :
  commit_first e1 = true ->
  Forall (fun e => is_redis e = false) e2 -> commit_first (e1 ++ e2) = true.
Proof.
  induction e1 as [|e e1 IH]; intros H1 H2; simpl.
  - by apply commit_first_quiet.
  - destruct e as [[] []| | |]; simpl in *; auto; done.
Qed.

Lemma adds_db_only {A} (P : list event -> Prop) (m : M A) :
  (forall evs, Forall (fun e => is_redis e = false) evs -> P evs) ->
  db_only m -> adds P m.
Proof.
  intros HP Hm w r w' E. destruct (Hm _ _ _ E) as (_ & evs & Ht & Hq). eauto.
Qed.


Lemma commit_trace w r w' :
  commit w = (r, w') ->
  trace w' = trace w ++ [Sql COMMIT (match r with Ok _ => true | Throw _ => false end)].
Proof.
  intros H. run_client_query H; simpl in H; injection H as <- <-; done.
Qed.

Lemma adds_commit_first_bind {A B} (m : M A) (k : A -> M B) :
  db_only m -> (forall a, adds (fun evs => commit_first evs = true) (k a)) ->
  adds (fun evs => commit_first evs = true) (bind m k).
Proof.
  intros Hm Hk w r w' E.
  apply bind_inv in E as [(a & w1 & E1 & E)|(e & E1 & ->)].
  - destruct (Hm _ _ _ E1) as (_ & e1 & H1 & Q1).
    destruct (Hk a _ _ _ E) as (e2 & H2 & C2).
    exists (e1 ++ e2). split; [by rewrite H2, H1, app_assoc|].
    by apply commit_first_app_l.
  - destruct (Hm _ _ _ E1) as (_ & e1 & H1 & Q1).
    exists e1. split; [done|]. by apply commit_first_quiet.
Qed.

Lemma adds_commit_first_after_commit {B} (k : M B) :
  appends k -> adds (fun evs => commit_first evs = true) (bind commit (fun _ => k)).
Proof.
  intros Hk w r w' E.
  apply bind_inv in E as [([] & w1 & E1 & E)|(e & E1 & ->)].
  - apply commit_trace in E1. destruct (Hk _ _ _ E) as [e2 H2].
    exists (Sql COMMIT true :: e2). split; [|done].
    rewrite H2, E1, <- app_assoc. done.
  - apply commit_trace in E1. eauto.
Qed.

Lemma adds_commit_first_try_catch {A} (m : M A) h :
  adds (fun evs => commit_first evs = true) m -> (forall e, db_only (h e)) ->
  adds (fun evs => commit_first evs = true) (try_catch m h).
Proof.
  intros Hm Hh w r w' E. unfold try_catch in E.
  destruct (m w) as [[a|e] w1] eqn:E1.
  - injection E as <- <-. eauto.
  - destruct (Hm _ _ _ E1) as (e1 & H1 & C1).
    destruct (Hh e _ _ _ E) as (_ & e2 & H2 & Q2).
    exists (e1 ++ e2). split; [by rewrite H2, H1, app_assoc|].
    by apply commit_first_app_r.
Qed.

Lemma adds_commit_first_finally {A} (m : M A) f :
  adds (fun evs => commit_first evs = true) m -> db_only f ->
  adds (fun evs => commit_first evs = true) (finally m f).
Proof.
  intros Hm Hf w r w' E. unfold finally in E.
  destruct (m w) as [r1 w1] eqn:E1.
  destruct (Hm _ _ _ E1) as (e1 & H1 & C1).
  destruct (f w1) as [[[]|e] w2] eqn:E2; injection E as <- <-;
    destruct (Hf _ _ _ E2) as (_ & e2 & H2 & Q2);
    exists (e1 ++ e2); (split; [by rewrite H2, H1, app_assoc|]);
    by apply commit_first_app_r.
Qed.

Lemma appends_cache_only {A} (m : M A) : cache_only m -> appends m.
Proof.
  intros H w r w' E. destruct (H w) as (a & w1 & E1 & _ & evs & Ht).
  rewrite E1 in E. injection E as <- <-. eauto.
Qed.

Lemma createOrder_commit_first b req :
  adds (fun evs => commit_first evs = true) (createOrder b req).
Proof.
  unfold createOrder.
  apply adds_commit_first_finally; [|by apply db_only_log].
  apply adds_commit_first_try_catch; [|apply db_only_createOrder_catch].
  unfold createOrder_try.
  apply adds_commit_first_bind; [apply db_only_client_query|]. intros _.
  assert (Hret : forall r : response, adds (fun evs => commit_first evs = true) (ret r)).
  { intros r. apply adds_db_only; [apply commit_first_quiet | apply db_only_ret]. }
  destruct (createOrderSchema (body req)); [|apply Hret].
  destruct (user req) as [[|uid|uid]|]; try apply Hret.
  all: apply adds_commit_first_bind; [apply db_only_check_items|];
    intros [early|[total lines]]; [apply Hret|];
    apply adds_commit_first_bind; [apply db_only_client_query|]; intros oid;
    apply adds_commit_first_bind; [apply db_only_write_items|]; intros _;
    apply adds_commit_first_after_commit;
    apply appends_bind; [apply appends_cache_only, cache_only_invalidateProductCache|];
    intros _; apply appends_bind; [apply db_only_appends, db_only_read_back|];
    intros co; apply appends_ret.
Qed.

(** ** Redis cannot change the outcome *)

Lemma redis_blind_ret {A} (a : A) : redis_blind (ret a).
Proof. by intros w1 w2 H. Qed.

Lemma redis_blind_throw {A} e : redis_blind (@throw A e).
Proof. by intros w1 w2 H. Qed.

Lemma redis_blind_log e : redis_blind (log e).
Proof. by intros w1 w2 H. Qed.

Lemma redis_blind_client_query {A} s (exec : pg_conn -> result A * pg_conn) :
  redis_blind (client_query s exec).
Proof.
  intros w1 w2 H. unfold client_query. rewrite H.
  destruct (pg_faults (pg w2)) as [|[] fs]; simpl; try done;
    by destruct (exec _) as [[a|e] c].
Qed.

Lemma redis_blind_bind {A B} (m : M A) (k : A -> M B) :
  redis_blind m -> (forall a, redis_blind (k a)) -> redis_blind (bind m k).
Proof.
  intros Hm Hk w1 w2 H. destruct (Hm w1 w2 H) as [Hr Hp]. unfold bind.
  destruct (m w1) as [r1 v1], (m w2) as [r2 v2]. simpl in *. subst r2.
  destruct r1 as [a|e]; [by apply Hk | done].
Qed.

Lemma redis_blind_try_catch {A} (m : M A) h :
  redis_blind m -> (forall e, redis_blind (h e)) -> redis_blind (try_catch m h).
Proof.
  intros Hm Hh w1 w2 H. destruct (Hm w1 w2 H) as [Hr Hp]. unfold try_catch.
  destruct (m w1) as [r1 v1], (m w2) as [r2 v2]. simpl in *. subst r2.
  destruct r1 as [a|e]; [done | by apply Hh].
Qed.

Lemma redis_blind_finally {A} (m : M A) f :
  redis_blind m -> redis_blind f -> redis_blind (finally m f).
Proof.
  intros Hm Hf w1 w2 H. destruct (Hm w1 w2 H) as [Hr Hp]. unfold finally.
  destruct (m w1) as [r1 v1], (m w2) as [r2 v2]. simpl in *. subst r2.
  destruct (Hf v1 v2 Hp) as [Hr' Hp'].
  destruct (f v1) as [r3 u1], (f v2) as [r4 u2]. simpl in *. subst r4.
  by destruct r3 as [[]|e].
Qed.

Lemma redis_blind_cache_only (m : M unit) : cache_only m -> redis_blind m.
Proof.
  intros Hm w1 w2 H.
  destruct (Hm w1) as ([] & v1 & -> & Hp1 & _).
  destruct (Hm w2) as ([] & v2 & -> & Hp2 & _). simpl. split; congruence.
Qed.

Lemma redis_blind_check_items its total acc : redis_blind (check_items its total acc).
Proof.
  revert total acc. induction its as [|item rest IH]; intros total acc; simpl.
  - apply redis_blind_ret.
  - apply redis_blind_bind; [apply redis_blind_client_query|].
    intros [p|].
    + destruct (stock_quantity p <? quantity item); [|apply IH].
      apply redis_blind_bind; [apply redis_blind_client_query|].
      intros _. apply redis_blind_ret.
    + apply redis_blind_bind; [apply redis_blind_client_query|].
      intros _. apply redis_blind_ret.
Qed.

Lemma redis_blind_write_items oid lines : redis_blind (write_items oid lines).
Proof.
  induction lines as [|l rest IH]; simpl.
  - apply redis_blind_ret.
  - apply redis_blind_bind; [apply redis_blind_client_query|]. intros _.
    apply redis_blind_bind; [apply redis_blind_client_query|]. by intros _.
Qed.

Lemma redis_blind_read_back b oid : redis_blind (read_back b oid).
Proof.
  destruct b; simpl.
  - apply redis_blind_client_query.
  - apply redis_blind_bind; [apply redis_blind_client_query|]. intros o.
    apply redis_blind_bind; [apply redis_blind_client_query|]. intros l.
    apply redis_blind_ret.
Qed.

Lemma redis_blind_createOrder b req : redis_blind (createOrder b req).
Proof.
  unfold createOrder.
  apply redis_blind_finally; [|apply redis_blind_log].
  apply redis_blind_try_catch.
  - unfold createOrder_try.
    apply redis_blind_bind; [apply redis_blind_client_query|]. intros _.
    destruct (createOrderSchema (body req)); [|apply redis_blind_ret].
    destruct (user req) as [[|uid|uid]|]; try apply redis_blind_ret.
    all: apply redis_blind_bind; [apply redis_blind_check_items|];
      intros [early|[total lines]]; [apply redis_blind_ret|];
      apply redis_blind_bind; [apply redis_blind_client_query|]; intros oid;
      apply redis_blind_bind; [apply redis_blind_write_items|]; intros _;
      apply redis_blind_bind; [apply redis_blind_client_query|]; intros _;
      apply redis_blind_bind;
        [apply redis_blind_cache_only, cache_only_invalidateProductCache|]; intros _;
      apply redis_blind_bind; [apply redis_blind_read_back|]; intros co;
      apply redis_blind_ret.
  - intros e. unfold createOrder_catch.
    apply redis_blind_bind; [apply redis_blind_client_query|]. intros _.
    apply redis_blind_bind; [apply redis_blind_log|]. intros _.
    destruct b; [apply redis_blind_ret | apply redis_blind_throw].
Qed.

(** ** A rejected invalidation is logged *)

Lemma failure_logged_quiet evs :
  Forall (fun e => is_redis e = false) evs -> failure_logged evs.
Proof.
  intros H [c Hc]. rewrite Forall_forall in H. by apply H in Hc.
Qed.

Lemma failure_logged_app e1 e2 :
  failure_logged e1 -> failure_logged e2 -> failure_logged (e1 ++ e2).
Proof.
  intros H1 H2 [c [Hc|Hc]%elem_of_app]; apply elem_of_app; [left|right]; eauto.
Qed.

Lemma adds_bind {A B} (P : list event -> Prop) (m : M A) (k : A -> M B) :
  (forall e1 e2, P e1 -> P e2 -> P (e1 ++ e2)) ->
  adds P m -> (forall a, adds P (k a)) -> adds P (bind m k).
Proof.
  intros HP Hm Hk w r w' E.
  apply bind_inv in E as [(a & w1 & E1 & E)|(e & E1 & ->)].
  - destruct (Hm _ _ _ E1) as (e1 & H1 & P1). destruct (Hk a _ _ _ E) as (e2 & H2 & P2).
    exists (e1 ++ e2). split; [by rewrite H2, H1, app_assoc | by apply HP].
  - by apply Hm in E1.
Qed.

Lemma adds_try_catch {A} (P : list event -> Prop) (m : M A) h :
  (forall e1 e2, P e1 -> P e2 -> P (e1 ++ e2)) ->
  adds P m -> (forall e, adds P (h e)) -> adds P (try_catch m h).
Proof.
  intros HP Hm Hh w r w' E. unfold try_catch in E.
  destruct (m w) as [[a|e] w1] eqn:E1.
  - injection E as <- <-. eauto.
  - destruct (Hm _ _ _ E1) as (e1 & H1 & P1). destruct (Hh e _ _ _ E) as (e2 & H2 & P2).
    exists (e1 ++ e2). split; [by rewrite H2, H1, app_assoc | by apply HP].
Qed.

Lemma adds_finally {A} (P : list event -> Prop) (m : M A) f :
  (forall e1 e2, P e1 -> P e2 -> P (e1 ++ e2)) ->
  adds P m -> adds P f -> adds P (finally m f).
Proof.
  intros HP Hm Hf w r w' E. unfold finally in E.
  destruct (m w) as [r1 w1] eqn:E1.
  destruct (Hm _ _ _ E1) as (e1 & H1 & P1).
  destruct (f w1) as [[[]|e] w2] eqn:E2; injection E as <- <-;
    destruct (Hf _ _ _ E2) as (e2 & H2 & P2);
    exists (e1 ++ e2); (split; [by rewrite H2, H1, app_assoc | by apply HP]).
Qed.

Lemma failure_logged_none evs :
  forallb (fun e => match e with Redis _ false => false | _ => true end) evs = true ->
  failure_logged evs.
Proof.
  intros H [c Hc]. rewrite forallb_forall in H.
  apply list_elem_of_In, H in Hc. discriminate.
Qed.

Lemma failure_logged_has evs :
  ConsoleError "Cache delete by pattern error:" ∈ evs -> failure_logged evs.
Proof. by intros H _. Qed.

Lemma invalidateProductCache_logs : adds failure_logged invalidateProductCache.
Proof.
  intros w r w' E.
  unfold invalidateProductCache, CacheService.delByPattern, try_catch, bind,
    redis_call, log, ret in E.
  destruct (redis_faults (redis w)) as [|[] [|[] fs]]; simpl in E;
    try destruct (redis_keys _ _); simpl in E; injection E as <- <-; simpl;
    rewrite <- ?app_assoc; (eexists; split; [reflexivity|]);
    first [ apply failure_logged_none; reflexivity
          | apply failure_logged_has; repeat constructor ].
Qed.

Lemma createOrder_logs_failure b req : adds failure_logged (createOrder b req).
Proof.
  assert (Hq : forall A (m : M A), db_only m -> adds failure_logged m).
  { intros A m. apply adds_db_only, failure_logged_quiet. }
  unfold createOrder.
  apply adds_finally; [apply failure_logged_app| |by apply Hq, db_only_log].
  apply adds_try_catch;
    [apply failure_logged_app| |intros e; apply Hq, db_only_createOrder_catch].
  unfold createOrder_try.
  apply adds_bind; [apply failure_logged_app|apply Hq, db_only_client_query|].
  intros _.
  destruct (createOrderSchema (body req)); [|apply Hq, db_only_ret].
  destruct (user req) as [[|uid|uid]|]; try apply Hq, db_only_ret.
  all: apply adds_bind; [apply failure_logged_app|apply Hq, db_only_check_items|];
    intros [early|[total lines]]; [apply Hq, db_only_ret|];
    apply adds_bind; [apply failure_logged_app|apply Hq, db_only_client_query|];
    intros oid;
    apply adds_bind; [apply failure_logged_app|apply Hq, db_only_write_items|];
    intros _;
    apply adds_bind; [apply failure_logged_app|apply Hq, db_only_client_query|];
    intros _;
    apply adds_bind; [apply failure_logged_app|apply invalidateProductCache_logs|];
    intros _;
    apply adds_bind; [apply failure_logged_app|apply Hq, db_only_read_back|];
    intros co; apply Hq, db_only_ret.
Qed.

Lemma new_events_app w w' evs :
  trace w' = trace w ++ evs -> new_events w w' = evs.
Proof. intros H. unfold new_events. by rewrite H, drop_app_length. Qed.

(** C7.  Cache invalidation runs only after COMMIT has succeeded: in the
    events of a createOrder call every cache command is preceded by an
    accepted COMMIT.  A rejected cache command is logged by the cache
    service, and neither the response nor what the call did to the
    database depends on Redis: its store and its failures cannot change
    the outcome of the order. *)
Theorem invalidation_after_commit_and_swallowed :
  (forall b req w r w' pre c ok post,
     createOrder b req w = (r, w') ->
     new_events w w' = pre ++ Redis c ok :: post ->
     Sql COMMIT true ∈ pre) /\
  (forall b req w r w',
     createOrder b req w = (r, w') -> failure_logged (new_events w w')) /\
  (forall b req conn redis1 redis2 trace1 trace2,
     let w1 := {| pg := conn; redis := redis1; trace := trace1 |} in
     let w2 := {| pg := conn; redis := redis2; trace := trace2 |} in
     fst (createOrder b req w1) = fst (createOrder b req w2) /\
     pg (snd (createOrder b req w1)) = pg (snd (createOrder b req w2))).
Proof.
  split; [|split].
  - intros b req w r w' pre c ok post E Hnew.
    destruct (createOrder_commit_first b req _ _ _ E) as (evs & Ht & Hc).
    rewrite (new_events_app _ _ _ Ht) in Hnew.
    by eapply commit_first_sound.
  - intros b req w r w' E.
    destruct (createOrder_logs_failure b req _ _ _ E) as (evs & Ht & Hl).
    by rewrite (new_events_app _ _ _ Ht).
  - intros b req conn redis1 redis2 trace1 trace2 w1 w2.
    by apply redis_blind_createOrder.
Qed.

Lemma invalidation_after_commit_and_swallowed_witness :
  let up := {| pg := pg (fresh_world shop); redis := redis (fresh_world shop);
               trace := [] |} in
  let down := {| pg := pg (fresh_world shop); redis := redis outage_world;
                 trace := [] |} in
  fst (createOrder compiled (order_request [(1, 2)]) up) =
    fst (createOrder compiled (order_request [(1, 2)]) down) /\
  pg (snd (createOrder compiled (order_request [(1, 2)]) up)) =
    pg (snd (createOrder compiled (order_request [(1, 2)]) down)).
Proof.
  exact (proj2 (proj2 invalidation_after_commit_and_swallowed) compiled
           (order_request [(1, 2)]) (pg (fresh_world shop))
           (redis (fresh_world shop)) (redis outage_world) [] []).
Defined.

(** ** The path that places the order *)

Lemma insert_order_inv uid total st addr w oid w' :
  insert_order uid total st addr w = (Ok oid, w') ->
  oid = orders_id_seq (pg w) /\ orders (db (pg w)) !! oid = None /\
  tx (pg w') = tx (pg w) /\
  products (db (pg w')) = products (db (pg w)) /\
  order_items (db (pg w')) = order_items (db (pg w)) /\
  orders (db (pg w')) =
    <[oid := {| user_id := uid; total_amount := total; status := st;
                shipping_address := addr |}]> (orders (db (pg w))).
Proof.
  intros H. run_client_query H; simpl in H; unfold exec_insert_order in H; simpl in H;
    try discriminate;
    destruct (orders (db (pg w)) !! orders_id_seq (pg w)) eqn:Eo; simpl in H;
    try discriminate; injection H as <- <-; simpl; done.
Qed.

Lemma insert_order_item_inv oid pid unit_price qty w w' :
  insert_order_item oid pid unit_price qty w = (Ok tt, w') ->
  tx (pg w') = tx (pg w) /\
  products (db (pg w')) = products (db (pg w)) /\
  orders (db (pg w')) = orders (db (pg w)) /\
  exists oi, order_items (db (pg w')) = order_items (db (pg w)) ++ [oi] /\
    oi_order_id oi = oid /\ oi_product_id oi = pid /\
    oi_unit_price oi = unit_price /\ oi_quantity oi = qty.
Proof.
  intros H. run_client_query H; simpl in H; unfold exec_insert_order_item in H;
    simpl in H; try discriminate;
    destruct (existsb _ _); simpl in H; try discriminate;
    destruct (qty <=? 0); simpl in H; try discriminate;
    injection H as <-; simpl; eauto 10.
Qed.

Lemma same_catalog_refl t : same_catalog t t.
Proof. by intros id. Qed.

Lemma same_catalog_trans t1 t2 t3 :
  same_catalog t1 t2 -> same_catalog t2 t3 -> same_catalog t1 t3.
Proof. intros H1 H2 id. by rewrite H2, H1. Qed.

Lemma update_stock_inv qty pid w w' :
  update_stock qty pid w = (Ok tt, w') ->
  tx (pg w') = tx (pg w) /\
  orders (db (pg w')) = orders (db (pg w)) /\
  order_items (db (pg w')) = order_items (db (pg w)) /\
  same_catalog (products (db (pg w))) (products (db (pg w'))).
Proof.
  intros H. run_client_query H; simpl in H; unfold exec_update_stock in H;
    simpl in H; try discriminate;
    destruct (products (db (pg w)) !! pid) as [p|] eqn:Ep; simpl in H;
    try (injection H as <-; simpl; by auto using same_catalog_refl);
    destruct (stock_quantity p - qty <? 0); simpl in H; try discriminate;
    injection H as <-; simpl; (split; [done|]); (split; [done|]); (split; [done|]);
    intros id; destruct (decide (pid = id)) as [<-|Hne];
    rewrite ?lookup_insert_eq, ?lookup_insert_ne by done; rewrite ?Ep; done.
Qed.

Lemma write_items_ok oid lines w w' :
  write_items oid lines w = (Ok tt, w') ->
  tx (pg w') = tx (pg w) /\
  orders (db (pg w')) = orders (db (pg w)) /\
  same_catalog (products (db (pg w))) (products (db (pg w'))) /\
  exists rows, order_items (db (pg w')) = order_items (db (pg w)) ++ rows /\
    Forall2 (row_of oid) lines rows.
Proof.
  revert w. induction lines as [|l rest IH]; intros w H; simpl in H.
  - injection H as <-. split; [done|]. split; [done|].
    split; [apply same_catalog_refl|]. exists []. by rewrite app_nil_r.
  - apply bind_ok_inv in H as ([] & w1 & E1 & H).
    apply bind_ok_inv in H as ([] & w2 & E2 & H).
    apply insert_order_item_inv in E1 as (Htx1 & Hp1 & Ho1 & oi & Hi1 & R1 & R2 & R3 & R4).
    apply update_stock_inv in E2 as (Htx2 & Ho2 & Hi2 & Hc2).
    apply IH in H as (Htx3 & Ho3 & Hc3 & rows & Hi3 & Hrows).
    split; [congruence|]. split; [congruence|].
    split. { rewrite <- Hp1. by eapply same_catalog_trans. }
    exists (oi :: rows). split.
    + rewrite Hi3, Hi2, Hi1, <- app_assoc. done.
    + constructor; [done|done].
Qed.

Lemma invalidateProductCache_inv w r w' :
  invalidateProductCache w = (r, w') -> r = Ok tt /\ pg w' = pg w.
Proof.
  intros E. destruct (cache_only_invalidateProductCache w) as ([] & w1 & E1 & Hpg & _).
  rewrite E1 in E. by injection E as <- <-.
Qed.













(** ** The stock after an order is placed *)

Lemma update_stock_stock qty pid w w' P p :
  update_stock qty pid w = (Ok tt, w') ->
  products (db (pg w)) !! P = Some p ->
  exists p', products (db (pg w')) !! P = Some p' /\
    stock_quantity p' = stock_quantity p - (if decide (pid = P) then qty else 0) /\
    (0 <= stock_quantity p -> 0 <= stock_quantity p').
Proof.
  intros H Hp. run_client_query H; simpl in H; unfold exec_update_stock in H;
    simpl in H; try discriminate.
  all: destruct (decide (pid = P)) as [->|Hne].
  all: try rewrite Hp in H.
  all: try (destruct (Z.ltb_spec (stock_quantity p - qty) 0); try discriminate;
            injection H as <-; simpl; rewrite lookup_insert_eq; eexists;
            split; [done|]; simpl; split; lia).
  all: destruct (products (db (pg w)) !! pid) as [q|] eqn:Eq; simpl in H;
    try (injection H as <-; simpl; exists p; split; [done|]; split; lia);
    destruct (stock_quantity q - qty <? 0); try discriminate;
    injection H as <-; simpl; rewrite lookup_insert_ne by done;
    exists p; split; [done|]; split; lia.
Qed.

Lemma write_items_stock oid lines w w' P p :
  write_items oid lines w = (Ok tt, w') ->
  products (db (pg w)) !! P = Some p ->
  exists p', products (db (pg w')) !! P = Some p' /\
    stock_quantity p' =
      stock_quantity p -
      sum_Z (map r_quantity (filter (fun r => r_productId r = P) lines)) /\
    (0 <= stock_quantity p -> 0 <= stock_quantity p').
Proof.
  revert w p. induction lines as [|l rest IH]; intros w p H Hp; simpl in H.
  - injection H as <-. exists p. split; [done|]. unfold sum_Z. simpl. split; lia.
  - apply bind_ok_inv in H as ([] & w1 & E1 & H).
    apply bind_ok_inv in H as ([] & w2 & E2 & H).
    apply insert_order_item_inv in E1 as (_ & Hp1 & _).
    rewrite <- Hp1 in Hp.
    destruct (update_stock_stock _ _ _ _ _ _ E2 Hp) as (p1 & Hp2 & Hs1 & Hpos1).
    destruct (IH _ _ H Hp2) as (p' & Hp' & Hs' & Hpos').
    exists p'. split; [done|]. split; [|tauto].
    destruct (decide (r_productId l = P)) as [Hl|Hl].
    + rewrite filter_cons_True by done. unfold sum_Z in *. simpl. lia.
    + rewrite filter_cons_False by done. lia.
Qed.

Lemma reserves_requested tbl P its lines :
  Forall2 (reserves tbl) its lines ->
  sum_Z (map r_quantity (filter (fun r => r_productId r = P) lines)) =
    Concurrent.requested P its.
Proof.
  unfold Concurrent.requested.
  induction 1 as [|item l its lines (p & _ & _ & ->) _ IH]; [done|].
  destruct (decide (productId item = P)) as [Hi|Hi].
  - rewrite !filter_cons_True by done. unfold sum_Z in *. simpl. lia.
  - rewrite !filter_cons_False by done. done.
Qed.


(** ** After the commit: what is left in the cache *)





(** ** Concurrent orders never oversell *)

Module ConcurrentOrders.
Import Concurrent.


















End ConcurrentOrders.

(** * Further properties *)

(** ** The cache service: what is read after a write *)

Lemma get_hit key w v :
  store (redis w) !! key = Some (Json v) ->
  hd false (redis_faults (redis w)) = false ->
  CacheService.get key w =
    (Ok (Some v),
     {| pg := pg w;
        redis := {| store := store (redis w);
                    redis_faults := tail (redis_faults (redis w)) |};
        trace := trace w ++ [Redis (GET key) true] |}).
Proof.
  intros Hk Hf. unfold CacheService.get, try_catch, bind, redis_call, ret.
  destruct (redis_faults (redis w)) as [|[] fs]; try discriminate; simpl;
    by rewrite Hk.
Qed.

Lemma set_accepted key value ttl w :
  hd false (redis_faults (redis w)) = false ->
  CacheService.set key value ttl w =
    (Ok tt,
     {| pg := pg w;
        redis := {| store := <[key := Json value]> (store (redis w));
                    redis_faults := tail (redis_faults (redis w)) |};
        trace := trace w ++ [Redis (SETEX key ttl) true] |}).
Proof.
  intros Hf. unfold CacheService.set, try_catch, redis_call.
  by destruct (redis_faults (redis w)) as [|[] fs].
Qed.

Lemma set_rejected key value ttl w :
  hd false (redis_faults (redis w)) = true ->
  CacheService.set key value ttl w =
    (Ok tt,
     {| pg := pg w;
        redis := {| store := store (redis w);
                    redis_faults := tail (redis_faults (redis w)) |};
        trace := trace w ++ [Redis (SETEX key ttl) false;
                             ConsoleError "Cache set error:"] |}).
Proof.
  intros Hf. unfold CacheService.set, try_catch, redis_call, log.
  destruct (redis_faults (redis w)) as [|[] fs]; try discriminate. simpl.
  by rewrite <- app_assoc.
Qed.

Lemma get_parsed key w :
  hd false (redis_faults (redis w)) = false ->
  exists w', CacheService.get key w = (Ok (parsed (store (redis w) !! key)), w') /\
    pg w' = pg w /\ store (redis w') = store (redis w) /\
    redis_faults (redis w') = tail (redis_faults (redis w)).
Proof.
  intros Hf. unfold CacheService.get, try_catch, bind, redis_call, ret, throw, log.
  destruct (redis_faults (redis w)) as [|[] fs]; try discriminate; simpl;
    destruct (store (redis w) !! key) as [[v|[|c text]]|]; simpl; eauto.
Qed.

(** X1.  An entry written by [set] is what the next [get] of that key
    returns, whatever the key held before, when Redis accepts the two
    commands; when Redis rejects the SETEX, [set] still returns normally
    and the next [get] returns what the key held before the call. *)
Theorem cache_get_after_set key value ttl w :
  (no_fault 2 (redis_faults (redis w)) = true ->
   exists w1 w2,
     CacheService.set key value ttl w = (Ok tt, w1) /\
     CacheService.get key w1 = (Ok (Some value), w2) /\
     store (redis w2) = <[key := Json value]> (store (redis w))) /\
  (hd false (redis_faults (redis w)) = true ->
   no_fault 1 (tail (redis_faults (redis w))) = true ->
   exists w1 w2,
     CacheService.set key value ttl w = (Ok tt, w1) /\
     CacheService.get key w1 = (Ok (parsed (store (redis w) !! key)), w2) /\
     store (redis w2) = store (redis w) /\
     ConsoleError "Cache set error:" ∈ new_events w w1).
Proof.
  split.
  - intros [H1 [H2 _]%no_fault_S]%no_fault_S.
    rewrite (set_accepted _ _ _ _ H1). eexists. eexists. split; [done|].
    rewrite (get_hit key _ value); [done| |done].
    simpl. apply lookup_insert_eq.
  - intros H1 [H2 _]%no_fault_S.
    rewrite (set_rejected _ _ _ _ H1).
    match goal with |- context [(Ok tt, ?w1)] =>
      destruct (get_parsed key w1 H2) as (w2 & E & _ & Hst & _) end.
    eexists. exists w2. split; [done|]. split; [exact E|]. split; [exact Hst|].
    unfold new_events. simpl. rewrite drop_app_length. set_solver.
Qed.

Lemma cache_get_after_set_witness :
  exists w1 w2,
    CacheService.set "products:1:12:all:none" stale_listing 60 (fresh_world shop) =
      (Ok tt, w1) /\
    CacheService.get "products:1:12:all:none" w1 = (Ok (Some stale_listing), w2) /\
    store (redis w2) =
      <["products:1:12:all:none" := Json stale_listing]>
        (store (redis (fresh_world shop))).
Proof.
  apply (proj1 (cache_get_after_set "products:1:12:all:none" stale_listing 60
                  (fresh_world shop))).
  reflexivity.
Defined.

(** ** The cache service: what a deletion removes *)

Lemma redis_del_lookup keys (st : gmap string cached) k :
  redis_del keys st !! k = if decide (k ∈ keys) then None else st !! k.
Proof.
  destruct (decide (k ∈ keys)) as [Hin|Hout]; [by apply redis_del_lookup_in|].
  induction keys as [|k' keys IH]; [done|]. simpl.
  apply not_elem_of_cons in Hout as [Hne Hout].
  rewrite lookup_delete_ne by done. by apply IH.
Qed.

(** X2.  [delMultiple] removes the keys it is given and no other; with an
    empty list it sends no command at all, so that Redis is never asked to
    DEL nothing; and when Redis rejects the DEL every entry stays.  [del]
    behaves as [delMultiple] on its one key. *)
Theorem cache_delMultiple_removes_exactly keys w :
  (keys = [] -> CacheService.delMultiple keys w = (Ok tt, w)) /\
  (forall k,
     store (redis (snd (CacheService.delMultiple keys w))) !! k =
       if hd false (redis_faults (redis w)) then store (redis w) !! k
       else if decide (k ∈ keys) then None else store (redis w) !! k) /\
  (forall key,
     store (redis (snd (CacheService.del key w))) =
     store (redis (snd (CacheService.delMultiple [key] w)))).
Proof.
  split; [by intros ->|]. split.
  - intros k. unfold CacheService.delMultiple, try_catch, redis_call, log, ret.
    destruct keys as [|k0 keys].
    + simpl. by destruct (hd false _).
    + destruct (redis_faults (redis w)) as [|[] fs]; simpl; try done;
        apply (redis_del_lookup (k0 :: keys)).
  - intros key. unfold CacheService.del, CacheService.delMultiple, try_catch,
      redis_call, log.
    by destruct (redis_faults (redis w)) as [|[] fs].
Qed.

Lemma delByPattern_spares pattern w k :
  glob pattern k = false ->
  store (redis (snd (CacheService.delByPattern pattern w))) !! k =
    store (redis w) !! k.
Proof.
  intros Hk. unfold CacheService.delByPattern, try_catch, bind, redis_call, log, ret.
  assert (Hout : k ∉ redis_keys pattern (store (redis w))).
  { intros [Hg _]%redis_keys_elem. congruence. }
  assert (Hdel : forall keys, k ∉ keys ->
            redis_del keys (store (redis w)) !! k = store (redis w) !! k).
  { intros keys Hk'. rewrite redis_del_lookup. by destruct (decide _). }
  destruct (redis_faults (redis w)) as [|[] [|[] fs]]; simpl; try done;
    destruct (redis_keys pattern (store (redis w))) as [|k0 ks] eqn:Eks; simpl;
    try done; exact (Hdel (k0 :: ks) Hout).
Qed.

(** X3.  [delByPattern] is exact: whatever Redis does, an entry whose key
    does not match the pattern is left as it is; when Redis accepts the
    KEYS and the DEL, no entry whose key matches is left; and when no key
    matches, KEYS is the only command sent. *)
Theorem cache_delByPattern_removes_exactly pattern w :
  (forall k, glob pattern k = false ->
     store (redis (snd (CacheService.delByPattern pattern w))) !! k =
       store (redis w) !! k) /\
  (no_fault 2 (redis_faults (redis w)) = true ->
   forall k, glob pattern k = true ->
     store (redis (snd (CacheService.delByPattern pattern w))) !! k = None) /\
  (hd false (redis_faults (redis w)) = false ->
   redis_keys pattern (store (redis w)) = [] ->
   new_events w (snd (CacheService.delByPattern pattern w)) =
     [Redis (KEYS pattern) true]).
Proof.
  split; [intros k; apply delByPattern_spares|]. split.
  - intros Hf k Hk. by apply delByPattern_clears.
  - intros Hf Hnil.
    unfold CacheService.delByPattern, try_catch, bind, redis_call, log, ret, new_events.
    destruct (redis_faults (redis w)) as [|[] fs]; try discriminate; simpl;
      rewrite Hnil; simpl; by rewrite drop_app_length.
Qed.

Lemma cache_delByPattern_removes_exactly_witness :
  store (redis warm_world) !! "products:1:12:all:none" = Some (Json stale_listing) /\
  store (redis (snd (CacheService.delByPattern "products:*" warm_world)))
    !! "products:1:12:all:none" = None.
Proof.
  split; [reflexivity|].
  apply (proj1 (proj2 (cache_delByPattern_removes_exactly "products:*" warm_world)));
    reflexivity.
Defined.

(** ** The order handler and the rest of the cache *)

Lemma spares_db_only {A} keep (m : M A) : db_only m -> spares keep m.
Proof. intros Hm w r w' k E _. destruct (Hm _ _ _ E) as [-> _]. done. Qed.

Lemma spares_bind {A B} keep (m : M A) (k : A -> M B) :
  spares keep m -> (forall a, spares keep (k a)) -> spares keep (bind m k).
Proof.
  intros Hm Hk w r w' key E Hkey.
  apply bind_inv in E as [(a & w1 & E1 & E)|(e & E1 & ->)].
  - rewrite (Hk a _ _ _ _ E Hkey). by eapply Hm.
  - by eapply Hm.
Qed.

Lemma spares_try_catch {A} keep (m : M A) h :
  spares keep m -> (forall e, spares keep (h e)) -> spares keep (try_catch m h).
Proof.
  intros Hm Hh w r w' key E Hkey. unfold try_catch in E.
  destruct (m w) as [[a|e] w1] eqn:E1.
  - injection E as <- <-. by eapply Hm.
  - rewrite (Hh e _ _ _ _ E Hkey). by eapply Hm.
Qed.

Lemma spares_finally {A} keep (m : M A) f :
  spares keep m -> spares keep f -> spares keep (finally m f).
Proof.
  intros Hm Hf w r w' key E Hkey. unfold finally in E.
  destruct (m w) as [r1 w1] eqn:E1.
  destruct (f w1) as [[[]|e] w2] eqn:E2; injection E as <- <-;
    rewrite (Hf _ _ _ _ E2 Hkey); by eapply Hm.
Qed.

Lemma spares_invalidateProductCache :
  spares (fun k => glob "products:*" k = false) invalidateProductCache.
Proof.
  intros w r w' k E Hk. unfold invalidateProductCache, try_catch in E.
  destruct (cache_only_delByPattern "products:*" w) as ([] & w1 & E1 & _).
  rewrite E1 in E. injection E as <- <-.
  rewrite <- (delByPattern_spares "products:*" w k Hk). by rewrite E1.
Qed.

(** X4.  Whatever its outcome and whatever PostgreSQL and Redis do,
    [createOrder] leaves every cache entry outside the products: namespace
    as it is: its invalidation cannot remove what another part of the
    site keeps in Redis. *)
Theorem createOrder_spares_foreign_cache_entries b req w k :
  glob "products:*" k = false ->
  store (redis (snd (createOrder b req w))) !! k = store (redis w) !! k.
Proof.
  intros Hk.
  set (keep := fun k => glob "products:*" k = false).
  assert (Hq : forall A (m : M A), db_only m -> spares keep m)
    by (intros A m; apply spares_db_only).
  assert (H : spares keep (createOrder b req)).
  { unfold createOrder.
    apply spares_finally; [|by apply Hq, db_only_log].
    apply spares_try_catch; [|intros e; apply Hq, db_only_createOrder_catch].
    unfold createOrder_try.
    apply spares_bind; [apply Hq, db_only_client_query|]. intros _.
    destruct (createOrderSchema (body req)); [|apply Hq, db_only_ret].
    destruct (user req) as [[|uid|uid]|]; try apply Hq, db_only_ret.
    all: apply spares_bind; [apply Hq, db_only_check_items|];
      intros [early|[total lines]]; [apply Hq, db_only_ret|];
      apply spares_bind; [apply Hq, db_only_client_query|]; intros oid;
      apply spares_bind; [apply Hq, db_only_write_items|]; intros _;
      apply spares_bind; [apply Hq, db_only_client_query|]; intros _;
      apply spares_bind; [apply spares_invalidateProductCache|]; intros _;
      apply spares_bind; [apply Hq, db_only_read_back|];
      intros co; apply Hq, db_only_ret. }
  destruct (createOrder b req w) as [r w'] eqn:E. by apply (H w r w' k E).
Qed.

Lemma createOrder_spares_foreign_cache_entries_witness :
  let w := snd (CacheService.set "session:7" stale_listing 60 warm_world) in
  store (redis w) !! "session:7" = Some (Json stale_listing) /\
  store (redis (snd (createOrder compiled (order_request [(1, 2)]) w))) !! "session:7" =
    store (redis w) !! "session:7".
Proof.
  intros w. split; [reflexivity|].
  apply (createOrder_spares_foreign_cache_entries compiled (order_request [(1, 2)])
           w "session:7").
  reflexivity.
Defined.

(** ** The listing route and its cache *)

Lemma products_get_hit_events select_rows count_rows q w v :
  store (redis w) !! cacheKey q = Some (Json v) ->
  hd false (redis_faults (redis w)) = false ->
  products_get select_rows count_rows q w =
    (Ok (ListingOk v),
     {| pg := pg w;
        redis := {| store := store (redis w);
                    redis_faults := tail (redis_faults (redis w)) |};
        trace := trace w ++ [Redis (GET (cacheKey q)) true] |}).
Proof.
  intros Hk Hf. unfold products_get, try_catch. unfold bind at 1.
  by rewrite (get_hit _ _ v Hk Hf).
Qed.

Lemma listing_hit_skips_database_aux select_rows count_rows q w v :
  store (redis w) !! cacheKey q = Some (Json v) ->
  hd false (redis_faults (redis w)) = false ->
  exists w', products_get select_rows count_rows q w = (Ok (ListingOk v), w') /\
    pg w' = pg w /\ store (redis w') = store (redis w) /\
    redis_faults (redis w') = tail (redis_faults (redis w)).
Proof.
  intros Hk Hf. rewrite (products_get_hit_events _ _ _ _ v Hk Hf). by eexists.
Qed.

(** X5.  A listing request whose key holds a cached page is answered with
    that page as it is, whatever the products table holds by now: the
    route sends the one GET and no statement to PostgreSQL. *)
Theorem listing_hit_skips_database select_rows count_rows q w v :
  store (redis w) !! cacheKey q = Some (Json v) ->
  hd false (redis_faults (redis w)) = false ->
  exists w', products_get select_rows count_rows q w = (Ok (ListingOk v), w') /\
    pg w' = pg w /\ store (redis w') = store (redis w) /\
    new_events w w' = [Redis (GET (cacheKey q)) true].
Proof.
  intros Hk Hf. rewrite (products_get_hit_events _ _ _ _ v Hk Hf).
  eexists. split; [reflexivity|]. simpl.
  unfold new_events. simpl. by rewrite drop_app_length.
Qed.

Lemma listing_hit_skips_database_witness :
  exists w', products_get all_rows count_all default_query warm_world =
      (Ok (ListingOk stale_listing), w') /\
    pg w' = pg warm_world /\ store (redis w') = store (redis warm_world) /\
    new_events warm_world w' = [Redis (GET (cacheKey default_query)) true].
Proof.
  apply (listing_hit_skips_database all_rows count_all default_query warm_world
           stale_listing); reflexivity.
Defined.

(** A request that finds no page to parse under its key, with PostgreSQL
    and Redis accepting what it sends: the answer comes from the durable
    tables and is stored under the key. *)
Lemma products_get_miss_run select_rows count_rows q w :
  parsed (store (redis w) !! cacheKey q) = None ->
  no_fault 2 (pg_faults (pg w)) = true ->
  no_fault 2 (redis_faults (redis w)) = true ->
  exists w',
    products_get select_rows count_rows q w =
      (Ok (ListingOk (listing_of select_rows count_rows (products (durable (pg w))) q)),
       w') /\
    store (redis w') =
      <[cacheKey q :=
          Json (listing_of select_rows count_rows (products (durable (pg w))) q)]>
        (store (redis w)) /\
    redis_faults (redis w') = tail (tail (redis_faults (redis w))) /\
    same_tables (pg w) (pg w') /\
    pg_faults (pg w') = tail (tail (pg_faults (pg w))).
Proof.
  intros Hmiss Hpg [H1 [H2 _]%no_fault_S]%no_fault_S.
  unfold products_get, try_catch. unfold bind at 1.
  destruct (get_parsed (cacheKey q) w H1) as (w1 & -> & Hpg1 & Hst1 & Hf1).
  rewrite Hmiss.
  destruct (fetch_listing_accept select_rows count_rows q w1) as (w2 & E2 & Hs2 & Hr2);
    [by rewrite Hpg1|].
  unfold bind at 1. rewrite E2.
  assert (Hpf : pg_faults (pg w2) = tail (tail (pg_faults (pg w)))).
  { clear -E2 Hpg Hpg1. unfold fetch_listing, bind, pool_query, ret in E2.
    rewrite Hpg1 in E2.
    destruct (pg_faults (pg w)) as [|[] [|[] fs]]; try discriminate;
      simpl in E2; apply (f_equal snd) in E2; simpl in E2; by subst w2. }
  unfold bind.
  rewrite set_accepted by (by rewrite Hr2, Hf1). simpl.
  eexists. split; [by rewrite Hpg1|]. simpl.
  rewrite Hr2, Hst1, Hf1. split; [done|]. split; [done|].
  split; [by rewrite <- Hpg1|done].
Qed.

(** X6.  Of two identical listing requests in a row the second is served
    from the cache: it gets the page the first one returned and sends
    nothing to PostgreSQL; this holds whether the first request found its
    page in the cache or fetched and stored it. *)
Theorem listing_repeated_request_hits_cache select_rows count_rows q w :
  no_fault 2 (pg_faults (pg w)) = true ->
  no_fault 3 (redis_faults (redis w)) = true ->
  exists l w1 w2,
    products_get select_rows count_rows q w = (Ok (ListingOk l), w1) /\
    products_get select_rows count_rows q w1 = (Ok (ListingOk l), w2) /\
    pg w2 = pg w1 /\ new_events w1 w2 = [Redis (GET (cacheKey q)) true].
Proof.
  intros Hpg Hr.
  destruct (no_fault_S _ _ Hr) as [H1 Hr2].
  destruct (no_fault_S _ _ Hr2) as [H2 Hr3].
  destruct (no_fault_S _ _ Hr3) as [H3 _].
  destruct (parsed (store (redis w) !! cacheKey q)) as [v|] eqn:Ep.
  - assert (Hk : store (redis w) !! cacheKey q = Some (Json v)).
    { destruct (store (redis w) !! cacheKey q) as [[]|]; simpl in Ep; congruence. }
    destruct (listing_hit_skips_database_aux select_rows count_rows q w v Hk H1)
      as (w1 & E1 & _ & Hst & Hfs).
    assert (Hk1 : store (redis w1) !! cacheKey q = Some (Json v)) by (by rewrite Hst).
    assert (Hf1 : hd false (redis_faults (redis w1)) = false) by (by rewrite Hfs).
    destruct (listing_hit_skips_database_aux select_rows count_rows q w1 v Hk1 Hf1)
      as (w2 & E2 & Hpg2 & _ & _).
    exists v, w1, w2. split; [done|]. split; [done|]. split; [done|].
    rewrite (products_get_hit_events select_rows count_rows q w1 v Hk1 Hf1) in E2.
    injection E2 as <-. unfold new_events. simpl. by rewrite drop_app_length.
  - destruct (products_get_miss_run select_rows count_rows q w Ep Hpg)
      as (w1 & E1 & Hst & Hfs & _ & _).
    { by apply (no_fault_le 2 3); [lia|]. }
    set (l := listing_of select_rows count_rows (products (durable (pg w))) q) in *.
    assert (Hk1 : store (redis w1) !! cacheKey q = Some (Json l))
      by (rewrite Hst; apply lookup_insert_eq).
    assert (Hf1 : hd false (redis_faults (redis w1)) = false) by (by rewrite Hfs).
    destruct (listing_hit_skips_database_aux select_rows count_rows q w1 l Hk1 Hf1)
      as (w2 & E2 & Hpg2 & _ & _).
    exists l, w1, w2. split; [done|]. split; [done|]. split; [done|].
    rewrite (products_get_hit_events select_rows count_rows q w1 l Hk1 Hf1) in E2.
    injection E2 as <-. unfold new_events. simpl. by rewrite drop_app_length.
Qed.

Lemma listing_repeated_request_hits_cache_witness :
  exists l w1 w2,
    products_get all_rows count_all default_query (fresh_world shop) =
      (Ok (ListingOk l), w1) /\
    products_get all_rows count_all default_query w1 = (Ok (ListingOk l), w2) /\
    pg w2 = pg w1 /\
    new_events w1 w2 = [Redis (GET (cacheKey default_query)) true].
Proof.
  apply (listing_repeated_request_hits_cache all_rows count_all default_query
           (fresh_world shop)); reflexivity.
Defined.

Lemma cacheKey_searching_none q :
  q_search q = None -> cacheKey (searching "none" q) = cacheKey q.
Proof. intros H. unfold cacheKey, page_of, limit_of. simpl. by rewrite H. Qed.

Lemma cacheKey_in_category_0 q :
  q_category q = None -> cacheKey (in_category 0 q) = cacheKey q.
Proof. intros H. unfold cacheKey, page_of, limit_of. simpl. by rewrite H. Qed.

(** X7.  The cache key does not tell every request from every other: a
    request that searches for the word none has the key of the same
    request without a search term, and a request for category 0 has the
    key of the same request without a category, although the statements
    they would send filter the rows.  So once the unfiltered page is
    cached, the filtered request is answered with the unfiltered page,
    after the one GET and with no statement sent to PostgreSQL. *)
Theorem listing_key_confuses_filtered_requests select_rows count_rows q w :
  parsed (store (redis w) !! cacheKey q) = None ->
  no_fault 2 (pg_faults (pg w)) = true ->
  no_fault 3 (redis_faults (redis w)) = true ->
  let unfiltered := listing_of select_rows count_rows (products (durable (pg w))) q in
  exists w1,
    products_get select_rows count_rows q w = (Ok (ListingOk unfiltered), w1) /\
    (q_search q = None ->
     search_param (searching "none" q) = Some "none" /\ search_param q = None /\
     fst (products_get select_rows count_rows (searching "none" q) w1) =
       Ok (ListingOk unfiltered) /\
     new_events w1 (snd (products_get select_rows count_rows (searching "none" q) w1)) =
       [Redis (GET (cacheKey q)) true]) /\
    (q_category q = None ->
     fst (products_get select_rows count_rows (in_category 0 q) w1) =
       Ok (ListingOk unfiltered) /\
     new_events w1 (snd (products_get select_rows count_rows (in_category 0 q) w1)) =
       [Redis (GET (cacheKey q)) true]).
Proof.
  intros Hmiss Hpg Hr unfiltered.
  destruct (no_fault_S _ _ Hr) as [H1 Hr2].
  destruct (no_fault_S _ _ Hr2) as [H2 Hr3].
  destruct (no_fault_S _ _ Hr3) as [H3 _].
  destruct (products_get_miss_run select_rows count_rows q w Hmiss Hpg)
    as (w1 & E1 & Hst & Hfs & _ & _).
  { by apply (no_fault_le 2 3); [lia|]. }
  exists w1. split; [done|].
  assert (Hf1 : hd false (redis_faults (redis w1)) = false) by (by rewrite Hfs).
  assert (Hhit : forall q', cacheKey q' = cacheKey q ->
            fst (products_get select_rows count_rows q' w1) = Ok (ListingOk unfiltered) /\
            new_events w1 (snd (products_get select_rows count_rows q' w1)) =
              [Redis (GET (cacheKey q)) true]).
  { intros q' Hkey.
    rewrite (products_get_hit_events select_rows count_rows q' w1 unfiltered);
      [|rewrite Hkey, Hst; apply lookup_insert_eq|done].
    split; [done|]. unfold new_events. simpl. by rewrite drop_app_length, Hkey. }
  split.
  - intros Hs. split; [done|]. split; [unfold search_param; by rewrite Hs|].
    by apply Hhit, cacheKey_searching_none.
  - intros Hc. by apply Hhit, cacheKey_in_category_0.
Qed.

Lemma listing_key_confuses_filtered_requests_witness :
  let unfiltered := listing_of rows_named count_named (products shop) default_query in
  l_items unfiltered = [(2, book); (1, mug)] /\
  l_items (listing_of rows_named count_named (products shop)
             (searching "none" default_query)) = [] /\
  exists w1,
    products_get rows_named count_named default_query (fresh_world shop) =
      (Ok (ListingOk unfiltered), w1) /\
    fst (products_get rows_named count_named (searching "none" default_query) w1) =
      Ok (ListingOk unfiltered).
Proof.
  intros unfiltered. split; [reflexivity|]. split; [reflexivity|].
  destruct (listing_key_confuses_filtered_requests rows_named count_named
              default_query (fresh_world shop)) as (w1 & E1 & Hs & _);
    [reflexivity|reflexivity|reflexivity|].
  exists w1. split; [exact E1|]. apply Hs. reflexivity.
Defined.

(** X8.  An entry that JSON.parse rejects does not stay in the way: the
    request that meets it is answered from the durable tables and puts the
    page it built in the entry's place. *)
Theorem listing_replaces_unreadable_entry select_rows count_rows q w text :
  store (redis w) !! cacheKey q = Some (Garbage text) ->
  no_fault 2 (pg_faults (pg w)) = true ->
  no_fault 2 (redis_faults (redis w)) = true ->
  let fresh := listing_of select_rows count_rows (products (durable (pg w))) q in
  exists w',
    products_get select_rows count_rows q w = (Ok (ListingOk fresh), w') /\
    store (redis w') !! cacheKey q = Some (Json fresh).
Proof.
  intros Hk Hpg Hr fresh.
  destruct (products_get_miss_run select_rows count_rows q w) as (w' & E & Hst & _);
    [by rewrite Hk|done|done|].
  exists w'. split; [done|]. rewrite Hst. apply lookup_insert_eq.
Qed.

Lemma listing_replaces_unreadable_entry_witness :
  let fresh := listing_of all_rows count_all (products shop) default_query in
  exists w',
    products_get all_rows count_all default_query garbled_world =
      (Ok (ListingOk fresh), w') /\
    store (redis w') !! cacheKey default_query = Some (Json fresh).
Proof.
  apply (listing_replaces_unreadable_entry all_rows count_all default_query
           garbled_world "<html>"); reflexivity.
Defined.

Lemma limit_of_bounds q : 1 <= limit_of q <= 50.
Proof. unfold limit_of. lia. Qed.

Lemma page_of_bounds q : 1 <= page_of q.
Proof. unfold page_of. lia. Qed.

Lemma offset_of_bounds q : 0 <= offset_of q.
Proof.
  unfold offset_of. pose proof (limit_of_bounds q). pose proof (page_of_bounds q). nia.
Qed.

Lemma get_runs q' key w :
  exists a evs w1,
    CacheService.get key w = (Ok a, w1) /\ pg w1 = pg w /\
    store (redis w1) = store (redis w) /\
    trace w1 = trace w ++ evs /\ Forall (listing_statement q') evs.
Proof.
  unfold CacheService.get, try_catch, bind, redis_call, ret, throw, log.
  destruct (redis_faults (redis w)) as [|[] rfs]; simpl;
    try destruct (store (redis w) !! key) as [[v|[|c text]]|]; simpl;
    do 3 eexists; (split; [reflexivity|]); simpl; rewrite <- ?app_assoc;
    (split; [reflexivity|]); (split; [reflexivity|]); (split; [reflexivity|]);
    by repeat constructor.
Qed.

Lemma set_runs q' key value ttl w :
  exists evs w1,
    CacheService.set key value ttl w = (Ok tt, w1) /\ pg w1 = pg w /\
    trace w1 = trace w ++ evs /\ Forall (listing_statement q') evs.
Proof.
  unfold CacheService.set, try_catch, redis_call, log.
  destruct (redis_faults (redis w)) as [|[] rfs]; simpl;
    do 2 eexists; (split; [reflexivity|]); simpl; rewrite <- ?app_assoc;
    (split; [reflexivity|]); (split; [reflexivity|]); by repeat constructor.
Qed.

Lemma fetch_listing_runs select_rows count_rows q w r w' :
  fetch_listing select_rows count_rows q w = (r, w') ->
  redis w' = redis w /\
  exists evs, trace w' = trace w ++ evs /\ Forall (listing_statement q) evs /\
    forall e, r = Throw e -> exists s, Sql s false ∈ evs.
Proof.
  assert (Hsel : forall ok, listing_statement q
            (Sql (SelectListing (q_category q) (search_param q) (limit_of q)
                    (offset_of q)) ok)).
  { intros ok. right. exists (limit_of q), (offset_of q). split; [done|].
    split; [apply limit_of_bounds|]. split; [apply offset_of_bounds|done]. }
  assert (Hcnt : forall ok, listing_statement q
            (Sql (CountListing (q_category q) (search_param q)) ok))
    by (intros ok; by left).
  unfold fetch_listing, pool_query, bind, ret. intros H.
  destruct (pg_faults (pg w)) as [|[] [|[] pfs]]; simpl in H; injection H as <- <-;
    simpl; (split; [reflexivity|]); rewrite <- ?app_assoc;
    (eexists; split; [reflexivity|]);
    (split; [simpl; repeat (apply Forall_cons_2; [by auto|]); apply Forall_nil_2|]);
    intros e He; try discriminate; simpl; eexists; repeat constructor.
Qed.

Lemma products_get_runs select_rows count_rows q w :
  exists resp evs w',
    products_get select_rows count_rows q w = (Ok resp, w') /\
    trace w' = trace w ++ evs /\
    Forall (listing_statement q) evs /\
    (resp = ListingFailed ->
     store (redis w') = store (redis w) /\ exists s, Sql s false ∈ evs).
Proof.
  unfold products_get, try_catch. unfold bind at 1.
  destruct (get_runs q (cacheKey q) w) as (a & e1 & w1 & -> & Hpg1 & Hst1 & Ht1 & Q1).
  destruct a as [cached|].
  { exists (ListingOk cached), e1, w1. by repeat split. }
  unfold bind at 1.
  destruct (fetch_listing select_rows count_rows q w1) as [[l|e] w2] eqn:E2;
    destruct (fetch_listing_runs _ _ _ _ _ _ E2) as (Hr2 & e2 & Ht2 & Q2 & Hrej).
  - destruct (set_runs q (cacheKey q) l 60 w2) as (e3 & w3 & E3 & _ & Ht3 & Q3).
    unfold bind. rewrite E3. exists (ListingOk l), (e1 ++ e2 ++ e3), w3.
    split; [done|]. split; [by rewrite Ht3, Ht2, Ht1, <- !app_assoc|].
    split; [by repeat apply Forall_app_2|done].
  - unfold bind, log, ret. simpl.
    destruct (Hrej e eq_refl) as [s Hs].
    exists ListingFailed, (e1 ++ e2 ++ [ConsoleError "GET /api/products failed:"]).
    eexists. split; [reflexivity|]. simpl.
    split; [by rewrite Ht2, Ht1, <- !app_assoc|]. split.
    + repeat apply Forall_app_2; try done. by repeat constructor.
    + intros _. split; [by rewrite Hr2|]. exists s.
      apply elem_of_app. right. apply elem_of_app. by left.
Qed.

(** X9.  A listing request answers 500 only after PostgreSQL has rejected
    one of its statements, and then it stores nothing: no entry of the
    cache is written or changed by a request that failed. *)
Theorem listing_failure_caches_nothing select_rows count_rows q w w' :
  products_get select_rows count_rows q w = (Ok ListingFailed, w') ->
  store (redis w') = store (redis w) /\
  exists s, Sql s false ∈ new_events w w'.
Proof.
  intros E.
  destruct (products_get_runs select_rows count_rows q w)
    as (resp & evs & w1 & E1 & Ht & _ & Hfail).
  rewrite E1 in E. injection E as -> ->.
  rewrite (new_events_app _ _ _ Ht). by apply Hfail.
Qed.

Lemma listing_failure_caches_nothing_witness :
  let w := with_faults [false; true] [] (fresh_world shop) in
  let w' := snd (products_get all_rows count_all default_query w) in
  store (redis w') = store (redis w) /\
  exists s, Sql s false ∈ new_events w w'.
Proof.
  intros w w'.
  apply (listing_failure_caches_nothing all_rows count_all default_query w w').
  reflexivity.
Defined.

(** X10.  The listing route never throws, and whatever page and limit the
    request asks for, what it sends to PostgreSQL is the count and the
    select of its filter, the select with a LIMIT between 1 and 50 and the
    OFFSET (page - 1) * limit, which is never negative. *)
Theorem listing_statements_are_bounded select_rows count_rows q w :
  exists resp w',
    products_get select_rows count_rows q w = (Ok resp, w') /\
    Forall (listing_statement q) (new_events w w') /\
    1 <= page_of q /\ 1 <= limit_of q <= 50 /\ 0 <= offset_of q.
Proof.
  destruct (products_get_runs select_rows count_rows q w)
    as (resp & evs & w' & E & Ht & Hq & _).
  exists resp, w'. split; [done|]. rewrite (new_events_app _ _ _ Ht).
  split; [done|]. split; [apply page_of_bounds|].
  split; [apply limit_of_bounds|apply offset_of_bounds].
Qed.

(** ** Every run of the order handler *)

Lemma durable_in_tx c c' :
  tx c' = tx c -> is_Some (tx c) -> durable c' = durable c.
Proof. intros H [snapshot Hs]. unfold durable. by rewrite H, Hs. Qed.

Lemma insert_order_tx uid total st addr w r w' :
  insert_order uid total st addr w = (r, w') -> tx (pg w') = tx (pg w).
Proof.
  intros H. run_client_query H; simpl in H; unfold exec_insert_order in H; simpl in H;
    try (injection H as <- <-; by simpl);
    destruct (orders (db (pg w)) !! orders_id_seq (pg w)); simpl in H;
    injection H as <- <-; by simpl.
Qed.

Lemma insert_order_item_tx oid pid unit_price qty w r w' :
  insert_order_item oid pid unit_price qty w = (r, w') -> tx (pg w') = tx (pg w).
Proof.
  intros H. run_client_query H; simpl in H; unfold exec_insert_order_item in H;
    simpl in H; try (injection H as <- <-; by simpl);
    destruct (existsb _ _); simpl in H; try (injection H as <- <-; by simpl);
    destruct (qty <=? 0); simpl in H; injection H as <- <-; by simpl.
Qed.

Lemma update_stock_tx qty pid w r w' :
  update_stock qty pid w = (r, w') -> tx (pg w') = tx (pg w).
Proof.
  intros H. run_client_query H; simpl in H; unfold exec_update_stock in H;
    simpl in H; try (injection H as <- <-; by simpl);
    destruct (products (db (pg w)) !! pid) as [p|]; simpl in H;
    try (injection H as <- <-; by simpl);
    destruct (stock_quantity p - qty <? 0); simpl in H;
    injection H as <- <-; by simpl.
Qed.

Lemma write_items_tx oid lines w r w' :
  write_items oid lines w = (r, w') -> tx (pg w') = tx (pg w).
Proof.
  revert w. induction lines as [|l rest IH]; intros w H; simpl in H.
  - by injection H as <- <-.
  - apply bind_inv in H as [([] & w1 & E1 & H)|(e & E1 & ->)].
    + apply insert_order_item_tx in E1.
      apply bind_inv in H as [([] & w2 & E2 & H)|(e & E2 & ->)].
      * apply update_stock_tx in E2. apply IH in H. congruence.
      * apply update_stock_tx in E2. congruence.
    + by apply insert_order_item_tx in E1.
Qed.

Lemma check_items_durable its total acc w r w' :
  check_items its total acc w = (r, w') -> durable (pg w') = durable (pg w).
Proof.
  revert total acc w. induction its as [|item rest IH]; intros total acc w H; simpl in H.
  - by injection H as <- <-.
  - apply bind_inv in H as [(v & w1 & E1 & H)|(e & E1 & ->)].
    + destruct (select_product_inv _ _ _ _ E1) as [(Hdb & Htx & _) _].
      assert (Hd : durable (pg w1) = durable (pg w))
        by (unfold durable; by rewrite Hdb, Htx).
      assert (Hrb : forall (resp : response) r0 w0,
                bind rollback (fun _ => ret (inl resp)) w1 =
                  ((r0 : result (response + Z * list reserved_line)), w0) ->
                durable (pg w0) = durable (pg w)).
      { intros resp r0 w0 Hr.
        apply bind_inv in Hr as [([] & w2 & E2 & Hr)|(e & E2 & ->)].
        - injection Hr as <- <-.
          destruct (rollback_inv _ _ _ E2) as (_ & _ & Hr1 & Hr2).
          unfold durable at 1. rewrite Hr2. congruence.
        - destruct (rollback_inv _ _ _ E2) as (_ & _ & Hr1 & Hr2).
          unfold durable at 1. rewrite Hr2, Hr1. exact Hd. }
      destruct v as [p|]; [|by eapply Hrb].
      destruct (stock_quantity p <? quantity item); [by eapply Hrb|].
      apply IH in H. congruence.
    + destruct (select_product_inv _ _ _ _ E1) as [(Hdb & Htx & _) _].
      unfold durable. by rewrite Hdb, Htx.
Qed.

Lemma read_back_same_tables b oid w r w' :
  read_back b oid w = (r, w') -> same_tables (pg w) (pg w').
Proof.
  intros H. destruct b; simpl in H.
  - run_client_query H; simpl in H; try (injection H as <- <-; by repeat split);
      unfold exec_select_complete_order in H;
      destruct (orders _ !! _); try destruct (joined_lines _ _);
      injection H as <- <-; by repeat split.
  - assert (Hh : forall u r0 u', client_query (SelectOrderHeader oid)
                   (exec_select_order_header oid) u = (r0, u') ->
                 same_tables (pg u) (pg u')).
    { intros u r0 u' E. run_client_query E; simpl in E; injection E as <- <-;
        by repeat split. }
    assert (Hi : forall u r0 u', client_query (SelectOrderItems oid)
                   (exec_select_order_items oid) u = (r0, u') ->
                 same_tables (pg u) (pg u')).
    { intros u r0 u' E. run_client_query E; simpl in E; injection E as <- <-;
        by repeat split. }
    apply bind_inv in H as [(h & w1 & E1 & H)|(e & E1 & ->)]; [|by eapply Hh].
    apply Hh in E1.
    apply bind_inv in H as [(ls & w2 & E2 & H)|(e & E2 & ->)].
    + injection H as <- <-. apply Hi in E2. by eapply same_tables_trans.
    + apply Hi in E2. by eapply same_tables_trans.
Qed.

Lemma createOrder_catch_durable b e w r w' :
  createOrder_catch b e w = (r, w') ->
  durable (pg w') = durable (pg w) /\
  (tx (pg w) = None -> db (pg w') = db (pg w) /\ tx (pg w') = None).
Proof.
  unfold createOrder_catch. intros H.
  assert (Hlog : forall u r0 u',
            bind (log (ConsoleError "createOrder failed:"))
              (fun _ => match b with
                        | compiled => ret (res 500 CreateFailed)
                        | source => throw e
                        end) u = (r0, u') -> pg u' = pg u).
  { intros u r0 u' E. unfold bind, log in E. simpl in E.
    destruct b; injection E as <- <-; done. }
  apply bind_inv in H as [([] & w1 & E1 & H)|(e' & E1 & ->)].
  - apply Hlog in H. rewrite H.
    destruct (rollback_inv _ _ _ E1) as (_ & _ & Hdb & Htx).
    split.
    + unfold durable at 1. by rewrite Htx.
    + intros Hnone. split; [|done]. rewrite Hdb. unfold durable. by rewrite Hnone.
  - destruct (rollback_inv _ _ _ E1) as (_ & _ & Hdb & Htx).
    split.
    + unfold durable. by rewrite Hdb, Htx.
    + intros Hnone. split; [done|congruence].
Qed.

(** Where an exception of the [try] block comes from: before the tables
    became durable, or from the read-back after the commit. *)
Lemma createOrder_try_throw b req w e wt :
  createOrder_try b req w = (Throw e, wt) ->
  durable (pg wt) = durable (pg w) \/
  exists uid total lines w1 w2 oid w3 w4 w5 w6,
    createOrderSchema (body req) = [] /\ user req = Some uid /\ uid <> 0 /\
    begin_ w = (Ok tt, w1) /\
    check_items (items (body req)) 0 [] w1 = (Ok (inr (total, lines)), w2) /\
    insert_order uid total pending (shippingAddress (body req)) w2 = (Ok oid, w3) /\
    write_items oid lines w3 = (Ok tt, w4) /\
    commit w4 = (Ok tt, w5) /\
    invalidateProductCache w5 = (Ok tt, w6) /\
    read_back b oid w6 = (Throw e, wt).
Proof.
  unfold createOrder_try. intros H.
  apply bind_inv in H as [([] & w1 & Eb & H)|(e' & Eb & _)].
  2: { left. by destruct (begin_inv _ _ _ Eb) as (Hd & _). }
  destruct (begin_inv _ _ _ Eb) as (Hd1 & _ & _ & _ & Htx1).
  destruct (createOrderSchema (body req)) as [|i issues] eqn:Es; [|discriminate].
  assert (Hmain : forall uid, uid <> 0 -> user req = Some uid ->
    bind (check_items (items (body req)) 0 [])
      (fun checked =>
         match checked with
         | inl early => ret early
         | inr (totalAmount, orderItems) =>
             bind (insert_order uid totalAmount pending (shippingAddress (body req)))
               (fun order_id =>
                  bind (write_items order_id orderItems) (fun _ =>
                  bind commit (fun _ =>
                  bind invalidateProductCache (fun _ =>
                  bind (read_back b order_id) (fun completeOrder =>
                  ret (res 201 (OrderCreated completeOrder)))))))
         end) w1 = (Throw e, wt) ->
    durable (pg wt) = durable (pg w) \/
    exists uid total lines w1 w2 oid w3 w4 w5 w6,
      [] = @nil issue /\ user req = Some uid /\ uid <> 0 /\
      begin_ w = (Ok tt, w1) /\
      check_items (items (body req)) 0 [] w1 = (Ok (inr (total, lines)), w2) /\
      insert_order uid total pending (shippingAddress (body req)) w2 = (Ok oid, w3) /\
      write_items oid lines w3 = (Ok tt, w4) /\
      commit w4 = (Ok tt, w5) /\
      invalidateProductCache w5 = (Ok tt, w6) /\
      read_back b oid w6 = (Throw e, wt)).
  { intros uid Hne Hu Hrun.
    apply bind_inv in Hrun as [([early|[total lines]] & w2 & Ec & Hrun)|(e' & Ec & _)].
    - discriminate.
    - destruct (check_items_ok _ _ _ _ _ _ _ Ec) as ((_ & Htx2 & _) & _).
      assert (Hin2 : is_Some (tx (pg w2))) by (by rewrite Htx2).
      assert (Hd2 : durable (pg w2) = durable (pg w)).
      { rewrite <- Hd1. by apply durable_in_tx. }
      apply bind_inv in Hrun as [(oid & w3 & Ei & Hrun)|(e' & Ei & _)].
      2: { left. apply insert_order_tx in Ei. rewrite <- Hd2. by apply durable_in_tx. }
      pose proof (insert_order_tx _ _ _ _ _ _ _ Ei) as Htx3.
      assert (Hin3 : is_Some (tx (pg w3))) by (by rewrite Htx3).
      assert (Hd3 : durable (pg w3) = durable (pg w)).
      { rewrite <- Hd2. by apply durable_in_tx. }
      apply bind_inv in Hrun as [([] & w4 & Ew & Hrun)|(e' & Ew & _)].
      2: { left. apply write_items_tx in Ew. rewrite <- Hd3. by apply durable_in_tx. }
      pose proof (write_items_tx _ _ _ _ _ Ew) as Htx4.
      assert (Hin4 : is_Some (tx (pg w4))) by (by rewrite Htx4).
      assert (Hd4 : durable (pg w4) = durable (pg w)).
      { rewrite <- Hd3. by apply durable_in_tx. }
      apply bind_inv in Hrun as [([] & w5 & Ecm & Hrun)|(e' & Ecm & _)].
      2: { left. destruct (commit_inv _ _ _ Ecm) as (_ & _ & _ & Htx5).
           rewrite <- Hd4. by apply durable_in_tx. }
      apply bind_inv in Hrun as [([] & w6 & Einv & Hrun)|(e' & Einv & _)].
      2: { by destruct (invalidateProductCache_inv _ _ _ Einv). }
      apply bind_inv in Hrun as [(co & w7 & Er & Hrun)|(e' & Er & [= <-])].
      + discriminate.
      + right. exists uid, total, lines, w1, w2, oid, w3, w4, w5, w6. by repeat split.
    - left. rewrite <- Hd1. by eapply check_items_durable. }
  destruct (user req) as [[|uid|uid]|] eqn:Eu; try discriminate.
  - by apply (Hmain (Z.pos uid)).
  - by apply (Hmain (Z.neg uid)).
Qed.

(** The runs of [createOrder]: those that leave the durable tables as they
    were, and those whose COMMIT was accepted, which end with the read-back
    accepted (201) or rejected (the [catch] block). *)
Lemma createOrder_runs b req w r w' :
  createOrder b req w = (r, w') ->
  (durable (pg w') = durable (pg w) /\
   forall co, r <> Ok (res 201 (OrderCreated co))) \/
  exists uid total lines w1 w2 oid w3 w4 w5 w6 rb w7,
    createOrderSchema (body req) = [] /\ user req = Some uid /\ uid <> 0 /\
    begin_ w = (Ok tt, w1) /\
    check_items (items (body req)) 0 [] w1 = (Ok (inr (total, lines)), w2) /\
    insert_order uid total pending (shippingAddress (body req)) w2 = (Ok oid, w3) /\
    write_items oid lines w3 = (Ok tt, w4) /\
    commit w4 = (Ok tt, w5) /\
    invalidateProductCache w5 = (Ok tt, w6) /\
    read_back b oid w6 = (rb, w7) /\
    db (pg w') = db (pg w5) /\ tx (pg w') = None /\
    match rb with
    | Ok co => r = Ok (res 201 (OrderCreated co)) /\ w' = released w7
    | Throw e => exists wc, createOrder_catch b e w7 = (r, wc) /\ w' = released wc
    end.
Proof.
  intros H.
  assert (Hafter : forall w5 w6 w7 w4 oid rb,
            commit w4 = (Ok tt, w5) -> invalidateProductCache w5 = (Ok tt, w6) ->
            read_back b oid w6 = (rb, w7) ->
            db (pg w7) = db (pg w5) /\ tx (pg w7) = None).
  { intros w5 w6 w7 w4 oid rb Ecm Einv Erb.
    destruct (commit_inv _ _ _ Ecm) as (_ & _ & _ & Htx5).
    apply invalidateProductCache_inv in Einv as [_ Hpg6].
    apply read_back_same_tables in Erb as (Hdb7 & Htx7 & _).
    split; congruence. }
  apply createOrder_inv in H as [(resp & wt & Et & -> & ->)|(e & wt & wc & Et & Ec & ->)].
  - apply createOrder_try_ok in Et as (w1 & Eb & Hcases).
    destruct (begin_inv _ _ _ Eb) as (Hd1 & _).
    destruct Hcases as [(_ & -> & ->)|[(_ & _ & -> & ->)|(Hs & uid & Hu & Hne & Hc)]].
    + left. by split.
    + left. by split.
    + destruct Hc as [Hc|(total & lines & w2 & oid & w3 & w4 & w5 & w6 & co & Ec & Ei &
                          Ew & Ecm & Einv & Erb & ->)].
      * left. apply check_items_early in Hc as (Hdb & Htx & item & _ & Hfail).
        split.
        { simpl. unfold durable at 1. by rewrite Htx, Hdb. }
        intros co. destruct Hfail as [[_ ->]|(p & _ & _ & ->)]; discriminate.
      * right. destruct (Hafter _ _ _ _ _ _ Ecm Einv Erb) as [Hdb7 Htx7].
        exists uid, total, lines, w1, w2, oid, w3, w4, w5, w6, (Ok co), wt.
        by repeat split.
  - apply createOrder_try_throw in Et
      as [Hd|(uid & total & lines & w1 & w2 & oid & w3 & w4 & w5 & w6 & Hs & Hu & Hne &
              Eb & Ec' & Ei & Ew & Ecm & Einv & Erb)].
    + left. destruct (createOrder_catch_durable _ _ _ _ _ Ec) as [Hdc _].
      split; [simpl; congruence|].
      intros co ->. by apply createOrder_catch_inv in Ec as (_ & _ & [=] & _).
    + right. destruct (Hafter _ _ _ _ _ _ Ecm Einv Erb) as [Hdb7 Htx7].
      destruct (createOrder_catch_durable _ _ _ _ _ Ec) as [_ Hc].
      destruct (Hc Htx7) as [Hdbc Htxc].
      exists uid, total, lines, w1, w2, oid, w3, w4, w5, w6, (Throw e), wt.
      repeat split; try done; simpl; try congruence. by exists wc.
Qed.

Lemma createOrder_commit_in_trace b req w1 oid lines w w3 w4 w5 w6 rb w7 (total : Z)
    (uid : Z) w2 :
  begin_ w = (Ok tt, w1) ->
  check_items (items (body req)) 0 [] w1 = (Ok (inr (total, lines)), w2) ->
  insert_order uid total pending (shippingAddress (body req)) w2 = (Ok oid, w3) ->
  write_items oid lines w3 = (Ok tt, w4) ->
  commit w4 = (Ok tt, w5) ->
  invalidateProductCache w5 = (Ok tt, w6) ->
  read_back b oid w6 = (rb, w7) ->
  exists pre post, trace w7 = trace w ++ pre ++ Sql COMMIT true :: post /\
    forall e, rb = Throw e -> exists s, Sql s false ∈ post.
Proof.
  intros Eb Ec Ei Ew Ecm Einv Erb.
  destruct (db_only_appends _ (db_only_client_query _ _) _ _ _ Eb) as [e1 H1].
  destruct (db_only_appends _ (db_only_check_items _ _ _) _ _ _ Ec) as [e2 H2].
  destruct (db_only_appends _ (db_only_client_query _ _) _ _ _ Ei) as [e3 H3].
  destruct (db_only_appends _ (db_only_write_items _ _) _ _ _ Ew) as [e4 H4].
  apply commit_trace in Ecm.
  destruct (appends_cache_only _ cache_only_invalidateProductCache _ _ _ Einv) as [e6 H6].
  assert (Hrb : exists e7, trace w7 = trace w6 ++ e7 /\
            forall e, rb = Throw e -> exists s, Sql s false ∈ e7).
  { clear -Erb. destruct b; simpl in Erb.
    - run_client_query Erb; simpl in Erb.
      + destruct (exec_select_complete_order _ _) as [[c|e] c'] eqn:Ee;
          injection Erb as <- <-; simpl; eexists; (split; [reflexivity|]);
          intros e0 [=]. unfold exec_select_complete_order in Ee.
        destruct (orders _ !! _); try destruct (joined_lines _ _); discriminate.
      + injection Erb as <- <-. simpl. eexists. split; [reflexivity|].
        intros _ _. eexists. by left.
      + destruct (exec_select_complete_order _ _) as [[c|e] c'] eqn:Ee;
          injection Erb as <- <-; simpl; eexists; (split; [reflexivity|]);
          intros e0 [=]. unfold exec_select_complete_order in Ee.
        destruct (orders _ !! _); try destruct (joined_lines _ _); discriminate.
    - assert (Hq : forall A s (read : pg_conn -> A) u r0 u',
                client_query s (fun c => (Ok (read c), c)) u = (r0, u') ->
                exists ok, trace u' = trace u ++ [Sql s ok] /\
                  forall e, r0 = Throw e -> ok = false).
      { intros A s read u r0 u' E. unfold client_query in E.
        destruct (pg_faults (pg u)) as [|[] fs]; simpl in E; injection E as <- <-;
          simpl; eexists; (split; [reflexivity|]); by intros e0 [=]. }
      apply bind_inv in Erb as [(h & u1 & E1 & Erb)|(e & E1 & ->)].
      + apply (Hq _ _ (fun c => orders (db c) !! oid)) in E1 as (ok1 & T1 & _).
        apply bind_inv in Erb as [(ls & u2 & E2 & Erb)|(e & E2 & ->)].
        * injection Erb as <- <-.
          apply (Hq _ _ (fun c => joined_lines (db c) oid)) in E2 as (ok2 & T2 & _).
          eexists. split; [by rewrite T2, T1, <- app_assoc|]. by intros e0 [=].
        * apply (Hq _ _ (fun c => joined_lines (db c) oid)) in E2 as (ok2 & T2 & F2).
          rewrite (F2 e eq_refl) in T2.
          eexists. split; [by rewrite T2, T1, <- app_assoc|].
          intros _ _. eexists. apply elem_of_app. right. by left.
      + apply (Hq _ _ (fun c => orders (db c) !! oid)) in E1 as (ok1 & T1 & F1).
        rewrite (F1 e eq_refl) in T1.
        eexists. split; [exact T1|]. intros _ _. eexists. by left. }
  destruct Hrb as (e7 & H7 & Hrej).
  exists (e1 ++ e2 ++ e3 ++ e4), (e6 ++ e7). split.
  - rewrite H7, H6, Ecm, H4, H3, H2, H1. rewrite <- !app_assoc. simpl.
    by rewrite <- ?app_assoc.
  - intros e He. destruct (Hrej e He) as [s Hs]. exists s.
    apply elem_of_app. by right.
Qed.

(** X11.  [createOrder] is all or nothing: whatever the request and
    whatever PostgreSQL and Redis do, either a COMMIT was accepted during
    the call or the durable tables are what they were before it; and a
    call that answers with a 4xx status has changed nothing. *)
Theorem createOrder_all_or_nothing b req w r w' :
  createOrder b req w = (r, w') ->
  (Sql COMMIT true ∈ new_events w w' \/ durable (pg w') = durable (pg w)) /\
  (forall resp, r = Ok resp -> 400 <= res_status resp < 500 ->
     durable (pg w') = durable (pg w)).
Proof.
  intros H.
  destruct (createOrder_runs _ _ _ _ _ H)
    as [[Hd Hr]|(uid & total & lines & w1 & w2 & oid & w3 & w4 & w5 & w6 & rb & w7 &
                 Hs & Hu & Hne & Eb & Ec & Ei & Ew & Ecm & Einv & Erb & Hdb & Htx & Hrb)].
  { split; [by right|done]. }
  destruct (createOrder_commit_in_trace _ _ _ _ _ _ _ _ _ _ _ _ _ _ _
              Eb Ec Ei Ew Ecm Einv Erb) as (pre & post & Ht & _).
  split.
  - left. destruct rb as [co|e].
    + destruct Hrb as [_ ->]. unfold new_events, released. simpl.
      rewrite Ht, <- app_assoc, drop_app_length. set_solver.
    + destruct Hrb as (wc & Ecatch & ->).
      destruct (db_only_appends _ (db_only_createOrder_catch b e) _ _ _ Ecatch)
        as [ec Hc].
      unfold new_events, released. simpl.
      rewrite Hc, Ht, <- !app_assoc, drop_app_length. set_solver.
  - intros resp -> Hst. exfalso. destruct rb as [co|e].
    + destruct Hrb as [[= ->] _]. simpl in Hst. lia.
    + destruct Hrb as (wc & Ecatch & _).
      apply createOrder_catch_inv in Ecatch as (_ & _ & -> & _). simpl in Hst. lia.
Qed.

Lemma createOrder_all_or_nothing_witness :
  let w := fresh_world shop in
  let run := createOrder compiled (order_request [(1, 2); (2, 1)]) w in
  res_status <$> (match fst run with Ok resp => Some resp | Throw _ => None end) =
    Some 400 /\
  durable (pg (snd run)) = durable (pg w).
Proof.
  intros w run. split; [reflexivity|].
  destruct (createOrder_all_or_nothing compiled (order_request [(1, 2); (2, 1)]) w
              (fst run) (snd run)) as [_ H]; [apply surjective_pairing|].
  apply (H (res 400 (Message "Insufficient stock for Clean Code. Available: 0, Requested: 1")));
    [reflexivity|simpl; lia].
Defined.

(** X12.  Once the COMMIT is accepted the order stays placed whatever the
    answer: a call that has changed the durable tables has had its COMMIT
    accepted and has stored the order row of the caller, and it answers
    either 201 or, when a read-back statement is rejected, with the failure
    of the [catch] block (500 Failed to create order in the compiled
    controller, the exception in the source), whose ROLLBACK then undoes
    nothing. *)
Theorem createOrder_failure_after_commit_keeps_order b req w r w' :
  createOrder b req w = (r, w') ->
  durable (pg w') <> durable (pg w) ->
  Sql COMMIT true ∈ new_events w w' /\
  (exists o, orders (durable (pg w')) !! orders_id_seq (pg w) = Some o /\
     user req = Some (user_id o) /\ status o = pending /\
     shipping_address o = shippingAddress (body req)) /\
  ((exists co, r = Ok (res 201 (OrderCreated co))) \/
   (exists s, Sql s false ∈ new_events w w') /\
   (b = compiled /\ r = Ok (res 500 CreateFailed) \/ exists e, r = Throw e)).
Proof.
  intros H Hchanged.
  destruct (createOrder_runs _ _ _ _ _ H)
    as [[Hd Hr]|(uid & total & lines & w1 & w2 & oid & w3 & w4 & w5 & w6 & rb & w7 &
                 Hs & Hu & Hne & Eb & Ec & Ei & Ew & Ecm & Einv & Erb & Hdb & Htx & Hrb)];
    [done|].
  destruct (createOrder_commit_in_trace _ _ _ _ _ _ _ _ _ _ _ _ _ _ _
              Eb Ec Ei Ew Ecm Einv Erb) as (pre & post & Ht & Hrej).
  destruct (begin_inv _ _ _ Eb) as (_ & _ & Hseq1 & _).
  destruct (check_items_ok _ _ _ _ _ _ _ Ec) as ((_ & _ & Hseq2 & _) & _).
  destruct (insert_order_inv _ _ _ _ _ _ _ Ei) as (Hoid & _ & _ & _ & _ & Ho3).
  destruct (write_items_ok _ _ _ _ Ew) as (_ & Ho4 & _).
  destruct (commit_inv _ _ _ Ecm) as (Hdb5 & _).
  assert (Hnew : exists post', new_events w w' = pre ++ Sql COMMIT true :: post ++ post').
  { destruct rb as [co|e].
    - destruct Hrb as [_ ->]. exists [Release]. unfold new_events, released. simpl.
      rewrite Ht, <- app_assoc, drop_app_length. by rewrite <- app_assoc.
    - destruct Hrb as (wc & Ecatch & ->).
      destruct (db_only_appends _ (db_only_createOrder_catch b e) _ _ _ Ecatch)
        as [ec Hc].
      exists (ec ++ [Release]). unfold new_events, released. simpl.
      rewrite Hc, Ht, <- !app_assoc, drop_app_length. simpl.
      by rewrite <- ?app_assoc. }
  destruct Hnew as [post' Hnew].
  split. { rewrite Hnew. set_solver. }
  split.
  - exists {| user_id := uid; total_amount := total; status := pending;
              shipping_address := shippingAddress (body req) |}.
    split; [|by simpl].
    unfold durable. rewrite Htx, Hdb, Hdb5, Ho4, Ho3, Hoid.
    replace (orders_id_seq (pg w2)) with (orders_id_seq (pg w)) by congruence.
    apply lookup_insert_eq.
  - destruct rb as [co|e].
    + destruct Hrb as [-> _]. left. by exists co.
    + right. destruct Hrb as (wc & Ecatch & _). split.
      * destruct (Hrej e eq_refl) as [s Hs0]. exists s. rewrite Hnew. set_solver.
      * apply createOrder_catch_inv in Ecatch as (_ & Hres).
        destruct r as [resp|e']; [|right; by exists e'].
        left. by destruct Hres as (-> & -> & _).
Qed.

Lemma createOrder_failure_after_commit_keeps_order_witness :
  let w := lost_answer_world in
  let run := createOrder compiled (order_request [(1, 2)]) w in
  fst run = Ok (res 500 CreateFailed) /\
  stock_quantity <$> products (durable (pg (snd run))) !! 1 = Some 3 /\
  Sql COMMIT true ∈ new_events w (snd run) /\
  exists o, orders (durable (pg (snd run))) !! orders_id_seq (pg w) = Some o /\
    user (order_request [(1, 2)]) = Some (user_id o) /\ status o = pending /\
    shipping_address o = shippingAddress (body (order_request [(1, 2)])).
Proof.
  intros w run. split; [reflexivity|]. split; [reflexivity|].
  destruct (createOrder_failure_after_commit_keeps_order compiled
              (order_request [(1, 2)]) w (fst run) (snd run)) as (Hc & Ho & _).
  - apply surjective_pairing.
  - intros Heq. apply (f_equal (fun d => orders d !! 1)) in Heq.
    vm_compute in Heq. discriminate.
  - by split.
Defined.

(** ** What a call of the order handler traces *)

Lemma adds_ret {A} (P : list event -> Prop) (a : A) : P [] -> adds P (ret a).
Proof. intros HP w r w' [= <- <-]. exists []. by rewrite app_nil_r. Qed.

Lemma adds_log (P : list event -> Prop) e : P [e] -> adds P (log e).
Proof. intros HP w r w' [= <- <-]. by exists [e]. Qed.

Lemma adds_client_query {A} (P : list event -> Prop) s
    (exec : pg_conn -> result A * pg_conn) :
  (forall ok, P [Sql s ok]) -> adds P (client_query s exec).
Proof.
  intros HP w r w' E. unfold client_query in E.
  destruct (pg_faults (pg w)) as [|[] fs]; simpl in E;
    try (injection E as <- <-; by eexists);
    destruct (exec _) as [[a|e] c]; injection E as <- <-; by eexists.
Qed.

Section Events.

Variable Q : event -> Prop.
Hypothesis Q_sql : forall s ok, Q (Sql s ok).
Hypothesis Q_redis : forall c ok, Q (Redis c ok).
Hypothesis Q_console : forall label, Q (ConsoleError label).

Lemma Forall_Q_app e1 e2 : Forall Q e1 -> Forall Q e2 -> Forall Q (e1 ++ e2).
Proof. apply Forall_app_2. Qed.

Lemma events_statement {A} s (exec : pg_conn -> result A * pg_conn) :
  adds (Forall Q) (client_query s exec).
Proof. apply adds_client_query. intros ok. by repeat constructor. Qed.

Lemma events_check_items its total acc : adds (Forall Q) (check_items its total acc).
Proof.
  revert total acc. induction its as [|item rest IH]; intros total acc; simpl.
  - by apply adds_ret.
  - apply adds_bind; [apply Forall_Q_app|apply events_statement|].
    assert (Hrb : forall resp : response,
              adds (Forall Q)
                (bind rollback
                   (fun _ => ret (inl resp : response + Z * list reserved_line)))).
    { intros resp. apply adds_bind; [apply Forall_Q_app|apply events_statement|].
      intros _. by apply adds_ret. }
    intros [p|]; [|apply Hrb].
    destruct (stock_quantity p <? quantity item); [apply Hrb|apply IH].
Qed.

Lemma events_write_items oid lines : adds (Forall Q) (write_items oid lines).
Proof.
  induction lines as [|l rest IH]; simpl.
  - by apply adds_ret.
  - apply adds_bind; [apply Forall_Q_app|apply events_statement|]. intros _.
    apply adds_bind; [apply Forall_Q_app|apply events_statement|]. intros _.
    apply IH.
Qed.

Lemma events_read_back b oid : adds (Forall Q) (read_back b oid).
Proof.
  destruct b; simpl; [apply events_statement|].
  apply adds_bind; [apply Forall_Q_app|apply events_statement|]. intros h.
  apply adds_bind; [apply Forall_Q_app|apply events_statement|]. intros ls.
  by apply adds_ret.
Qed.

Lemma events_invalidateProductCache : adds (Forall Q) invalidateProductCache.
Proof.
  intros w r w' E.
  unfold invalidateProductCache, CacheService.delByPattern, try_catch, bind,
    redis_call, log, ret in E.
  destruct (redis_faults (redis w)) as [|[] [|[] fs]]; simpl in E;
    try destruct (redis_keys _ _); simpl in E; injection E as <- <-; simpl;
    rewrite <- ?app_assoc; (eexists; split; [reflexivity|]);
    repeat (apply Forall_cons_2; [by auto|]); apply Forall_nil_2.
Qed.

Lemma events_createOrder_catch b e : adds (Forall Q) (createOrder_catch b e).
Proof.
  unfold createOrder_catch.
  apply adds_bind; [apply Forall_Q_app|apply events_statement|]. intros _.
  apply adds_bind; [apply Forall_Q_app|apply adds_log; by repeat constructor|].
  intros _. destruct b; [by apply adds_ret|].
  intros w r w' [= <- <-]. exists []. by rewrite app_nil_r.
Qed.

Lemma events_createOrder_try b req : adds (Forall Q) (createOrder_try b req).
Proof.
  unfold createOrder_try.
  apply adds_bind; [apply Forall_Q_app|apply events_statement|]. intros _.
  destruct (createOrderSchema (body req)); [|by apply adds_ret].
  destruct (user req) as [[|uid|uid]|]; try (by apply adds_ret).
  all: apply adds_bind; [apply Forall_Q_app|apply events_check_items|];
    intros [early|[total lines]]; [by apply adds_ret|];
    apply adds_bind; [apply Forall_Q_app|apply events_statement|]; intros oid;
    apply adds_bind; [apply Forall_Q_app|apply events_write_items|]; intros _;
    apply adds_bind; [apply Forall_Q_app|apply events_statement|]; intros _;
    apply adds_bind; [apply Forall_Q_app|apply events_invalidateProductCache|];
    intros _;
    apply adds_bind; [apply Forall_Q_app|apply events_read_back|];
    intros co; by apply adds_ret.
Qed.

End Events.

(** X13.  Every call of [createOrder] hands its client back to the pool
    exactly once, and as the last thing it does: on the normal path, on
    every early return, and when the [catch] block itself fails. *)
Theorem createOrder_releases_client_last b req w :
  exists evs,
    new_events w (snd (createOrder b req w)) = evs ++ [Release] /\
    Release ∉ evs.
Proof.
  set (Q := fun e : event => e <> Release).
  assert (HQ : adds (Forall Q) (try_catch (createOrder_try b req) (createOrder_catch b))).
  { apply adds_try_catch; [apply Forall_app_2| |intros e].
    - by apply events_createOrder_try.
    - by apply events_createOrder_catch. }
  unfold createOrder, finally, log.
  destruct (try_catch (createOrder_try b req) (createOrder_catch b) w) as [r wt] eqn:E.
  destruct (HQ _ _ _ E) as (evs & Ht & Hq). simpl.
  exists evs. split.
  - unfold new_events. simpl. by rewrite Ht, <- app_assoc, drop_app_length.
  - intros Hin. rewrite Forall_forall in Hq. by apply (Hq _ Hin).
Qed.

(** ** The foreign keys of order_items *)

Lemma same_catalog_is_Some t t' id :
  same_catalog t t' -> is_Some (t !! id) -> is_Some (t' !! id).
Proof.
  intros Hc [p Hp]. specialize (Hc id). rewrite Hp in Hc.
  destruct (t' !! id); [by eexists|discriminate].
Qed.

(** X15.  [createOrder] keeps both foreign keys of order_items by itself:
    on a connection that comes clean from the pool, whatever the outcome
    of the call, every order_items row that is durable afterwards belongs
    to an order that exists and names a product that exists, as it did
    before the call. *)
Theorem createOrder_keeps_foreign_keys b req w r w' :
  createOrder b req w = (r, w') ->
  tx (pg w) = None ->
  references_intact (db (pg w)) ->
  product_references_intact (db (pg w)) ->
  references_intact (durable (pg w')) /\ product_references_intact (durable (pg w')).
Proof.
  intros H Htx0 Hfk Hpk.
  assert (Hd0 : durable (pg w) = db (pg w)) by (unfold durable; by rewrite Htx0).
  destruct (createOrder_runs _ _ _ _ _ H)
    as [[Hd Hr]|(uid & total & lines & w1 & w2 & oid & w3 & w4 & w5 & w6 & rb & w7 &
                 Hs & Hu & Hne & Eb & Ec & Ei & Ew & Ecm & Einv & Erb & Hdb & Htx & Hrb)].
  { by rewrite Hd, Hd0. }
  assert (Hd' : durable (pg w') = db (pg w4)).
  { unfold durable. rewrite Htx, Hdb. by destruct (commit_inv _ _ _ Ecm) as (-> & _). }
  rewrite Hd'. clear Hrb Hd' Hdb Htx Erb Einv Ecm.
  destruct (begin_inv _ _ _ Eb) as (_ & Hdb1 & _).
  destruct (check_items_ok _ _ _ _ _ _ _ Ec) as ((Hdb2 & _) & new & Hnew & Hres & _).
  simpl in Hnew. subst lines. rewrite Hdb1 in Hres.
  destruct (insert_order_inv _ _ _ _ _ _ _ Ei) as (_ & _ & _ & Hp3 & Hi3 & Ho3).
  destruct (write_items_ok _ _ _ _ Ew) as (_ & Ho4 & Hc4 & rows & Hi4 & Hrows).
  assert (Hitems : order_items (db (pg w4)) = order_items (db (pg w)) ++ rows)
    by congruence.
  assert (Horders : orders (db (pg w4)) =
            <[oid := {| user_id := uid; total_amount := total; status := pending;
                        shipping_address := shippingAddress (body req) |}]>
              (orders (db (pg w)))) by congruence.
  assert (Hcat : same_catalog (products (db (pg w))) (products (db (pg w4)))).
  { rewrite <- Hdb1, <- Hdb2, <- Hp3. done. }
  split.
  - intros oi Hin. rewrite Hitems in Hin. rewrite Horders.
    apply elem_of_app in Hin as [Hold|Hrow].
    + apply lookup_insert_is_Some'. right. by apply Hfk.
    + apply list_elem_of_lookup in Hrow as [i Hi].
      destruct (Forall2_lookup_r _ _ _ _ _ Hrows Hi) as (l & _ & (-> & _)).
      rewrite lookup_insert_eq. by eexists.
  - intros oi Hin. rewrite Hitems in Hin.
    apply (same_catalog_is_Some _ _ _ Hcat).
    apply elem_of_app in Hin as [Hold|Hrow]; [by apply Hpk|].
    apply list_elem_of_lookup in Hrow as [i Hi].
    destruct (Forall2_lookup_r _ _ _ _ _ Hrows Hi) as (l & Hl & (_ & -> & _)).
    destruct (Forall2_lookup_r _ _ _ _ _ Hres Hl) as (item & _ & (p & Hp & _ & ->)).
    simpl. by eexists.
Qed.

Lemma createOrder_keeps_foreign_keys_witness :
  let w' := snd (createOrder compiled (order_request [(1, 2)]) (fresh_world shop)) in
  length (order_items (durable (pg w'))) = 1%nat /\
  references_intact (durable (pg w')) /\ product_references_intact (durable (pg w')).
Proof.
  intros w'. split; [reflexivity|].
  apply (createOrder_keeps_foreign_keys compiled (order_request [(1, 2)])
           (fresh_world shop) (fst (createOrder compiled (order_request [(1, 2)])
                                      (fresh_world shop))) w').
  - apply surjective_pairing.
  - reflexivity.
  - intros oi Hin. by apply elem_of_nil in Hin.
  - intros oi Hin. by apply elem_of_nil in Hin.
Defined.

(** ** The stock an order takes *)






(** X14.  The stock check looks at one line at a time.  A cart whose lines
    each ask for no more than is in stock, but which together ask for more
    of a product than is in stock, is not told so: whatever PostgreSQL
    does, the order is not placed, the durable tables stay as they were,
    and the call is never answered with the 400 of an insufficient stock
    nor with any other answer than 500 Failed to create order. *)
Theorem createOrder_split_lines_fail_without_reason b req w r w' uid P p :
  createOrderSchema (body req) = [] ->
  user req = Some uid -> uid <> 0 ->
  products (db (pg w)) !! P = Some p -> 0 <= stock_quantity p ->
  Forall (in_stock (products (db (pg w)))) (items (body req)) ->
  stock_quantity p < Concurrent.requested P (items (body req)) ->
  createOrder b req w = (r, w') ->
  durable (pg w') = durable (pg w) /\
  forall resp, r = Ok resp -> resp = res 500 CreateFailed.
Proof.
  intros Hs Hu Hne Hp Hpos Hall Hover H.
  assert (Hnot : forall w1 w2 total lines oid w3 w4,
            begin_ w = (Ok tt, w1) ->
            check_items (items (body req)) 0 [] w1 = (Ok (inr (total, lines)), w2) ->
            insert_order uid total pending (shippingAddress (body req)) w2 = (Ok oid, w3) ->
            write_items oid lines w3 = (Ok tt, w4) -> False).
  { intros w1 w2 total lines oid w3 w4 Eb Ec Ei Ew.
    destruct (begin_inv _ _ _ Eb) as (_ & Hdb1 & _).
    apply check_items_ok in Ec as ((Hdb2 & _) & new & Hnew & Hres & _).
    simpl in Hnew. subst lines.
    apply insert_order_inv in Ei as (_ & _ & _ & Hp3 & _).
    assert (Hp3' : products (db (pg w3)) !! P = Some p) by (by rewrite Hp3, Hdb2, Hdb1).
    destruct (write_items_stock _ _ _ _ _ _ Ew Hp3') as (p' & _ & Hst & Hpos').
    rewrite (reserves_requested _ P _ _ Hres) in Hst. specialize (Hpos' Hpos). lia. }
  destruct (createOrder_runs _ _ _ _ _ H)
    as [[Hd Hr]|(uid' & total & lines & w1 & w2 & oid & w3 & w4 & w5 & w6 & rb & w7 &
                 _ & Hu' & _ & Eb & Ec & Ei & Ew & _)].
  2: { exfalso. rewrite Hu in Hu'. injection Hu' as <-. by eapply Hnot. }
  split; [done|]. intros resp ->.
  apply createOrder_inv in H as [(resp' & wt & Et & [= <-] & ->)|(e & wt & wc & Et & Ec & ->)].
  - exfalso. apply createOrder_try_ok in Et as (w1 & Eb & Hcases).
    destruct Hcases as [(Hs' & _)|[(_ & Hun & _)|(_ & uid' & Hu' & _ & Hc)]].
    + done.
    + rewrite Hu in Hun. destruct Hun as [?|[= ->]]; done.
    + rewrite Hu in Hu'. injection Hu' as <-.
      destruct Hc as [Hc|(total & lines & w2 & oid & w3 & w4 & w5 & w6 & co & Ec & Ei &
                          Ew & _)]; [|by eapply Hnot].
      destruct (begin_inv _ _ _ Eb) as (_ & Hdb1 & _).
      apply check_items_early in Hc as (_ & _ & item & Hin & Hfail).
      rewrite Hdb1 in Hfail. rewrite Forall_forall in Hall.
      destruct (Hall item Hin) as (q & Hq & Hle).
      destruct Hfail as [[Hn _]|(q' & Hq' & Hlt & _)]; [congruence|].
      rewrite Hq in Hq'. injection Hq' as <-. lia.
  - by apply createOrder_catch_inv in Ec as (_ & _ & -> & _).
Qed.

Lemma createOrder_split_lines_fail_without_reason_witness :
  let req := order_request [(1, 3); (1, 3)] in
  let run := createOrder compiled req (fresh_world shop) in
  fst run = Ok (res 500 CreateFailed) /\
  durable (pg (snd run)) = durable (pg (fresh_world shop)) /\
  forall resp, fst run = Ok resp -> resp = res 500 CreateFailed.
Proof.
  intros req run. split; [reflexivity|].
  apply (createOrder_split_lines_fail_without_reason compiled req (fresh_world shop)
           (fst run) (snd run) 7 1 mug).
  - reflexivity.
  - reflexivity.
  - done.
  - reflexivity.
  - simpl. lia.
  - repeat constructor; exists mug; (split; [reflexivity|simpl; lia]).
  - vm_compute. reflexivity.
  - apply surjective_pairing.
Defined.

(** * The handlers that go through the pool *)

Lemma tables_next_statement fs s : tables (next_statement fs s) = tables s.
Proof. done. Qed.

Lemma tables_journaled evs s : tables (journaled evs s) = tables s.
Proof. done. Qed.

Ltac site_same :=
  rewrite ?tables_journaled, ?tables_next_statement; simpl; congruence.

Lemma query_reading_inv {A} q (read : site -> A) s r s' :
  query q (reading read) s = (r, s') ->
  same_site s s' /\
  db (pg (world_of s')) = db (pg (world_of s)) /\
  tx (pg (world_of s')) = tx (pg (world_of s)) /\
  (r = Failed (Rejected q) /\ hd false (pg_faults (pg (world_of s))) = true \/
   exists fs, r = Done (read (next_statement fs s)) /\
     hd false (pg_faults (pg (world_of s))) = false).
Proof.
  unfold query, reading. intros H.
  destruct (pg_faults (pg (world_of s))) as [|[] fs] eqn:Efs; injection H as <- <-;
    (split; [by repeat split|]); (split; [done|]); (split; [done|]); eauto.
Qed.

Lemma site_bind_inv {A B} (m : Handler A) (k : A -> Handler B) s r s' :
  site_bind m k s = (r, s') ->
  (exists a s1, m s = (Done a, s1) /\ k a s1 = (r, s')) \/
  (exists e, m s = (Failed e, s') /\ r = Failed e).
Proof.
  unfold site_bind. destruct (m s) as [[a|e] s1]; intros H.
  - left. eauto.
  - right. injection H as <- <-. eauto.
Qed.

Lemma same_site_refl s : same_site s s.
Proof. by repeat split. Qed.

Lemma same_site_trans s1 s2 s3 : same_site s1 s2 -> same_site s2 s3 -> same_site s1 s3.
Proof. intros (?&?&?&?&?) (?&?&?&?&?). repeat split; congruence. Qed.

Lemma same_site_console label s : same_site s (snd (console label s)).
Proof. by repeat split. Qed.

(** ** Whose orders a customer can read *)







(** X20.  [getUserOrders] always answers and only reads; the list it
    returns holds the caller's orders, each of them once and no order of
    anybody else, each with the number of order_items rows that belong to
    it. *)
Theorem getUserOrders_lists_own_orders newest_first user s :
  (forall l, newest_first l ≡ₚ l) ->
  exists r s', getUserOrders newest_first user s = (Done r, s') /\ same_site s s' /\
    forall rows, reply_json r = OrderList rows ->
      exists u, user = Some u /\ NoDup (os_id <$> rows) /\
        forall row, row ∈ rows <->
          exists o, orders (tables s) !! os_id row = Some o /\ user_id o = u_id u /\
            row = {| os_id := os_id row; os_total_amount := total_amount o;
                     os_status := status o; os_shipping_address := shipping_address o;
                     os_item_count :=
                       Z.of_nat (length (rows_of_order (tables s) (os_id row))) |}.
Proof.
  intros Hperm. unfold getUserOrders, site_try.
  destruct user as [u|].
  2: { do 2 eexists. split; [reflexivity|]. split; [apply same_site_refl|]. by intros rows. }
  destruct (u_id u =? 0).
  { do 2 eexists. split; [reflexivity|]. split; [apply same_site_refl|]. by intros rows. }
  unfold site_bind.
  destruct (query (SelectUserOrders (u_id u))
              (reading (select_user_orders newest_first (u_id u))) s)
    as [[rows|e] s1] eqn:E;
    destruct (query_reading_inv _ _ _ _ _ E) as (Hs & _ & _ & Hr).
  2: { do 2 eexists. split; [reflexivity|]. simpl.
       split; [by destruct Hs as (?&?&?&?&?)|]. by intros rows. }
  do 2 eexists. split; [reflexivity|]. split; [done|].
  intros rows' [= <-]. exists u. split; [done|].
  destruct Hr as [[[=] _]|(fs & [= ->] & _)].
  unfold select_user_orders. rewrite tables_next_statement.
  set (mine := filter (fun row : Z * order => user_id row.2 = u_id u)
                 (map_to_list (orders (tables s)))).
  split.
  - rewrite <- list_fmap_compose.
    replace (os_id ∘ summary_of (tables s)) with (@fst Z order) by done.
    rewrite (Hperm mine).
    apply (sublist_NoDup _ (map_to_list (orders (tables s))).*1);
      [apply NoDup_fst_map_to_list | apply fmap_sublist, sublist_filter].
  - intros row. rewrite list_elem_of_fmap. split.
    + intros ([oid o] & -> & Hin). rewrite (Hperm mine) in Hin.
      apply list_elem_of_filter in Hin as [Hu Hin]. apply elem_of_map_to_list in Hin.
      exists o. by repeat split.
    + intros (o & Ho & Hu & Hrow). exists (os_id row, o). split; [exact Hrow|].
      rewrite (Hperm mine). apply list_elem_of_filter. split; [done|].
      by apply elem_of_map_to_list.
Qed.

Lemma getUserOrders_lists_own_orders_witness :
  exists r s', getUserOrders reverse (Some alice) after_order = (Done r, s') /\
    same_site after_order s' /\
    forall rows, reply_json r = OrderList rows ->
      exists u, Some alice = Some u /\ NoDup (os_id <$> rows) /\
        forall row, row ∈ rows <->
          exists o, orders (tables after_order) !! os_id row = Some o /\
            user_id o = u_id u /\
            row = {| os_id := os_id row; os_total_amount := total_amount o;
                     os_status := status o; os_shipping_address := shipping_address o;
                     os_item_count :=
                       Z.of_nat (length (rows_of_order (tables after_order)
                                           (os_id row))) |}.
Proof.
  apply (getUserOrders_lists_own_orders reverse (Some alice) after_order).
  intros l. apply reverse_Permutation.
Defined.

(** ** What an administrator changes *)

Lemma tables_write_tables f s : tables (write_tables f s) = f (tables s).
Proof.
  unfold tables, write_tables, durable. simpl. by destruct (tx (pg (world_of s))).
Qed.

Lemma updateOrderStatus_runs user orderId status s :
  exists r s', updateOrderStatus user orderId status s = (Done r, s') /\
    products (tables s') = products (tables s) /\
    order_items (tables s') = order_items (tables s) /\
    users s' = users s /\ redis (world_of s') = redis (world_of s) /\
    (orders (tables s') = orders (tables s) /\
     (forall id st, r <> answer 200 (StatusUpdated id st)) \/
     exists u oid st o,
       user = Some u /\ u_id u <> 0 /\ u_role u = "admin" /\
       orderId = Some oid /\ updateOrderStatusSchema status = Some st /\
       orders (tables s) !! oid = Some o /\
       orders (tables s') = alter (with_status st) oid (orders (tables s)) /\
       r = answer 200 (StatusUpdated oid st)).
Proof.
  assert (Hstay : forall (r : reply) s0,
            (forall id st, r <> answer 200 (StatusUpdated id st)) ->
            tables s0 = tables s -> users s0 = users s ->
            redis (world_of s0) = redis (world_of s) ->
            exists r' s', (Done r, s0) = (Done r', s') /\
              products (tables s') = products (tables s) /\
              order_items (tables s') = order_items (tables s) /\
              users s' = users s /\ redis (world_of s') = redis (world_of s) /\
              (orders (tables s') = orders (tables s) /\
               (forall id st, r' <> answer 200 (StatusUpdated id st)) \/
               exists u oid st o,
                 user = Some u /\ u_id u <> 0 /\ u_role u = "admin" /\
                 orderId = Some oid /\ updateOrderStatusSchema status = Some st /\
                 orders (tables s) !! oid = Some o /\
                 orders (tables s') = alter (with_status st) oid (orders (tables s)) /\
                 r' = answer 200 (StatusUpdated oid st))).
  { intros r s0 Hr Ht Hu Hrd. exists r, s0. rewrite Ht. by repeat split; try left. }
  unfold updateOrderStatus, site_try.
  destruct (no_user_id user) eqn:Eno; [by apply Hstay|].
  destruct (not_admin user) eqn:Eadm; [by apply Hstay|].
  destruct user as [u|]; [|discriminate]. simpl in Eno, Eadm.
  apply Z.eqb_neq in Eno. apply negb_false_iff, String.eqb_eq in Eadm.
  destruct orderId as [oid|]; [|by apply Hstay].
  destruct (updateOrderStatusSchema status) as [st|] eqn:Est; [|by apply Hstay].
  unfold site_bind, query, exec_update_order_status.
  destruct (pg_faults (pg (world_of s))) as [|[] fs]; simpl;
    try (by apply Hstay); rewrite tables_next_statement;
    destruct (orders (tables s) !! oid) as [o|] eqn:Eo; simpl; try (by apply Hstay).
  all: do 2 eexists; (split; [reflexivity|]).
  all: match goal with
       | |- context [journaled ?evs (write_tables ?f ?s0)] =>
           change (tables (journaled evs (write_tables f s0)))
             with (tables (write_tables f s0));
           rewrite (tables_write_tables f s0)
       end.
  all: simpl; repeat (split; [done|]); right; exists u, oid, st, o; by repeat split.
Qed.

(** X21.  [updateOrderStatus] always answers.  It changes nothing but the
    status column of the one order it names, and that only for a caller
    whose role is admin: products (and so the stock, also when an order
    is cancelled), order lines, totals, users and the cache stay as they
    are.  It knows no order among the five statuses: an administrator can
    give an order any of them whatever its status is, a delivered or
    cancelled order included. *)
Theorem updateOrderStatus_changes_one_status_only user orderId status s :
  (exists r s', updateOrderStatus user orderId status s = (Done r, s') /\
     products (tables s') = products (tables s) /\
     order_items (tables s') = order_items (tables s) /\
     users s' = users s /\ redis (world_of s') = redis (world_of s) /\
     forall id,
       orders (tables s') !! id = orders (tables s) !! id \/
       exists u st o,
         user = Some u /\ u_role u = "admin" /\ orderId = Some id /\
         updateOrderStatusSchema status = Some st /\
         orders (tables s) !! id = Some o /\
         orders (tables s') !! id = Some (with_status st o) /\
         r = answer 200 (StatusUpdated id st)) /\
  (forall u oid st o,
     user = Some u -> u_id u <> 0 -> u_role u = "admin" -> orderId = Some oid ->
     updateOrderStatusSchema status = Some st ->
     orders (tables s) !! oid = Some o ->
     hd false (pg_faults (pg (world_of s))) = false ->
     fst (updateOrderStatus user orderId status s) =
       Done (answer 200 (StatusUpdated oid st)) /\
     orders (tables (snd (updateOrderStatus user orderId status s))) !! oid =
       Some (with_status st o)).
Proof.
  split.
  - destruct (updateOrderStatus_runs user orderId status s)
      as (r & s' & E & Hp & Hi & Hu & Hr & Hcase).
    exists r, s'. repeat (split; [done|]). intros id.
    destruct Hcase as [[-> _]|(u & oid & st & o & -> & _ & Hadm & -> & Hst & Ho & -> & ->)];
      [by left|].
    destruct (decide (oid = id)) as [->|Hne].
    + right. exists u, st, o. repeat (split; [done|]).
      split; [|done]. by rewrite lookup_alter_eq, Ho.
    + left. by rewrite lookup_alter_ne.
  - intros u oid st o -> Hid Hadm -> Hst Ho Hf.
    unfold updateOrderStatus, site_try, no_user_id, not_admin.
    destruct (Z.eqb_spec (u_id u) 0) as [|_]; [done|].
    rewrite Hadm, Hst. simpl.
    unfold site_bind, query, exec_update_order_status.
    destruct (pg_faults (pg (world_of s))) as [|[] fs]; try discriminate;
      rewrite tables_next_statement, Ho; simpl; (split; [done|]);
      match goal with
      | |- context [journaled ?evs (write_tables ?f ?s0)] =>
          change (tables (journaled evs (write_tables f s0)))
            with (tables (write_tables f s0));
          rewrite (tables_write_tables f s0)
      end; rewrite tables_next_statement; simpl; by rewrite lookup_alter_eq, Ho.
Qed.

Lemma updateOrderStatus_changes_one_status_only_witness :
  let run := updateOrderStatus (Some root) (Some 1) (Some "cancelled") after_order in
  fst run = Done (answer 200 (StatusUpdated 1 cancelled)) /\
  orders (tables (snd run)) !! 1 =
    Some {| user_id := 7; total_amount := 2598; status := cancelled;
            shipping_address := "123 Test Street, Test City" |}.
Proof.
  intros run.
  apply (proj2 (updateOrderStatus_changes_one_status_only (Some root) (Some 1)
                  (Some "cancelled") after_order) root 1 cancelled
           {| user_id := 7; total_amount := 2598; status := pending;
              shipping_address := "123 Test Street, Test City" |});
    try done; vm_compute; reflexivity.
Defined.




(** ** Deleting a product *)

Lemma lift_invalidateProductCache s :
  exists w1, lift invalidateProductCache s =
      (Done tt,
       journaled (Inner <$> new_events (world_of s) w1) (with_world w1 s)) /\
    pg w1 = pg (world_of s) /\
    w1 = snd (invalidateProductCache (world_of s)).
Proof.
  unfold lift.
  destruct (invalidateProductCache (world_of s)) as [r w1] eqn:E.
  destruct (invalidateProductCache_inv _ _ _ E) as [-> Hpg].
  exists w1. by repeat split.
Qed.

Lemma existsb_product_false pid (l : list order_item) :
  existsb (fun oi => oi_product_id oi =? pid) l = false ->
  forall oi, oi ∈ l -> oi_product_id oi <> pid.
Proof.
  intros H oi Hin Heq. apply not_true_iff_false in H. apply H.
  apply existsb_exists. exists oi. split; [by apply list_elem_of_In|].
  by apply Z.eqb_eq.
Qed.

Lemma deleteProduct_runs productId s :
  exists r s', deleteProduct productId s = (Done r, s') /\
    orders (tables s') = orders (tables s) /\
    order_items (tables s') = order_items (tables s) /\
    users s' = users s /\
    (products (tables s') = products (tables s) /\
     redis (world_of s') = redis (world_of s) /\
     (forall pid nm, r <> answer 200 (ProductDeleted pid nm)) \/
     exists pid p,
       productId = Some pid /\ products (tables s) !! pid = Some p /\
       (forall oi, oi ∈ order_items (tables s) -> oi_product_id oi <> pid) /\
       products (tables s') = delete pid (products (tables s)) /\
       r = answer 200 (ProductDeleted pid (name p)) /\
       exists w1, redis w1 = redis (world_of s) /\
         redis (world_of s') = redis (snd (CacheService.delByPattern "products:*" w1))).
Proof.
  assert (Hstay : forall (r : reply) s0,
            (forall pid nm, r <> answer 200 (ProductDeleted pid nm)) ->
            tables s0 = tables s -> users s0 = users s ->
            redis (world_of s0) = redis (world_of s) ->
            exists r' s', (Done r, s0) = (Done r', s') /\
              orders (tables s') = orders (tables s) /\
              order_items (tables s') = order_items (tables s) /\
              users s' = users s /\
              (products (tables s') = products (tables s) /\
               redis (world_of s') = redis (world_of s) /\
               (forall pid nm, r' <> answer 200 (ProductDeleted pid nm)) \/
               exists pid p,
                 productId = Some pid /\ products (tables s) !! pid = Some p /\
                 (forall oi, oi ∈ order_items (tables s) -> oi_product_id oi <> pid) /\
                 products (tables s') = delete pid (products (tables s)) /\
                 r' = answer 200 (ProductDeleted pid (name p)) /\
                 exists w1, redis w1 = redis (world_of s) /\
                   redis (world_of s') =
                     redis (snd (CacheService.delByPattern "products:*" w1)))).
  { intros r s0 Hr Ht Hu Hrd. exists r, s0. rewrite Ht. by repeat split; try left. }
  unfold deleteProduct, site_try.
  destruct productId as [pid|]; [|by apply Hstay].
  unfold site_bind at 1.
  destruct (query (SelectProductName pid) _ s) as [[existing|e] s1] eqn:E1;
    destruct (query_reading_inv _ _ _ _ _ E1) as ((Ht1 & Hu1 & _ & Hr1 & _) & _ & _ & Hres1).
  2: { by apply Hstay. }
  destruct Hres1 as [[[=] _]|(fs1 & [= ->] & _)]. rewrite tables_next_statement.
  destruct (products (tables s) !! pid) as [p|] eqn:Ep; simpl; [|by apply Hstay].
  unfold site_bind at 1.
  destruct (query (CountOrderItems pid) _ s1) as [[orderCount|e] s2] eqn:E2;
    destruct (query_reading_inv _ _ _ _ _ E2) as ((Ht2 & Hu2 & _ & Hr2 & _) & _ & _ & Hres2).
  2: { apply Hstay; [done|..]; site_same. }
  destruct (0 <? orderCount); [apply Hstay; [done|..]; site_same|].
  unfold site_bind at 1. unfold query at 1, exec_delete_product.
  destruct (pg_faults (pg (world_of s2))) as [|[] fs3]; cbv beta;
    try (simpl; apply Hstay; [done|..]; site_same);
    rewrite tables_next_statement;
    destruct (existsb _ (order_items (tables s2))) eqn:Eex;
    try (simpl; apply Hstay; [done|..]; site_same).
  all: pose proof (existsb_product_false _ _ Eex) as Hno; rewrite Ht2, Ht1 in Hno.
  all: unfold site_bind;
    match goal with
    | |- context [lift invalidateProductCache ?s3] =>
        destruct (lift_invalidateProductCache s3) as (w1 & -> & Hpg & Hw1);
        assert (Ht3 : tables s3 =
                  {| products := delete pid (products (tables s));
                     orders := orders (tables s);
                     order_items := order_items (tables s) |});
        [ match s3 with
          | journaled ?evs (write_tables ?f ?s0) =>
              change (tables (journaled evs (write_tables f s0)))
                with (tables (write_tables f s0));
              rewrite (tables_write_tables f s0), tables_next_statement, Ht2, Ht1
          end; reflexivity
        | assert (Hu3 : users s3 = users s) by (simpl; congruence);
          assert (Hr3 : redis (world_of s3) = redis (world_of s))
            by (simpl; congruence) ]
    end.
  all: do 2 eexists; (split; [reflexivity|]).
  all: match goal with
       | |- context [tables (journaled ?evs (with_world ?w ?s3))] =>
           assert (Ht4 : tables (journaled evs (with_world w s3)) = tables s3)
             by (unfold tables; simpl; by rewrite Hpg);
           rewrite !Ht4, !Ht3
       end.
  all: simpl; (split; [done|]); (split; [done|]); (split; [done|]); right;
    exists pid, p; (split; [done|]); (split; [done|]); (split; [done|]);
    (split; [done|]); (split; [done|]).
  all: match goal with
       | Hw : _ = snd (invalidateProductCache (world_of ?s3)) |- _ =>
           exists (world_of s3); split; [exact Hr3|]; rewrite Hw;
           unfold invalidateProductCache, try_catch;
           destruct (cache_only_delByPattern "products:*" (world_of s3))
             as ([] & wd & Ed & _); by rewrite Ed
       end.
Qed.

(** X23.  [deleteProduct] always answers, and deletes at most the one
    product it names, and only one that no order line refers to: orders,
    order lines and users stay as they are, every order line keeps its
    product, and after a deletion with Redis accepting the invalidation no
    page of the listing is left in the cache.  A product that an order
    line names is refused with a 400 that tells how many lines name it. *)
Theorem deleteProduct_keeps_ordered_products productId s :
  (exists r s', deleteProduct productId s = (Done r, s') /\
     orders (tables s') = orders (tables s) /\
     order_items (tables s') = order_items (tables s) /\
     users s' = users s /\
     (product_references_intact (tables s) -> product_references_intact (tables s')) /\
     forall id,
       products (tables s') !! id = products (tables s) !! id \/
       exists p,
         productId = Some id /\ products (tables s) !! id = Some p /\
         products (tables s') !! id = None /\
         (forall oi, oi ∈ order_items (tables s) -> oi_product_id oi <> id) /\
         r = answer 200 (ProductDeleted id (name p)) /\
         (no_fault 2 (redis_faults (redis (world_of s))) = true ->
          forall k, glob "products:*" k = true ->
            store (redis (world_of s')) !! k = None)) /\
  (forall pid p,
     productId = Some pid -> products (tables s) !! pid = Some p ->
     0 < count_order_items pid s ->
     no_fault 2 (pg_faults (pg (world_of s))) = true ->
     fst (deleteProduct productId s) =
       Done (answer 400 (Msg (cannot_delete_message (name p) (count_order_items pid s))))).
Proof.
  split.
  - destruct (deleteProduct_runs productId s)
      as (r & s' & E & Ho & Hi & Hu & Hcase).
    exists r, s'. repeat (split; [done|]).
    destruct Hcase as [(Hp & _ & _)|(pid & p & -> & Hp & Hno & Hdel & -> & w1 & Hw1 & Hrd)].
    { split; [|by left; rewrite Hp].
      intros Hfk oi Hin. rewrite Hi in Hin. rewrite Hp. by apply Hfk. }
    split.
    + intros Hfk oi Hin. rewrite Hi in Hin. rewrite Hdel.
      rewrite lookup_delete_ne by (apply not_eq_sym; by apply Hno). by apply Hfk.
    + intros id. rewrite Hdel. destruct (decide (pid = id)) as [<-|Hne].
      * right. exists p. split; [done|]. split; [done|].
        split; [apply lookup_delete_eq|]. split; [done|]. split; [done|].
        intros Hf k Hk. rewrite Hrd.
        apply delByPattern_clears; [by rewrite Hw1|done].
      * left. by rewrite lookup_delete_ne.
  - intros pid p -> Hp Hcount [H1 [H2 _]%no_fault_S]%no_fault_S.
    unfold deleteProduct, site_try, site_bind, query, reading.
    destruct (pg_faults (pg (world_of s))) as [|[] [|[] fs]]; try discriminate; simpl;
      rewrite ?tables_next_statement, Hp; simpl;
      change (count_order_items pid (next_statement ?fs0 (journaled ?evs ?s0)))
        with (count_order_items pid s);
      apply Z.ltb_lt in Hcount; by rewrite Hcount.
Qed.

Lemma deleteProduct_keeps_ordered_products_witness :
  fst (deleteProduct (Some 1) after_order) =
    Done (answer 400
            (Msg "Cannot delete product 'Dev Mug' - it has 1 associated order(s). Consider setting stock to 0 instead.")).
Proof.
  apply (proj2 (deleteProduct_keeps_ordered_products (Some 1) after_order) 1
           {| name := "Dev Mug"; price := 1299; stock_quantity := 3;
              category_id := Some 1 |}).
  - reflexivity.
  - vm_compute. reflexivity.
  - vm_compute. reflexivity.
  - reflexivity.
Defined.

(** ** Tokens *)

Lemma split_on_space_spaceless s : spaceless s = true -> split_on_space s = [s].
Proof.
  unfold spaceless. induction s as [|c s IH]; [done|]. simpl.
  intros [Hc Hs]%andb_true_iff. apply negb_true_iff in Hc. rewrite Hc.
  by rewrite (IH Hs).
Qed.

Lemma split_on_space_app a b :
  spaceless a = true ->
  split_on_space (a +:+ " " +:+ b) = a :: split_on_space b.
Proof.
  unfold spaceless. induction a as [|c a IH]; [done|]. simpl.
  intros [Hc Ha]%andb_true_iff. apply negb_true_iff in Hc. rewrite Hc.
  by rewrite (IH Ha).
Qed.

Lemma bearer_token_second_word scheme token rest :
  spaceless scheme = true -> spaceless token = true ->
  bearer_token (Some (scheme +:+ " " +:+ token)) = Some token /\
  bearer_token (Some (scheme +:+ " " +:+ token +:+ " " +:+ rest)) = Some token.
Proof.
  intros Hs Ht. unfold bearer_token. split.
  - rewrite (split_on_space_app _ _ Hs). by rewrite (split_on_space_spaceless _ Ht).
  - rewrite (split_on_space_app _ _ Hs). by rewrite (split_on_space_app _ _ Ht).
Qed.

(** X24.  [authenticateToken] takes the second word of the Authorization
    header for the token, whatever the first word is: it does not ask for
    the Bearer scheme.  A request without the header, or whose header is
    one word, is answered 401; a token that does not verify, or any token
    when JWT_SECRET is not set, is answered 403.  A request that the
    middleware answers reaches no handler of the orders router and of the
    admin route, and leaves the site as it is; so does a request to the
    admin route whose token is not an administrator's. *)
Theorem authenticateToken_reads_second_word
    JWT_SECRET jwt_verify newest_first scheme token :
  spaceless scheme = true -> spaceless token = true -> token <> "" ->
  authenticateToken JWT_SECRET jwt_verify (Some (scheme +:+ " " +:+ token)) =
    match JWT_SECRET with
    | Some secret =>
        match jwt_verify secret token with
        | Some user => inr user
        | None => inl (answer 403 (Msg "Invalid token"))
        end
    | None => inl (answer 403 (Msg "Invalid token"))
    end /\
  authenticateToken JWT_SECRET jwt_verify None =
    inl (answer 401 (Msg "Access token required")) /\
  authenticateToken JWT_SECRET jwt_verify (Some scheme) =
    inl (answer 401 (Msg "Access token required")) /\
  (forall authorization refused b route productId s,
     authenticateToken JWT_SECRET jwt_verify authorization = inl refused ->
     orders_router JWT_SECRET jwt_verify newest_first b authorization route s =
       (Done (inl refused), s) /\
     admin_delete_product JWT_SECRET jwt_verify authorization productId s =
       (Done (inl refused), s)) /\
  (forall authorization user productId s,
     authenticateToken JWT_SECRET jwt_verify authorization = inr user ->
     u_role user <> "admin" ->
     admin_delete_product JWT_SECRET jwt_verify authorization productId s =
       (Done (inl (answer 403 (Msg "Admin access required"))), s)).
Proof.
  intros Hs Ht Hne. split; [|split; [|split; [|split]]].
  - unfold authenticateToken, verified.
    rewrite (proj1 (bearer_token_second_word scheme token "" Hs Ht)).
    destruct token; [done|]. by destruct JWT_SECRET.
  - done.
  - unfold authenticateToken, bearer_token.
    by rewrite (split_on_space_spaceless _ Hs).
  - intros authorization refused b route productId s Hauth.
    unfold orders_router, admin_delete_product, behind_token, behind_admin.
    by rewrite Hauth.
  - intros authorization user productId s Hauth Hrole.
    unfold admin_delete_product, behind_admin, requireAdmin. rewrite Hauth.
    destruct (String.eqb_spec (u_role user) "admin"); done.
Qed.

Lemma authenticateToken_reads_second_word_witness :
  authenticateToken (Some "s3cret") toy_verify (Some "Basic s3cret.1") =
    inr {| u_id := 1; u_email := "carol@example.com"; u_role := "customer" |} /\
  admin_delete_product (Some "s3cret") toy_verify (Some "Basic s3cret.1") (Some 1)
    after_order =
    (Done (inl (answer 403 (Msg "Admin access required"))), after_order).
Proof.
  destruct (authenticateToken_reads_second_word (Some "s3cret") toy_verify reverse
              "Basic" "s3cret.1") as (H1 & _ & _ & _ & H5); [done|done|done|].
  split; [exact H1|]. apply H5 with (user := {| u_id := 1; u_email := "carol@example.com";
                                                u_role := "customer" |}); [exact H1|done].
Defined.

(** ** Accounts *)

Lemma user_by_email_None e s :
  user_by_email e s = None <->
  forall id a, users s !! id = Some a -> email a <> e.
Proof.
  unfold user_by_email. rewrite head_None. split.
  - intros Hnil id a Ha He.
    apply (filter_nil_not_elem_of _ _ (id, a) Hnil); [done|].
    by apply elem_of_map_to_list.
  - intros Hno.
    destruct (filter _ _) as [|[id a] l] eqn:E; [done|]. exfalso.
    assert (Hin : (id, a) ∈ filter (fun row : Z * account => email row.2 = e)
                    (map_to_list (users s))) by (rewrite E; by left).
    apply list_elem_of_filter in Hin as [He Hin]. apply elem_of_map_to_list in Hin.
    by apply (Hno id a).
Qed.

Lemma user_by_email_Some e s id a :
  user_by_email e s = Some (id, a) -> users s !! id = Some a /\ email a = e.
Proof.
  intros H. apply head_Some_elem_of, list_elem_of_filter in H as [He Hin].
  by apply elem_of_map_to_list in Hin.
Qed.

Lemma user_by_email_new e id row w us seq j :
  us !! id = None -> email row = e ->
  (forall i a, us !! i = Some a -> email a <> e) ->
  user_by_email e {| world_of := w; users := <[id := row]> us; users_id_seq := seq;
                     journal := j |} = Some (id, row).
Proof.
  intros Hfresh He Hno. unfold user_by_email. simpl.
  assert (Hperm : filter (fun r : Z * account => email r.2 = e)
                    (map_to_list (<[id := row]> us)) ≡ₚ [(id, row)]).
  { rewrite (map_to_list_insert us id row Hfresh), filter_cons_True by done.
    assert (filter (fun r : Z * account => email r.2 = e) (map_to_list us) = []) as ->;
      [|done].
    destruct (filter _ _) as [|[i a] l] eqn:E; [done|]. exfalso.
    assert (Hin : (i, a) ∈ filter (fun r : Z * account => email r.2 = e)
                    (map_to_list us)) by (rewrite E; by left).
    apply list_elem_of_filter in Hin as [Hea Hin]. apply elem_of_map_to_list in Hin.
    by apply (Hno i a). }
  apply Permutation_singleton_r in Hperm. by rewrite Hperm.
Qed.

Section AccountProofs.

Variable JWT_SECRET : option string.
Variable jwt_verify : string -> string -> option auth_user.
Variable jwt_sign : string -> auth_user -> string.
Variable bcrypt_hash : string -> string.
Variable bcrypt_compare : string -> string -> bool.
Variable is_email : string -> bool.

Lemma registerSchema_email b e p f l :
  registerSchema is_email b = Some (e, p, f, l) ->
  b = {| rg_email := Some e; rg_password := Some p; rg_firstName := Some f;
         rg_lastName := Some l |} /\
  is_email e = true /\ (8 <= String.length p)%nat.
Proof.
  unfold registerSchema. intros H.
  destruct b as [[e'|] [p'|] [f'|] [l'|]];
    cbn [rg_email rg_password rg_firstName rg_lastName] in H; try done.
  destruct (is_email e' && (8 <=? String.length p')%nat &&
            (1 <=? String.length f')%nat && (1 <=? String.length l')%nat) eqn:Ec;
    [|done].
  injection H as -> -> -> ->.
  apply andb_true_iff in Ec as [[[He Hp]%andb_true_iff _]%andb_true_iff _].
  split; [done|]. split; [done|]. by apply Nat.leb_le.
Qed.

Lemma register_accepted b e p f l s secret :
  registerSchema is_email b = Some (e, p, f, l) ->
  users s !! users_id_seq s = None -> user_by_email e s = None ->
  hd false (pg_faults (pg (world_of s))) = false ->
  JWT_SECRET = Some secret -> secret <> "" ->
  let u := {| u_id := users_id_seq s; u_email := e; u_role := "customer" |} in
  exists s1,
    register JWT_SECRET jwt_sign bcrypt_hash is_email b s =
      (Done (answer 201 (Session u (jwt_sign secret u))), s1) /\
    tables s1 = tables s /\
    users s1 =
      <[users_id_seq s := {| email := e; password_hash := bcrypt_hash p;
                             first_name := f; last_name := l; role := "customer" |}]>
        (users s) /\
    users_id_seq s1 = users_id_seq s + 1 /\
    pg_faults (pg (world_of s1)) = tail (pg_faults (pg (world_of s))).
Proof.
  intros Hb Hfresh Hnew Hf -> Hsecret u.
  unfold register, site_try, site_bind. rewrite Hb.
  unfold query, exec_insert_user, requireJwtSecret.
  destruct (pg_faults (pg (world_of s))) as [|[] fs] eqn:Efs; try discriminate.
  all: change (users (next_statement ?fs0 s)) with (users s);
    change (users_id_seq (next_statement ?fs0 s)) with (users_id_seq s);
    change (user_by_email e (next_statement ?fs0 s)) with (user_by_email e s);
    rewrite Hfresh, Hnew; simpl; destruct secret; try done; simpl;
    eexists; (split; [reflexivity|]); simpl; by rewrite ?Efs.
Qed.

Lemma login_accepted b e p s id row secret :
  loginSchema is_email b = Some (e, p) ->
  user_by_email e s = Some (id, row) ->
  bcrypt_compare p (password_hash row) = true ->
  hd false (pg_faults (pg (world_of s))) = false ->
  JWT_SECRET = Some secret -> secret <> "" ->
  let u := {| u_id := id; u_email := email row; u_role := role row |} in
  exists s1,
    login JWT_SECRET jwt_sign bcrypt_compare is_email b s =
      (Done (answer 200 (Session u (jwt_sign secret u))), s1) /\
    same_site s s1.
Proof.
  intros Hb Hrow Hpw Hf -> Hsecret u.
  unfold login, site_try, site_bind. rewrite Hb.
  unfold query, reading, requireJwtSecret.
  destruct (pg_faults (pg (world_of s))) as [|[] fs] eqn:Efs; try discriminate.
  all: change (user_by_email e (next_statement ?fs0 s)) with (user_by_email e s);
    rewrite Hrow; simpl; rewrite Hpw; destruct secret; try done; simpl;
    eexists; (split; [reflexivity|]); by repeat split.
Qed.

(** X25.  A user who registers can log in and is then who the middleware
    says: with JWT_SECRET set, an e-mail address that no account has, and
    PostgreSQL accepting the two statements, [register] answers 201 with
    the new id, the address and the role customer, [login] with the same
    address and password answers 200 with the same user, and the token of
    either answer, sent as a Bearer token, makes [authenticateToken] pass
    that user on.  Neither call touches the tables of the shop. *)
Theorem registered_user_logs_in b e p f l s secret :
  registerSchema is_email b = Some (e, p, f, l) ->
  users s !! users_id_seq s = None -> user_by_email e s = None ->
  no_fault 2 (pg_faults (pg (world_of s))) = true ->
  JWT_SECRET = Some secret -> secret <> "" ->
  bcrypt_compare p (bcrypt_hash p) = true ->
  let u := {| u_id := users_id_seq s; u_email := e; u_role := "customer" |} in
  let token := jwt_sign secret u in
  jwt_verify secret token = Some u -> spaceless token = true -> token <> "" ->
  exists s1 s2,
    register JWT_SECRET jwt_sign bcrypt_hash is_email b s =
      (Done (answer 201 (Session u token)), s1) /\
    login JWT_SECRET jwt_sign bcrypt_compare is_email
      {| lg_email := Some e; lg_password := Some p |} s1 =
      (Done (answer 200 (Session u token)), s2) /\
    authenticateToken JWT_SECRET jwt_verify (Some ("Bearer " +:+ token)) = inr u /\
    tables s2 = tables s.
Proof.
  intros Hb Hfresh Hnew [H1 [H2 _]%no_fault_S]%no_fault_S Hjwt Hsecret Hpw u token
    Hverify Hspace Htoken.
  destruct (register_accepted b e p f l s secret Hb Hfresh Hnew H1 Hjwt Hsecret)
    as (s1 & E1 & Ht1 & Hu1 & Hseq1 & Hf1).
  destruct (registerSchema_email _ _ _ _ _ Hb) as (_ & Hemail & _).
  set (row := {| email := e; password_hash := bcrypt_hash p; first_name := f;
                 last_name := l; role := "customer" |}) in *.
  assert (Hrow : user_by_email e s1 = Some (users_id_seq s, row)).
  { destruct s1 as [w1 us1 seq1 j1]. simpl in Hu1. subst us1.
    apply user_by_email_new; [done|done|]. by apply user_by_email_None. }
  destruct (login_accepted {| lg_email := Some e; lg_password := Some p |} e p s1
              (users_id_seq s) row secret) as (s2 & E2 & Hs2); try done.
  { unfold loginSchema. simpl. by rewrite Hemail. }
  { by rewrite Hf1. }
  exists s1, s2. split; [exact E1|]. split; [exact E2|]. split.
  - unfold authenticateToken, verified.
    change (Some ("Bearer " +:+ token)) with (Some ("Bearer" +:+ " " +:+ token)).
    rewrite (proj1 (bearer_token_second_word "Bearer" token "" eq_refl Hspace)).
    rewrite Hjwt. subst token.
    destruct (jwt_sign secret u) as [|c t] eqn:Et; [done|]. by rewrite Hverify.
  - destruct Hs2 as (Ht2 & _). congruence.
Qed.

Lemma register_runs b s :
  exists r s',
    register JWT_SECRET jwt_sign bcrypt_hash is_email b s = (Done r, s') /\
    tables s' = tables s /\
    (users s' = users s /\ reply_status r <> 201 \/
     exists e p f l,
       registerSchema is_email b = Some (e, p, f, l) /\
       users s !! users_id_seq s = None /\ user_by_email e s = None /\
       users s' =
         <[users_id_seq s := {| email := e; password_hash := bcrypt_hash p;
                                first_name := f; last_name := l;
                                role := "customer" |}]> (users s) /\
       (reply_status r = 201 \/ r = answer 500 (Msg "Registration failed"))).
Proof.
  unfold register, site_try.
  destruct (registerSchema is_email b) as [[[[e p] f] l]|] eqn:Eb.
  2: { do 2 eexists. split; [reflexivity|]. split; [done|]. left. by split. }
  unfold site_bind, query, exec_insert_user, requireJwtSecret.
  destruct (pg_faults (pg (world_of s))) as [|[] fs].
  all: try (simpl; do 2 eexists; (split; [reflexivity|]); (split; [done|]); left;
            by split).
  all: change (users (next_statement ?fs0 s)) with (users s);
    change (users_id_seq (next_statement ?fs0 s)) with (users_id_seq s);
    change (user_by_email e (next_statement ?fs0 s)) with (user_by_email e s).
  all: destruct (users s !! users_id_seq s) as [taken|] eqn:Eid;
    [ rewrite bool_decide_eq_true_2 by (by eexists); simpl;
      do 2 eexists; (split; [reflexivity|]); (split; [done|]); left; by split |].
  all: rewrite (bool_decide_eq_false_2 (is_Some None)) by (by intros [? ?]).
  all: destruct (user_by_email e s) as [[id row]|] eqn:Ee;
    [ rewrite bool_decide_eq_true_2 by (by eexists); simpl;
      do 2 eexists; (split; [reflexivity|]); (split; [done|]); left; by split |].
  all: rewrite (bool_decide_eq_false_2 (is_Some None)) by (by intros [? ?]).
  all: simpl; destruct JWT_SECRET as [[|c secret]|]; simpl;
    do 2 eexists; (split; [reflexivity|]); (split; [done|]); right;
    exists e, p, f, l; repeat (split; [done|]); auto.
Qed.

Lemma emails_unique_insert (m : gmap Z account) id row :
  emails_unique m -> m !! id = None ->
  (forall i a, m !! i = Some a -> email a <> email row) ->
  emails_unique (<[id := row]> m).
Proof.
  intros Hu Hfresh Hnew i j a c Hi Hj He.
  destruct (decide (i = id)) as [->|Hni], (decide (j = id)) as [->|Hnj]; [done|..].
  - rewrite lookup_insert_eq in Hi. injection Hi as <-.
    rewrite lookup_insert_ne in Hj by done. exfalso. by apply (Hnew j c).
  - rewrite lookup_insert_eq in Hj. injection Hj as <-.
    rewrite lookup_insert_ne in Hi by done. exfalso. by apply (Hnew i a).
  - rewrite lookup_insert_ne in Hi, Hj by done. by eapply Hu.
Qed.

(** X26.  [register] always answers and never touches the tables of the
    shop.  It adds at most one account, under the next id of the sequence,
    for an address that no account had, with the hash of the password and
    always with the role customer: no request makes an administrator.
    Addresses stay unique.  An answer other than 201 leaves the accounts
    as they were, but for one case: the account is stored before the
    token is signed, so that with JWT_SECRET not set the call stores the
    account and answers 500 Registration failed. *)
Theorem register_adds_customers_only b s :
  (exists r s',
     register JWT_SECRET jwt_sign bcrypt_hash is_email b s = (Done r, s') /\
     tables s' = tables s /\
     (emails_unique (users s) -> emails_unique (users s')) /\
     (forall id row, users s' !! id = Some row ->
        users s !! id = Some row \/
        users s !! id = None /\ id = users_id_seq s /\ role row = "customer" /\
        rg_email b = Some (email row) /\
        exists p, rg_password b = Some p /\ password_hash row = bcrypt_hash p) /\
     (forall id row, users s !! id = Some row -> users s' !! id = Some row) /\
     (users s' <> users s ->
      reply_status r = 201 \/ r = answer 500 (Msg "Registration failed"))) /\
  (forall e p f l,
     registerSchema is_email b = Some (e, p, f, l) ->
     users s !! users_id_seq s = None -> user_by_email e s = None ->
     hd false (pg_faults (pg (world_of s))) = false ->
     JWT_SECRET = None ->
     fst (register JWT_SECRET jwt_sign bcrypt_hash is_email b s) =
       Done (answer 500 (Msg "Registration failed")) /\
     users (snd (register JWT_SECRET jwt_sign bcrypt_hash is_email b s))
       !! users_id_seq s =
       Some {| email := e; password_hash := bcrypt_hash p; first_name := f;
               last_name := l; role := "customer" |}).
Proof.
  split.
  - destruct (register_runs b s) as (r & s' & E & Ht & Hcase).
    exists r, s'. split; [done|]. split; [done|].
    destruct Hcase as [[Hu Hr]|(e & p & f & l & Hb & Hfresh & Hnew & Hu & Hr)].
    { rewrite Hu. split; [done|]. split; [by left|]. split; [done|]. done. }
    destruct (registerSchema_email _ _ _ _ _ Hb) as (-> & _).
    rewrite Hu. split; [|split; [|split]].
    + intros Huniq. apply emails_unique_insert; [done|done|].
      simpl. by apply user_by_email_None.
    + intros id row Hrow. destruct (decide (id = users_id_seq s)) as [->|Hne].
      * rewrite lookup_insert_eq in Hrow. injection Hrow as <-. right.
        simpl. repeat (split; [done|]). by exists p.
      * rewrite lookup_insert_ne in Hrow by done. by left.
    + intros id row Hrow. rewrite lookup_insert_ne; [done|]. congruence.
    + done.
  - intros e p f l Hb Hfresh Hnew Hf Hjwt.
    unfold register, site_try, site_bind. rewrite Hb.
    unfold query, exec_insert_user, requireJwtSecret. rewrite Hjwt.
    destruct (pg_faults (pg (world_of s))) as [|[] fs]; try discriminate.
    all: change (users (next_statement ?fs0 s)) with (users s);
      change (users_id_seq (next_statement ?fs0 s)) with (users_id_seq s);
      change (user_by_email e (next_statement ?fs0 s)) with (user_by_email e s);
      rewrite Hfresh, Hnew; simpl; split; [done|]; apply lookup_insert_eq.
Qed.

Lemma login_runs b s :
  exists r s',
    login JWT_SECRET jwt_sign bcrypt_compare is_email b s = (Done r, s') /\
    same_site s s' /\
    forall u token, reply_json r = Session u token ->
      exists row p secret,
        users s !! u_id u = Some row /\ u_email u = email row /\ u_role u = role row /\
        lg_email b = Some (email row) /\ lg_password b = Some p /\
        bcrypt_compare p (password_hash row) = true /\
        JWT_SECRET = Some secret /\ token = jwt_sign secret u.
Proof.
  unfold login, site_try.
  destruct (loginSchema is_email b) as [[e p]|] eqn:Eb.
  2: { do 2 eexists. split; [reflexivity|]. split; [apply same_site_refl|]. done. }
  assert (Hbody : lg_email b = Some e /\ lg_password b = Some p).
  { unfold loginSchema in Eb. destruct b as [[e'|] [p'|]]; simpl in *; try done.
    destruct (is_email e'); [|done]. by injection Eb as -> ->. }
  destruct Hbody as [Hbe Hbp].
  unfold site_bind, query, reading, requireJwtSecret.
  destruct (pg_faults (pg (world_of s))) as [|[] fs].
  all: try (simpl; do 2 eexists; (split; [reflexivity|]);
            (split; [by repeat split|]); done).
  all: change (user_by_email e (next_statement ?fs0 s)) with (user_by_email e s).
  all: destruct (user_by_email e s) as [[id row]|] eqn:Ee; simpl;
    [|do 2 eexists; (split; [reflexivity|]); (split; [by repeat split|]); done].
  all: destruct (user_by_email_Some _ _ _ _ Ee) as [Hrow Hemail].
  all: destruct (bcrypt_compare p (password_hash row)) eqn:Epw; simpl;
    [|do 2 eexists; (split; [reflexivity|]); (split; [by repeat split|]); done].
  all: destruct JWT_SECRET as [[|c secret]|]; simpl;
    do 2 eexists; (split; [reflexivity|]); (split; [by repeat split|]);
    try done; intros u token [= <- <-]; simpl;
    exists row, p, (String c secret); rewrite Hemail; by repeat split.
Qed.

(** X27.  [login] always answers and only reads.  It answers with a
    session only for an account of the users table whose stored hash
    bcrypt accepts for the password sent, and the session carries the id,
    the address and the role of that account; and it does not tell why it
    refuses: an address that no account has and a wrong password for an
    address that has one get the same answer, 401 Invalid credentials
    when the server accepts the statement and 500 when it rejects it. *)
Theorem login_does_not_tell_why_it_refuses b s :
  (exists r s',
     login JWT_SECRET jwt_sign bcrypt_compare is_email b s = (Done r, s') /\
     same_site s s' /\
     forall u token, reply_json r = Session u token ->
       exists row p secret,
         users s !! u_id u = Some row /\ u_email u = email row /\
         u_role u = role row /\
         lg_email b = Some (email row) /\ lg_password b = Some p /\
         bcrypt_compare p (password_hash row) = true /\
         JWT_SECRET = Some secret /\ token = jwt_sign secret u) /\
  (forall e p,
     is_email e = true ->
     (user_by_email e s = None \/
      exists id row, user_by_email e s = Some (id, row) /\
        bcrypt_compare p (password_hash row) = false) ->
     fst (login JWT_SECRET jwt_sign bcrypt_compare is_email
            {| lg_email := Some e; lg_password := Some p |} s) =
       Done (if hd false (pg_faults (pg (world_of s)))
             then answer 500 (Msg "Login failed")
             else answer 401 (Msg "Invalid credentials"))).
Proof.
  split; [apply login_runs|].
  intros e p He Hcase.
  unfold login, site_try, loginSchema. simpl. rewrite He.
  unfold site_bind, query, reading.
  destruct (pg_faults (pg (world_of s))) as [|[] fs]; try done.
  all: change (user_by_email ?e0 (next_statement ?fs0 s)) with (user_by_email e0 s);
    destruct Hcase as [->|(id & row & -> & Hpw)]; simpl; try done; by rewrite Hpw.
Qed.

End AccountProofs.

Lemma registered_user_logs_in_witness :
  exists s1 s2,
    register (Some "s3cret") toy_sign toy_hash toy_is_email carol_registers
      (fresh_site shop) =
      (Done (answer 201
               (Session {| u_id := 1; u_email := "carol@example.com";
                           u_role := "customer" |} "s3cret.1")), s1) /\
    login (Some "s3cret") toy_sign toy_compare toy_is_email
      {| lg_email := Some "carol@example.com"; lg_password := Some "correct horse" |}
      s1 =
      (Done (answer 200
               (Session {| u_id := 1; u_email := "carol@example.com";
                           u_role := "customer" |} "s3cret.1")), s2) /\
    authenticateToken (Some "s3cret") toy_verify (Some ("Bearer " +:+ "s3cret.1")) =
      inr {| u_id := 1; u_email := "carol@example.com"; u_role := "customer" |} /\
    tables s2 = tables (fresh_site shop).
Proof.
  apply (registered_user_logs_in (Some "s3cret") toy_verify toy_sign toy_hash
           toy_compare toy_is_email carol_registers "carol@example.com"
           "correct horse" "Carol" "Danvers" (fresh_site shop) "s3cret");
    try reflexivity; done.
Defined.

Lemma register_adds_customers_only_witness :
  let run := register None toy_sign toy_hash toy_is_email carol_registers
               (fresh_site shop) in
  fst run = Done (answer 500 (Msg "Registration failed")) /\
  users (snd run) !! 1 =
    Some {| email := "carol@example.com"; password_hash := "$2b$10$correct horse";
            first_name := "Carol"; last_name := "Danvers"; role := "customer" |}.
Proof.
  intros run.
  apply (proj2 (register_adds_customers_only None toy_sign toy_hash toy_is_email
                  carol_registers (fresh_site shop))
           "carol@example.com" "correct horse" "Carol" "Danvers"); reflexivity.
Defined.

Lemma login_does_not_tell_why_it_refuses_witness :
  fst (login (Some "s3cret") toy_sign toy_compare toy_is_email
         {| lg_email := Some "nobody@example.com"; lg_password := Some "correct horse" |}
         after_order) = Done (answer 401 (Msg "Invalid credentials")) /\
  fst (login (Some "s3cret") toy_sign toy_compare toy_is_email
         {| lg_email := Some "alice@example.com"; lg_password := Some "rabbit hole" |}
         after_order) = Done (answer 401 (Msg "Invalid credentials")).
Proof.
  split.
  - apply (proj2 (login_does_not_tell_why_it_refuses (Some "s3cret") toy_sign
                    toy_compare toy_is_email
                    {| lg_email := Some "nobody@example.com";
                       lg_password := Some "correct horse" |} after_order)
             "nobody@example.com" "correct horse"); [reflexivity|].
    left. vm_compute. reflexivity.
  - apply (proj2 (login_does_not_tell_why_it_refuses (Some "s3cret") toy_sign
                    toy_compare toy_is_email
                    {| lg_email := Some "alice@example.com";
                       lg_password := Some "rabbit hole" |} after_order)
             "alice@example.com" "rabbit hole"); [reflexivity|].
    right. exists 7, alice_account. split; vm_compute; reflexivity.
Defined.

(** * The cache endpoints *)

(** X28.  GET /cache/healthz answers 200 Connected exactly when Redis
    accepts the PING, and 503 Disconnected otherwise.  GET /cache/stats
    answers 200 with ok: true whatever Redis does: with Redis accepting
    INFO and DBSIZE the stats hold the number of keys of the store, and
    with Redis rejecting one of them the stats are the error object of
    the cache service.  The [catch] blocks of the two endpoints are never
    entered, and the store is left as it is. *)
Theorem cache_endpoints_report_redis w :
  fst (cache_healthz w) =
    Ok (if hd false (redis_faults (redis w)) then (503, Disconnected)
        else (200, Connected)) /\
  store (redis (snd (cache_healthz w))) = store (redis w) /\
  fst (cache_stats_endpoint w) =
    Ok (200,
        Some (if no_fault 2 (redis_faults (redis w))
              then Stats (Z.of_nat (size (store (redis w))))
              else StatsError)) /\
  store (redis (snd (cache_stats_endpoint w))) = store (redis w).
Proof.
  unfold cache_healthz, cache_stats_endpoint, CacheService.healthCheck,
    CacheService.getStats, try_catch, bind, redis_call, log, ret, no_fault.
  destruct (redis_faults (redis w)) as [|[] [|[] fs]]; simpl; by repeat split.
Qed.

(** * The list of all orders *)

(** X29.  [getAllOrders] always answers and only reads, and lists orders
    to nobody but a caller whose role is admin.  The list holds, each
    once, the orders whose user has a row in the users table, with that
    user's address and names and with the number of order lines. *)
Theorem getAllOrders_is_for_administrators newest_first user s :
  (forall l, newest_first l ≡ₚ l) ->
  exists r s', getAllOrders newest_first user s = (Done r, s') /\ same_site s s' /\
    forall rows, reply_json r = AllOrders rows ->
      (exists u, user = Some u /\ u_role u = "admin") /\
      NoDup ((os_id ∘ ao_order) <$> rows) /\
      forall row, row ∈ rows <->
        exists o a,
          orders (tables s) !! os_id (ao_order row) = Some o /\
          users s !! user_id o = Some a /\
          row = {| ao_order := summary_of (tables s) (os_id (ao_order row), o);
                   ao_user_email := email a; ao_first_name := first_name a;
                   ao_last_name := last_name a |}.
Proof.
  intros Hperm. unfold getAllOrders, site_try.
  destruct (not_admin user) eqn:Eadm.
  { do 2 eexists. split; [reflexivity|]. split; [apply same_site_refl|]. by intros rows. }
  assert (Hadm : exists u, user = Some u /\ u_role u = "admin").
  { destruct user as [u|]; [|discriminate]. exists u. split; [done|].
    simpl in Eadm. by apply negb_false_iff, String.eqb_eq in Eadm. }
  unfold site_bind.
  destruct (query SelectAllOrders (reading (select_all_orders newest_first)) s)
    as [[rows|e] s1] eqn:E;
    destruct (query_reading_inv _ _ _ _ _ E) as (Hs & _ & _ & Hr).
  2: { do 2 eexists. split; [reflexivity|]. simpl.
       split; [by destruct Hs as (?&?&?&?&?)|]. by intros rows. }
  do 2 eexists. split; [reflexivity|]. split; [done|].
  intros rows' [= <-]. split; [done|].
  destruct Hr as [[[=] _]|(fs & [= ->] & _)].
  unfold select_all_orders. rewrite tables_next_statement.
  change (users (next_statement fs s)) with (users s).
  set (join := fun row : Z * order =>
         match users s !! user_id row.2 with
         | Some u =>
             Some {| ao_order := summary_of (tables s) row; ao_user_email := email u;
                     ao_first_name := first_name u; ao_last_name := last_name u |}
         | None => None
         end).
  set (all := map_to_list (orders (tables s))).
  assert (Hid : forall l, (os_id ∘ ao_order) <$> omap join l `sublist_of` l.*1).
  { induction l as [|[oid o] l IH]; [done|]. simpl. unfold join at 1. simpl.
    destruct (users s !! user_id o); simpl; [by constructor|by constructor]. }
  split.
  - apply (sublist_NoDup _ (newest_first all).*1); [|apply Hid].
    rewrite (Hperm all). apply NoDup_fst_map_to_list.
  - intros row. rewrite list_elem_of_omap. split.
    + intros ([oid o] & Hin & Hjoin). rewrite (Hperm all) in Hin.
      apply elem_of_map_to_list in Hin. unfold join in Hjoin. simpl in Hjoin.
      destruct (users s !! user_id o) as [a|] eqn:Ea; [|done].
      injection Hjoin as <-. simpl. by exists o, a.
    + intros (o & a & Ho & Ha & Hrow).
      exists (os_id (ao_order row), o). split.
      * rewrite (Hperm all). by apply elem_of_map_to_list.
      * unfold join. simpl. rewrite Ha. f_equal. symmetry. exact Hrow.
Qed.

Lemma getAllOrders_is_for_administrators_witness :
  fst (getAllOrders reverse (Some alice) after_order) =
    Done (answer 403 (Msg "Admin access required")) /\
  exists r s', getAllOrders reverse (Some root) after_order = (Done r, s') /\
    same_site after_order s' /\
    forall rows, reply_json r = AllOrders rows ->
      (exists u, Some root = Some u /\ u_role u = "admin") /\
      NoDup ((os_id ∘ ao_order) <$> rows) /\
      forall row, row ∈ rows <->
        exists o a,
          orders (tables after_order) !! os_id (ao_order row) = Some o /\
          users after_order !! user_id o = Some a /\
          row = {| ao_order := summary_of (tables after_order)
                                 (os_id (ao_order row), o);
                   ao_user_email := email a; ao_first_name := first_name a;
                   ao_last_name := last_name a |}.
Proof.
  split; [reflexivity|].
  apply (getAllOrders_is_for_administrators reverse (Some root) after_order).
  intros l. apply reverse_Permutation.
Defined.
